(** * aem-wc-boilerplate: the block loader of [scripts/aem.js]

    A shallow embedding of the loader (resource loaders, hero promotion,
    telemetry sampler, block discovery, fragment preloading, the
    initialization sequence and the [Block] base class) together with the
    properties proved about it.

    Conventions of the embedding.
    - An HTML text is represented by the forest of nodes it parses to
      ([markup]); reading the [innerHTML] of one element and assigning it to
      another serializes a forest and parses it again, which is the
      browser's [reparse].
    - Elements are HTML elements, held by their local names, in lower case
      ([tagName] is the local name with its ASCII letters in upper case, and
      the loader lower-cases it wherever it reads it).  The children of a
      [template] element stand for its [content], which selectors do not
      enter.
    - Strings are byte strings.  What the loader computes on them is
      computed here for ASCII; strings with other bytes are lower-cased by
      the browser ([unicode_lower]).
    - What depends on layout, on the HTML and CSS parsers or on the network
      is asked of the browser ([browser], [platform]).
    - Values are finite trees; where the data of a caller has a cycle, the
      object met again below itself is [VCycle].
    - Numbers are integers, but for the draws of [Math.random], which are
      doubles, held as the fractions they are.
    - An element that a script still holds stays what it was after it has left
      the document.  The document is therefore a fixed skeleton, in which a
      path names an element for good, and a store of cells recording what
      happened to each element since ([dom]).
    - A promise is represented by the state it ends in; [Pending] is a promise
      that never settles. *)

From stdpp Require Import gmap strings list pretty sorting.
From Stdlib Require Import Ascii ZArith QArith.

Set Warnings "-register-all".

Local Open Scope Z_scope.
Local Open Scope nat_scope.

(** ** Strings *)

Definition lower_ascii (c : ascii) : ascii :=
  let n := Ascii.nat_of_ascii c in
  if (65 <=? n) && (n <=? 90) then Ascii.ascii_of_nat (n + 32) else c.

(** ASCII lower-casing: what [createElement] applies to a name. *)
Fixpoint ascii_lowercase (s : string) : string :=
  match s with
  | EmptyString => EmptyString
  | String c s' => String (lower_ascii c) (ascii_lowercase s')
  end.

Fixpoint is_ascii (s : string) : bool :=
  match s with
  | EmptyString => true
  | String c s' => (Ascii.nat_of_ascii c <? 128) && is_ascii s'
  end.

(** [element.tagName.toLowerCase()], from the local name [s] of the element:
    computed for an ASCII name, the browser's answer [unicode] for any
    other. *)
Definition toLowerCase (unicode : string → string) (s : string) : string :=
  if is_ascii s then ascii_lowercase s else unicode s.

Fixpoint startsWith (s pre : string) : bool :=
  match pre, s with
  | EmptyString, _ => true
  | String a pre', String b s' => if decide (a = b) then startsWith s' pre' else false
  | String _ _, EmptyString => false
  end.

Definition endsWith (s suf : string) : bool :=
  startsWith (String.rev s) (String.rev suf).

(** [s.split(sep)] for a one-character separator: the pieces between the
    separators, at least one piece. *)
Fixpoint split_go (sep : ascii) (cur : string) (s : string) : list string :=
  match s with
  | EmptyString => [String.rev cur]
  | String c s' =>
      if decide (c = sep) then String.rev cur :: split_go sep EmptyString s'
      else split_go sep (String c cur) s'
  end.

Definition split (sep : ascii) (s : string) : list string :=
  split_go sep EmptyString s.

(** ASCII whitespace of the HTML standard, which separates class names. *)
Definition is_html_space (c : ascii) : bool :=
  match Ascii.nat_of_ascii c with
  | 9 | 10 | 12 | 13 | 32 => true
  | _ => false
  end.

Fixpoint tokens_go (cur : string) (s : string) : list string :=
  let flush := match cur with EmptyString => [] | _ => [String.rev cur] end in
  match s with
  | EmptyString => flush
  | String c s' =>
      if is_html_space c then flush ++ tokens_go EmptyString s'
      else tokens_go (String c cur) s'
  end.

Definition tokens (s : string) : list string := tokens_go EmptyString s.

(** ** Insertion-ordered tables

    Element attributes, object literals and [Map]s keep the position of a
    name's first insertion and the value of its last. *)

Section Assoc.
Context {V : Type}.

Fixpoint assoc_get (k : string) (l : list (string * V)) : option V :=
  match l with
  | [] => None
  | (k', v) :: l' => if decide (k' = k) then Some v else assoc_get k l'
  end.

Fixpoint assoc_set (k : string) (v : V) (l : list (string * V)) : list (string * V) :=
  match l with
  | [] => [(k, v)]
  | (k', v') :: l' =>
      if decide (k' = k) then (k, v) :: l' else (k', v') :: assoc_set k v l'
  end.

End Assoc.

(** A [Set] of strings, in insertion order. *)
Definition set_add (x : string) (s : list string) : list string :=
  if decide (x ∈ s) then s else s ++ [x].

(** ** Values, exceptions, promises, the console *)

Inductive exn : Type :=
| TypeError
| SyntaxError
| InvalidCharacterError
| NotSupportedError.

Inductive result (A : Type) : Type :=
| Ok (a : A)
| Throw (e : exn).
Arguments Ok {A} a.
Arguments Throw {A} e.

Inductive value : Type :=
| VUndefined
| VNull
| VBool (b : bool)
| VNum (n : Z)
| VBigInt (n : Z)
| VStr (s : string)
| VClass (name : string)
(** a function, by what it returns when it is called with one string *)
| VFun (call : string → result value)
| VObj (fields : list (string * value))
(** an object met again below itself: where the data of a caller has a
    cycle *)
| VCycle.

Definition truthy (v : value) : bool :=
  match v with
  | VUndefined | VNull => false
  | VBool b => b
  | VNum n | VBigInt n => negb (n =? 0)%Z
  | VStr s => negb (String.eqb s "")
  | VClass _ | VFun _ | VObj _ | VCycle => true
  end.

#[global] Instance result_ret : MRet result := fun A a => Ok a.
#[global] Instance result_bind : MBind result := fun A B f m =>
  match m with Ok a => f a | Throw e => Throw e end.

(** [forEach] over a static list with a body that may throw. *)
Fixpoint forEach {S A : Type} (body : S → A → result S) (l : list A) (s : S) : result S :=
  match l with
  | [] => Ok s
  | a :: l' => s' ← body s a; forEach body l' s'
  end.

(** What a rejected promise carries. *)
Inductive reason : Type :=
| Thrown (e : exn)
| NetworkFailure
| NoReason
| Because (v : value).

Inductive promise (A : Type) : Type :=
| Pending
| Fulfilled (a : A)
| Rejected (r : reason).
Arguments Pending {A}.
Arguments Fulfilled {A} a.
Arguments Rejected {A} r.

Inductive settled (A : Type) : Type :=
| IsFulfilled (a : A)
| IsRejected (r : reason).
Arguments IsFulfilled {A} a.
Arguments IsRejected {A} r.

Definition outcome {A} (p : promise A) : option (settled A) :=
  match p with
  | Pending => None
  | Fulfilled a => Some (IsFulfilled a)
  | Rejected r => Some (IsRejected r)
  end.

(** [Promise.allSettled]: fulfilled with every outcome, in the order of the
    input, once every input has settled; it never rejects. *)
Definition allSettled {A} (ps : list (promise A)) : promise (list (settled A)) :=
  match mapM outcome ps with
  | Some os => Fulfilled os
  | None => Pending
  end.

(** [Promise.allSettled] of two promises of different kinds. *)
Definition allSettled2 {A B} (a : promise A) (b : promise B)
  : promise (settled A * settled B) :=
  match outcome a, outcome b with
  | Some x, Some y => Fulfilled (x, y)
  | _, _ => Pending
  end.

Inductive log_entry : Type :=
| LogWarn (msg : string)
| LogError (msg : string)
| LogDebug (msg : string)
| LogInfo (msg : string).

(** ** The document *)

Inductive node : Type :=
| Text (data : string)
| Elem (tag : string) (attrs : list (string * string)) (kids : list node).

Abbreviation markup := (list node).
Abbreviation path := (list nat).

Definition tag_of (n : node) : string :=
  match n with Elem t _ _ => t | Text _ => "" end.
Definition attrs_of (n : node) : list (string * string) :=
  match n with Elem _ a _ => a | Text _ => [] end.
Definition kids_of (n : node) : markup :=
  match n with Elem _ _ ks => ks | Text _ => [] end.
Definition is_element (n : node) : bool :=
  match n with Elem _ _ _ => true | Text _ => false end.

(** [element.children]: the element children, text left out. *)
Definition children (m : markup) : list node := filter (λ n, is_element n = true) m.

(** [node.textContent]: the text a node holds, in document order. *)
Fixpoint textContent (n : node) : string :=
  match n with
  | Text s => s
  | Elem _ _ ks => foldr (λ k acc, textContent k +:+ acc) "" ks
  end.

(** The children selectors look at: the content of a template is not among
    the children of the template element. *)
Definition light_kids (n : node) : markup :=
  match n with
  | Elem t _ ks => if bool_decide (t = "template") then [] else ks
  | Text _ => []
  end.

Fixpoint subtree (n : node) (p : path) : option node :=
  match p with
  | [] => Some n
  | i :: q => match kids_of n !! i with Some k => subtree k q | None => None end
  end.

(** The node at [p] when no template content is entered on the way. *)
Fixpoint reach (n : node) (p : path) : option node :=
  match p with
  | [] => Some n
  | i :: q => match light_kids n !! i with Some k => reach k q | None => None end
  end.

(** The parent of the node at [q] in [n], whose own parent is [par]. *)
Definition parent_in (par : option node) (n : node) (q : path) : option node :=
  match q with
  | [] => par
  | _ => subtree n (removelast q)
  end.

(** *** Selectors

    A selector is a test on an element and its parent; [select] lists the
    paths of the matching nodes of a tree in document order, which is what
    the static list of [querySelectorAll] holds. *)

Definition selector := option node → node → bool.

Fixpoint select (m : selector) (parent : option node) (here : path) (n : node) : list path :=
  (if m parent n then [here] else []) ++
  match n with
  | Text _ => []
  | Elem t _ ks =>
      if bool_decide (t = "template") then []
      else
        (fix go (i : nat) (l : list node) : list path :=
           match l with
           | [] => []
           | k :: l' => select m (Some n) (here ++ [i]) k ++ go (S i) l'
           end) 0 ks
  end.

Fixpoint select_kids (m : selector) (parent : node) (here : path) (i : nat) (l : list node) : list path :=
  match l with
  | [] => []
  | k :: l' => select m (Some parent) (here ++ [i]) k ++ select_kids m parent here (S i) l'
  end.

Definition has_tag (t : string) (n : node) : bool :=
  match n with Elem t' _ _ => bool_decide (t' = t) | Text _ => false end.

Definition classList (n : node) : list string :=
  match assoc_get "class" (attrs_of n) with Some c => tokens c | None => [] end.

Definition has_class (c : string) (n : node) : bool :=
  is_element n && bool_decide (c ∈ classList n).

Definition child_of (t : string) (parent : option node) : bool :=
  match parent with Some p => has_tag t p | None => false end.

(** *** The browser

    What the browser answers where the model does not compute. *)
Record browser := Browser {
  (** [document.createElement] accepts the name *)
  valid_name : string → bool;
  (** the markup of an element, read with [innerHTML] and assigned to the
      [innerHTML] of an element of the given tag: the forest serialized and
      parsed again *)
  reparse : string → markup → markup;
  (** [tagName.toLowerCase()] of an element whose local name is not ASCII *)
  unicode_lower : string → string;
  (** [element.innerText] of the element at a path: its text as rendered *)
  innerText : path → string;
  (** [document.querySelector] for the text of a selector into which a
      string with a quote, a backslash or a line break was pasted *)
  query_raw : string → node → result (option path)
}.

(** *** The store *)

Record cell := Cell {
  c_attrs : list (string * string);
  (** [Some m]: the children were replaced by [m] ([innerHTML] assigned). *)
  c_inner : option markup;
  (** nodes prepended and appended to the children *)
  c_pre : markup;
  c_post : markup;
  (** [Some l]: the element left its parent, [l] standing in its place. *)
  c_out : option markup
}.

Record dom := Dom { skel : node; cells : gmap path cell }.

Definition pristine (doc : node) : dom := Dom doc ∅.

Definition cell_of (cs : gmap path cell) (p : path) (a : list (string * string)) : cell :=
  default (Cell a None [] [] None) (cs !! p).

Fixpoint view (cs : gmap path cell) (here : path) (n : node) : markup :=
  match n with
  | Text s => [Text s]
  | Elem t a ks =>
      let c := cell_of cs here a in
      match c_out c with
      | Some l => l
      | None =>
          [Elem t (c_attrs c)
             match c_inner c with
             | Some m => m
             | None =>
                 c_pre c ++
                 (fix go (i : nat) (l : list node) : markup :=
                    match l with
                    | [] => []
                    | k :: l' => view cs (here ++ [i]) k ++ go (S i) l'
                    end) 0 ks
                 ++ c_post c
             end]
      end
  end.

Fixpoint view_kids (cs : gmap path cell) (here : path) (i : nat) (l : list node) : markup :=
  match l with
  | [] => []
  | k :: l' => view cs (here ++ [i]) k ++ view_kids cs here (S i) l'
  end.

(** The document as it stands. *)
Definition document (σ : dom) : node :=
  match view (cells σ) [] (skel σ) with
  | n :: _ => n
  | [] => Text ""
  end.

Definition node_at (σ : dom) (p : path) : node :=
  default (Text "") (subtree (skel σ) p).

Definition cell_at (σ : dom) (p : path) : cell :=
  cell_of (cells σ) p (attrs_of (node_at σ p)).

Definition put_cell (σ : dom) (p : path) (c : cell) : dom :=
  Dom (skel σ) (<[p := c]> (cells σ)).

(** The local name of the element at [p]. *)
Definition tagName (σ : dom) (p : path) : string := tag_of (node_at σ p).

Definition getAttribute (σ : dom) (p : path) (name : string) : option string :=
  assoc_get name (c_attrs (cell_at σ p)).

Definition setAttribute (σ : dom) (p : path) (name v : string) : dom :=
  let c := cell_at σ p in
  put_cell σ p (Cell (assoc_set name v (c_attrs c)) (c_inner c) (c_pre c) (c_post c) (c_out c)).

(** The children of the element at [p] as they stand. *)
Definition childNodes (σ : dom) (p : path) : markup :=
  let c := cell_at σ p in
  match c_inner c with
  | Some m => m
  | None => c_pre c ++ view_kids (cells σ) p 0 (kids_of (node_at σ p)) ++ c_post c
  end.

Definition get_innerHTML := childNodes.

Definition set_innerHTML (σ : dom) (p : path) (m : markup) : dom :=
  let c := cell_at σ p in
  put_cell σ p (Cell (c_attrs c) (Some m) [] [] (c_out c)).

Definition prepend (σ : dom) (p : path) (n : node) : dom :=
  let c := cell_at σ p in
  match c_inner c with
  | Some m => put_cell σ p (Cell (c_attrs c) (Some (n :: m)) [] [] (c_out c))
  | None => put_cell σ p (Cell (c_attrs c) None (n :: c_pre c) (c_post c) (c_out c))
  end.

Definition append (σ : dom) (p : path) (n : node) : dom :=
  let c := cell_at σ p in
  match c_inner c with
  | Some m => put_cell σ p (Cell (c_attrs c) (Some (m ++ [n])) [] [] (c_out c))
  | None => put_cell σ p (Cell (c_attrs c) None (c_pre c) (c_post c ++ [n]) (c_out c))
  end.

(** The parent of a path; the root has the document for parent. *)
Definition parent_path (p : path) : option path :=
  match p with [] => None | _ => Some (removelast p) end.

(** Whether the element at [p] has a parent node: it has none once it was
    removed or replaced, or once its parent's children were replaced. *)
Definition has_parent (σ : dom) (p : path) : bool :=
  match c_out (cell_at σ p) with
  | Some _ => false
  | None =>
      match parent_path p with
      | None => true
      | Some q => match c_inner (cell_at σ q) with Some _ => false | None => true end
      end
  end.

(** The element at [p] leaves its parent and [l] takes its place. *)
Definition leave (σ : dom) (p : path) (l : markup) : dom :=
  let c := cell_at σ p in
  put_cell σ p (Cell (c_attrs c) (c_inner c) (c_pre c) (c_post c) (Some l)).

(** [e.remove()]: nothing happens to an element without a parent. *)
Definition remove (σ : dom) (p : path) : dom :=
  if has_parent σ p then leave σ p [] else σ.

(** [e.parentNode.replaceChild(n, e)]; a null parent throws. *)
Definition replaceChild (σ : dom) (p : path) (n : node) : result dom :=
  if has_parent σ p then Ok (leave σ p [n]) else Throw TypeError.

(** [querySelectorAll] and [querySelector] on the document, root included,
    and on the descendants of an element.  They are run on a document no
    script has touched since it was taken ([pristine]). *)
Definition querySelectorAll (m : selector) (doc : node) : list path :=
  select m None [] doc.

Definition querySelector (m : selector) (doc : node) : option path :=
  head (querySelectorAll m doc).

Definition querySelectorAll_in (m : selector) (doc : node) (e : path) : list path :=
  match subtree doc e with
  | Some n => select_kids m n e 0 (light_kids n)
  | None => []
  end.

Definition querySelector_in (m : selector) (doc : node) (e : path) : option path :=
  head (querySelectorAll_in m doc e).

(** ** The network and the module loader *)

(** What a request comes to.  A response has its [ok] flag and the markup
    its text parses to where the loader assigns it, [None] when reading the
    text fails.  [BadAddress]: the address is no URL, so that [new URL]
    throws and [fetch] rejects without a request. *)
Inductive fetched : Type :=
| BadAddress
| NetworkError
| Response (ok : bool) (text : option markup).

Inductive imported : Type :=
| ImportFails (error : value)
| Module (exports : list (string * value)).

(** ** [loadBlock] *)

Record block_def := BlockDef { name : string; className : value }.

Definition loadBlock (import : string → imported) (codeBasePath blockName : string)
  : promise block_def * list log_entry :=
  let href := codeBasePath +:+ "/blocks/" +:+ blockName +:+ "/" +:+ blockName +:+ ".js" in
  match import href with
  | Module exports =>
      let mod_default := default VUndefined (assoc_get "default" exports) in
      if truthy mod_default
      then (Fulfilled (BlockDef blockName mod_default), [])
      else (Pending, [])
  | ImportFails error =>
      (Rejected (Because error), [LogWarn ("Failed to load module for " +:+ blockName)])
  end.

(** ** [preloadFragment] *)

(** [div > div] *)
Definition div_in_div : selector := λ parent n, has_tag "div" n && child_of "div" parent.

Record preloaded := Preloaded {
  pl_promise : promise unit;
  pl_dom : dom;
  pl_console : list log_entry
}.

(** The fragment's address is kept as the reference handed to [new URL];
    its resolution against the page origin is the platform's.  The URL is
    made before the [try]: what [new URL] throws rejects the promise. *)
Definition preloadFragment (B : browser) (fetch : string → fetched) (σ : dom)
    (element : path) : preloaded :=
  match querySelector_in div_in_div (skel σ) element with
  | None => Preloaded (Rejected (Thrown TypeError)) σ []
  | Some slot =>
      let path := innerText B slot in
      let url := path +:+ ".plain.html" in
      match fetch url with
      | BadAddress => Preloaded (Rejected (Thrown TypeError)) σ []
      | NetworkError =>
          Preloaded (Fulfilled ()) σ [LogError ("Loading fragment " +:+ path +:+ " failed:")]
      | Response ok text =>
          let warned :=
            if ok then [] else [LogWarn ("failed to preload fragment " +:+ path)] in
          match text with
          | Some m => Preloaded (Fulfilled ()) (set_innerHTML σ slot m) warned
          | None =>
              Preloaded (Fulfilled ()) σ
                (warned ++ [LogError ("Loading fragment " +:+ path +:+ " failed:")])
          end
      end
  end.

(** ** [loadTemplate] *)

Definition has_attr (name v : string) (n : node) : bool :=
  is_element n && bool_decide (assoc_get name (attrs_of n) = Some v).

(** A string that stays what it is between the quotes of a selector: it
    holds no quote, no backslash, no line break and no null character. *)
Fixpoint css_plain (s : string) : bool :=
  match s with
  | EmptyString => true
  | String c s' =>
      match Ascii.nat_of_ascii c with
      | 0 | 10 | 12 | 13 | 34 | 92 => false
      | _ => css_plain s'
      end
  end.

Definition quote : string := String (Ascii.ascii_of_nat 34) EmptyString.

(** [document.querySelector(text)] for a selector [text] made by pasting [s]
    between quotes: the selector [m] when [s] is plain, and what the browser
    makes of the text otherwise (a syntax error, or another selector). *)
Definition query (B : browser) (text s : string) (m : selector) (doc : node)
  : result (option path) :=
  if css_plain s then Ok (querySelector m doc) else query_raw B text doc.

(** [template[id="..."]] *)
Definition template_with_id (id : string) : selector :=
  λ _ n, has_tag "template" n && has_attr "id" id n.

Definition find_template (B : browser) (id : string) (doc : node) : result (option path) :=
  query B ("template[id=" +:+ quote +:+ id +:+ quote +:+ "]") id (template_with_id id) doc.

(** [document.body] and [document.head]: the first such child of the root
    [html] element. *)
Definition child_tagged (ts : list string) (doc : node) : option path :=
  if has_tag "html" doc
  then (λ x, [x.1]) <$> list_find (λ k, tag_of k ∈ ts ∧ is_element k = true) (kids_of doc)
  else None.

Definition document_body : node → option path := child_tagged ["body"; "frameset"].
Definition document_head : node → option path := child_tagged ["head"].

Definition template_href (codeBasePath blockName : string) : string :=
  codeBasePath +:+ "/blocks/" +:+ blockName +:+ "/" +:+ blockName +:+ ".html".

(** [href.split('/').pop().split('.').shift()] *)
Definition template_id (href : string) : string :=
  default "" (head (split "." (default "" (last (split "/" href))))).

(** [html.id = id]: an attribute of an element, nothing the document shows
    on a text node. *)
Definition set_id (id : string) (n : node) : node :=
  match n with
  | Elem t a ks => Elem t (assoc_set "id" id a) ks
  | Text s => Text s
  end.

Record loaded := Loaded {
  ld_promise : promise unit;
  (** the node appended to the body, if any *)
  ld_appended : option node;
  (** the addresses fetched *)
  ld_fetches : list string
}.

(** The markup of a response to [fetch] is here what the text, trimmed,
    parses to as the content of a [div].  What [querySelector] throws inside
    the executor rejects the promise; a rejected [fetch] has no handler and
    leaves the promise pending. *)
Definition loadTemplate (B : browser) (fetch : string → fetched)
    (codeBasePath blockName : string) (doc : node) : loaded :=
  let href := template_href codeBasePath blockName in
  let id := template_id href in
  match find_template B id doc with
  | Throw e => Loaded (Rejected (Thrown e)) None []
  | Ok (Some block) => Loaded (Fulfilled ()) None []
  | Ok None =>
      match fetch href with
      | BadAddress => Loaded Pending None []
      | NetworkError => Loaded Pending None [href]
      | Response true (Some text) =>
          Loaded (Fulfilled ()) (set_id id <$> head text) [href]
      | Response true None => Loaded (Fulfilled ()) None [href]
      | Response false _ => Loaded (Rejected NoReason) None [href]
      end
  end.

(** [document.body.append(html)]; without a body the call throws inside the
    promise chain, which [finally] resolves all the same. *)
Definition body_append (doc : node) (html : option node) : node :=
  match html, document_body doc with
  | Some n, Some body => document (append (pristine doc) body n)
  | _, _ => doc
  end.

(** ** [loadCSS] *)

(** [head > link[href="..."]] *)
Definition link_with_href (href : string) : selector :=
  λ parent n, has_tag "link" n && has_attr "href" href n && child_of "head" parent.

Definition find_link (B : browser) (href : string) (doc : node) : result (option path) :=
  query B ("head > link[href=" +:+ quote +:+ href +:+ quote +:+ "]") href
    (link_with_href href) doc.

(** [loads href] tells whether the style sheet's [load] event fires, or its
    [error] event. *)
Definition loadCSS (B : browser) (loads : string → bool) (href : string) (doc : node)
  : promise unit * node :=
  match find_link B href doc with
  | Throw e => (Rejected (Thrown e), doc)
  | Ok None =>
      let link := Elem "link" [("rel", "stylesheet"); ("href", href)] [] in
      match document_head doc with
      | Some h =>
          (if loads href then Fulfilled () else Rejected (Because (VObj [("type", VStr "error")])),
           document (append (pristine doc) h link))
      | None => (Rejected (Thrown TypeError), doc)
      end
  | Ok (Some _) => (Fulfilled (), doc)
  end.

(** ** [transformToCustomElement] and [getBlockResources] *)

(** [document.createElement(name)]: [valid_name] is the browser's test of an
    element name; the name is lower-cased, its ASCII letters that is, in an
    HTML document. *)
Definition createElement (B : browser) (name : string) : result node :=
  if valid_name B name then Ok (Elem (ascii_lowercase name) [] [])
  else Throw InvalidCharacterError.

Definition with_kids (n : node) (m : markup) : node :=
  match n with Elem t a _ => Elem t a m | Text s => Text s end.

Definition set_slot (v : string) (n : node) : node :=
  match n with
  | Elem t a ks => Elem t (assoc_set "slot" v a) ks
  | Text s => Text s
  end.

(** [a || b] on an attribute value: null and the empty string are falsy. *)
Definition or_else (a : option string) (b : string) : string :=
  match a with
  | Some s => if String.eqb s "" then b else s
  | None => b
  end.

Definition transformToCustomElement (B : browser) (σ : dom) (block : path)
  : result (node * dom) :=
  let tagName :=
    "aem-" +:+ or_else (getAttribute σ block "class")
                 (toLowerCase (unicode_lower B) (tagName σ block)) in
  customElement ← createElement B tagName;
  let customElement :=
    with_kids customElement (reparse B (tag_of customElement) (get_innerHTML σ block)) in
  σ ← replaceChild σ block customElement;
  (* Slots: set on the element that now stands in the block's place *)
  let customElement := with_kids customElement (set_slot "item" <$> kids_of customElement) in
  Ok (customElement, leave σ block [customElement]).

(** [header, footer, div[class]:not(.fragment)] *)
Definition block_selector : selector := λ _ n,
  has_tag "header" n || has_tag "footer" n ||
  (has_tag "div" n && bool_decide (is_Some (assoc_get "class" (attrs_of n)))
     && negb (has_class "fragment" n)).

Record resources := Resources { components : list string; templates : list string }.

Definition in_flight (status : option string) : bool :=
  bool_decide (status = Some "loading") || bool_decide (status = Some "loaded").

(** The body of the [forEach] of [getBlockResources]. *)
Definition discover (B : browser) (st : dom * resources) (block : path)
  : result (dom * resources) :=
  let '(σ, r) := st in
  let status := getAttribute σ block "data-status" in
  if in_flight status then Ok (σ, r) else
  let σ := setAttribute σ block "data-status" "loading" in
  '(customElement, σ) ← transformToCustomElement B σ block;
  let tagName := toLowerCase (unicode_lower B) (tag_of customElement) in
  let components := set_add tagName (components r) in
  let templates :=
    if negb (endsWith tagName "-metadata") then set_add tagName (templates r)
    else templates r in
  let σ := setAttribute σ block "data-status" "loaded" in
  Ok (σ, Resources components templates).

Definition getBlockResources (B : browser) (doc : node)
  : result (node * resources) :=
  '(σ, r) ← forEach (discover B) (querySelectorAll block_selector doc)
              (pristine doc, Resources [] []);
  Ok (document σ, r).

(** ** The [Block] base class *)

Inductive values : Type :=
| ListValues (items : list path)
| MapValues (entries : list (string * markup)).

Record block := Block {
  b_values : values;
  b_shadowRoot : markup;
  (** the element and what became of its items *)
  b_self : dom;
  b_observing : bool
}.

(** [[slot="item"]] *)
Definition item_selector : selector := λ _ n, has_attr "slot" "item" n.

Definition with_id (id : string) : selector := λ _ n, has_attr "id" id n.

(** [template.content.cloneNode(true)] for the element [getElementById]
    found; on an element that is no template, [content] is undefined. *)
Definition template_content (doc : node) (template : path) : result markup :=
  match subtree doc template with
  | Some n => if has_tag "template" n then Ok (kids_of n) else Throw TypeError
  | None => Throw TypeError
  end.

(** The place of the first element among the nodes [m]. *)
Fixpoint key_index (m : markup) : nat :=
  match m with
  | [] => 0
  | n :: m' => if is_element n then 0 else S (key_index m')
  end.

(** The body of the [forEach] over the items.  The markup of the value, a
    text, is held as what it parses to in the item. *)
Definition collect (B : browser) (mapValues : bool) (st : dom * values) (element : path)
  : result (dom * values) :=
  let '(σ, vs) := st in
  if mapValues then
    match children (childNodes σ element), vs with
    | key :: value :: _, MapValues entries =>
        let key_innerText := innerText B (element ++ [key_index (childNodes σ element)]) in
        let value_innerHTML := reparse B (tagName σ element) (kids_of value) in
        let vs := MapValues (assoc_set key_innerText value_innerHTML entries) in
        let σ := setAttribute σ element "slot" key_innerText in
        let σ := set_innerHTML σ element value_innerHTML in
        Ok (σ, vs)
    | _, _ => Throw TypeError
    end
  else
    match vs with
    | ListValues items => Ok (σ, ListValues (items ++ [element]))
    | MapValues _ => Throw TypeError
    end.

(** What the shadow root receives: the content of the template found under
    the identifier, nothing when there is none. *)
Definition clone_template (doc : node) (id : string) : result markup :=
  match querySelector (with_id id) doc with
  | Some template => template_content doc template
  | None => Ok []
  end.

(** [new Block(options)] on the element [this] of the document [doc]. *)
Definition Block_constructor (B : browser) (doc : node) (mapValues : bool) (this : node)
  : result block :=
  let vs := if mapValues then MapValues [] else ListValues [] in
  let id := toLowerCase (unicode_lower B) (tag_of this) in
  shadowRoot ← clone_template doc id;
  let slots := querySelectorAll_in item_selector this [] in
  '(σ, vs) ← forEach (collect B mapValues) slots (pristine this, vs);
  Ok (Block vs shadowRoot σ false).

Definition connectedCallback (b : block) : block :=
  Block (b_values b) (b_shadowRoot b) (b_self b) true.

(** The map of a mapped-mode component, read by key. *)
Definition values_get (k : string) (vs : values) : option markup :=
  match vs with
  | MapValues entries => assoc_get k entries
  | ListValues _ => None
  end.

(** ** [decorateIcon] and the observer of a component *)

(** [s.substring(n)] *)
Fixpoint substring_from (n : nat) (s : string) : string :=
  match n, s with
  | 0, _ => s
  | S n', String _ s' => substring_from n' s'
  | S _, EmptyString => EmptyString
  end.

(** [Array.from(elem.classList)]: the class names in the order of the
    attribute (a repeated name, which the list holds once, makes no
    difference to the first name [find] accepts). *)
Definition classList_at (σ : dom) (p : path) : list string :=
  match getAttribute σ p "class" with Some c => tokens c | None => [] end.

(** The image [decorateIcon] makes: the three properties it assigns, as the
    attributes they reflect. *)
Definition icon_img (codeBasePath iconName : string) : node :=
  Elem "img"
    [("data-icon-name", iconName);
     ("src", codeBasePath +:+ "/icons/" +:+ iconName +:+ ".svg");
     ("loading", "lazy")] [].

(** [find] answers undefined when no class name starts with [icon-], and
    [substring] of undefined throws. *)
Definition decorateIcon (codeBasePath : string) (σ : dom) (elem : path) : result dom :=
  match List.find (λ c, startsWith c "icon-") (classList_at σ elem) with
  | Some c => Ok (append σ elem (icon_img codeBasePath (substring_from 5 c)))
  | None => Throw TypeError
  end.

(** [.icon] *)
Definition icon_selector : selector := λ _ n, has_class "icon" n.

(** The body of the inner [forEach] of the observer: the icons below an
    added node are decorated; a text node has no [querySelectorAll]. *)
Definition decorate_added (codeBasePath : string) (doc : node) (σ : dom) (added : path)
  : result dom :=
  match subtree doc added with
  | Some (Elem _ _ _) =>
      forEach (decorateIcon codeBasePath) (querySelectorAll_in icon_selector doc added) σ
  | _ => Throw TypeError
  end.

(** The callback of the [MutationObserver], on the document as the mutations
    left it: [event] lists the added nodes of each mutation record. *)
Definition observer_callback (codeBasePath : string) (doc : node) (event : list (list path))
  : result node :=
  σ ← forEach (λ σ addedNodes, forEach (decorate_added codeBasePath doc) addedNodes σ)
        event (pristine doc);
  Ok (document σ).

(** ** [buildHeroBlock] *)

Definition main_selector : selector := λ _ n, has_tag "main" n.
(** [main h1] and [main p > picture], asked of the descendants of [main] *)
Definition h1_selector : selector := λ _ n, has_tag "h1" n.
Definition p_picture : selector := λ parent n, has_tag "picture" n && child_of "p" parent.

(** [b.compareDocumentPosition(a) & Node.DOCUMENT_POSITION_PRECEDING] for two
    elements of one tree: [a] comes before [b] in document order, an
    ancestor coming before its descendants. *)
Fixpoint precedes (a b : path) : bool :=
  match a, b with
  | [], [] => false
  | [], _ :: _ => true
  | _ :: _, [] => false
  | i :: a', j :: b' =>
      if decide (i < j) then true
      else if decide (j < i) then false
      else precedes a' b'
  end.

Definition cloneNode (doc : node) (p : path) : node := default (Text "") (subtree doc p).

Definition buildHeroBlock (doc : node) : result node :=
  match querySelector main_selector doc with
  | None => Throw TypeError
  | Some main =>
      match querySelector_in h1_selector doc main, querySelector_in p_picture doc main with
      | Some h1, Some picture =>
          if precedes picture h1 then
            let section :=
              Elem "div" [("class", "hero")] [cloneNode doc picture; cloneNode doc h1] in
            let σ := pristine doc in
            let σ := remove σ (removelast picture) in
            let σ := remove σ h1 in
            let σ := prepend σ main section in
            Ok (document σ)
          else Ok doc
      | _, _ => Ok doc
      end
  end.

(** ** [sampleRUM] *)

Inductive json : Type :=
| JNull
| JBool (b : bool)
| JNum (n : Z)
| JStr (s : string)
| JObj (fields : list (string * json)).

(** The first field of a name among the fields of an object. *)
Section First.
Context {A : Type} (k : string) (found : value → A) (absent : A).

Fixpoint first_field (fs : list (string * value)) : A :=
  match fs with
  | [] => absent
  | (k', v') :: fs' => if decide (k' = k) then found v' else first_field fs'
  end.

End First.

(** The listed properties [ks] of an object with the fields [fs], each
    written by [property], in the order of the list; a property that is not
    there or that JSON leaves out is skipped. *)
Section Props.
Context (property : string → value → result (option json)).

Fixpoint stringify_props (fs : list (string * value)) (ks : list string)
  : result (list (string * json)) :=
  match ks with
  | [] => Ok []
  | k :: ks' =>
      match first_field k (property k) (Ok None) fs with
      | Throw e => Throw e
      | Ok o =>
          match stringify_props fs ks' with
          | Throw e => Throw e
          | Ok js => Ok (match o with Some j => (k, j) :: js | None => js end)
          end
      end
  end.

Definition stringify_object (fs : list (string * value)) (ks : list string)
  : result (option json) :=
  match stringify_props fs ks with
  | Throw e => Throw e
  | Ok js => Ok (Some (JObj js))
  end.

End Props.

(** [JSON.stringify(v, names)] with an array of names for replacer, read as
    the JSON value written.  [stringify names key v] serializes the property
    [key] whose value is [v]: an object with a callable [toJSON] of its own
    is replaced by what the call returns; of an object, at any depth, the
    listed properties are written in the order of the list; [None] stands
    for what JSON leaves out (undefined, functions); a BigInt throws, and so
    do a cycle and the call of a class. *)
Fixpoint stringify (names : list string) (key : string) (v : value) {struct v}
  : result (option json) :=
  match v with
  | VUndefined | VClass _ | VFun _ => Ok None
  | VNull => Ok (Some JNull)
  | VBool b => Ok (Some (JBool b))
  | VNum n => Ok (Some (JNum n))
  | VStr s => Ok (Some (JStr s))
  | VBigInt _ | VCycle => Throw TypeError
  | VObj fields =>
      first_field "toJSON"
        (λ toJSON,
           match toJSON with
           | VFun call =>
               match call key with
               | Throw e => Throw e
               | Ok (VObj fields') => stringify_object (stringify names) fields' names
               | Ok VNull => Ok (Some JNull)
               | Ok (VBool b) => Ok (Some (JBool b))
               | Ok (VNum n) => Ok (Some (JNum n))
               | Ok (VStr s) => Ok (Some (JStr s))
               | Ok (VBigInt _ | VCycle) => Throw TypeError
               | Ok (VUndefined | VClass _ | VFun _) => Ok None
               end
           | VClass _ => Throw TypeError
           | _ => stringify_object (stringify names) fields names
           end)
        (stringify_object (stringify names) fields names)
        fields
  end.

Definition knownProperties : list string :=
  ["weight"; "id"; "referer"; "checkpoint"; "t"; "source"; "target";
   "cwv"; "CLS"; "FID"; "LCP"; "INP"].

(** [{...o, ...data}] *)
Definition spread (o data : list (string * value)) : list (string * value) :=
  foldl (λ acc kv, assoc_set kv.1 kv.2 acc) o data.

Record location := Location {
  href : string;
  origin : string;
  hostname : string;
  (** the query, by parameter name *)
  search : list (string * string)
}.

(** What [urlSanitizers[name]] can be: one of the three functions of the
    object, or what the object inherits under the name. *)
Inductive sanitizer : Type :=
| mask_full
| mask_origin
| mask_path
| inherited (name : string).

Fixpoint before_char (c : ascii) (s : string) : string :=
  match s with
  | EmptyString => EmptyString
  | String c' s' => if decide (c' = c) then EmptyString else String c' (before_char c s')
  end.

(** The properties every object inherits. *)
Definition object_prototype : list string :=
  ["constructor"; "hasOwnProperty"; "isPrototypeOf"; "propertyIsEnumerable";
   "toLocaleString"; "toString"; "valueOf"; "__proto__";
   "__defineGetter__"; "__defineSetter__"; "__lookupGetter__"; "__lookupSetter__"].

(** [urlSanitizers[name]] *)
Definition urlSanitizers (name : string) : option sanitizer :=
  if String.eqb name "full" then Some mask_full
  else if String.eqb name "origin" then Some mask_origin
  else if String.eqb name "path" then Some mask_path
  else if bool_decide (name ∈ object_prototype) then Some (inherited name)
  else None.

Record rum := Rum {
  weight : Z;
  id : string;
  random : Q;
  isSelected : bool;
  firstReadTime : Z;
  sanitizeURL : option sanitizer
}.

(** The session object as a value, with the fields JSON can write (its
    [random], a fraction, and its two functions are left out). *)
Definition rum_value (r : rum) : value :=
  VObj [("weight", VNum (weight r)); ("id", VStr (id r));
        ("isSelected", VBool (isSelected r)); ("firstReadTime", VNum (firstReadTime r))].

(** [window.hlx.rum.sanitizeURL()]: one of the three masks of the address,
    or the inherited property called on the session object without
    arguments; what is no function throws when it is called. *)
Definition sanitize (loc : location) (r : rum) (f : sanitizer) : result value :=
  match f with
  | mask_full => Ok (VStr (href loc))
  | mask_origin => Ok (VStr (origin loc))
  | mask_path => Ok (VStr (before_char "?" (href loc)))
  | inherited name =>
      if bool_decide (name ∈ ["toString"; "toLocaleString"]) then Ok (VStr "[object Object]")
      else if bool_decide (name = "valueOf") then Ok (rum_value r)
      else if bool_decide (name ∈ ["hasOwnProperty"; "isPrototypeOf"; "propertyIsEnumerable"])
      then Ok (VBool false)
      else if bool_decide (name = "constructor") then Ok (VObj [])
      else if bool_decide (name ∈ ["__lookupGetter__"; "__lookupSetter__"]) then Ok VUndefined
      else Throw TypeError
  end.

Record hlx := Hlx {
  hlx_rum : option rum;
  RUM_MASK_URL : option string;
  codeBasePath : string;
  lighthouse : bool
}.

Definition empty_hlx : hlx := Hlx None None "" false.

(** Milestones of the initialization, in the order they are passed. *)
Inductive milestone : Type :=
| BatchesSettled
| Registered (name : string)
| PageLoaded.

(** What the page has become: the document, the globals the loader keeps,
    and what left the page. *)
Record world := World {
  w_document : node;
  w_hlx : option hlx;
  w_registry : list (string * value);
  w_console : list log_entry;
  (** the beacons sent: the address and the body, [None] for no body *)
  w_beacons : list (string * option json);
  w_fetches : list string;
  (** [sampleRUM.defer] *)
  w_defer : list (string * list (string * value));
  w_listeners : list string;
  w_session : list (string * string);
  (** how many random numbers were drawn and how often the clock was read *)
  w_draws : nat;
  w_ticks : nat;
  w_trace : list milestone;
  (** [sampleRUM.cases], once made: the data of the call that made it *)
  w_cases : option (list (string * value))
}.

Definition set_document (d : node) (w : world) : world :=
  World d (w_hlx w) (w_registry w) (w_console w) (w_beacons w) (w_fetches w) (w_defer w)
    (w_listeners w) (w_session w) (w_draws w) (w_ticks w) (w_trace w) (w_cases w).
Definition set_hlx (h : hlx) (w : world) : world :=
  World (w_document w) (Some h) (w_registry w) (w_console w) (w_beacons w) (w_fetches w)
    (w_defer w) (w_listeners w) (w_session w) (w_draws w) (w_ticks w) (w_trace w) (w_cases w).
Definition set_registry (r : list (string * value)) (w : world) : world :=
  World (w_document w) (w_hlx w) r (w_console w) (w_beacons w) (w_fetches w) (w_defer w)
    (w_listeners w) (w_session w) (w_draws w) (w_ticks w) (w_trace w) (w_cases w).
Definition log (l : list log_entry) (w : world) : world :=
  World (w_document w) (w_hlx w) (w_registry w) (w_console w ++ l) (w_beacons w)
    (w_fetches w) (w_defer w) (w_listeners w) (w_session w) (w_draws w) (w_ticks w)
    (w_trace w) (w_cases w).
Definition sendBeacon (url : string) (body : option json) (w : world) : world :=
  World (w_document w) (w_hlx w) (w_registry w) (w_console w) (w_beacons w ++ [(url, body)])
    (w_fetches w) (w_defer w) (w_listeners w) (w_session w) (w_draws w) (w_ticks w)
    (w_trace w) (w_cases w).
Definition fetching (urls : list string) (w : world) : world :=
  World (w_document w) (w_hlx w) (w_registry w) (w_console w) (w_beacons w)
    (w_fetches w ++ urls) (w_defer w) (w_listeners w) (w_session w) (w_draws w) (w_ticks w)
    (w_trace w) (w_cases w).
Definition deferring (fnname : string) (args : list (string * value)) (w : world) : world :=
  World (w_document w) (w_hlx w) (w_registry w) (w_console w) (w_beacons w) (w_fetches w)
    (w_defer w ++ [(fnname, args)]) (w_listeners w) (w_session w) (w_draws w) (w_ticks w)
    (w_trace w) (w_cases w).
Definition addEventListener (type : string) (w : world) : world :=
  World (w_document w) (w_hlx w) (w_registry w) (w_console w) (w_beacons w) (w_fetches w)
    (w_defer w) (w_listeners w ++ [type]) (w_session w) (w_draws w) (w_ticks w) (w_trace w) (w_cases w).
Definition setItem (k v : string) (w : world) : world :=
  World (w_document w) (w_hlx w) (w_registry w) (w_console w) (w_beacons w) (w_fetches w)
    (w_defer w) (w_listeners w) (assoc_set k v (w_session w)) (w_draws w) (w_ticks w)
    (w_trace w) (w_cases w).
Definition drawn (n : nat) (w : world) : world :=
  World (w_document w) (w_hlx w) (w_registry w) (w_console w) (w_beacons w) (w_fetches w)
    (w_defer w) (w_listeners w) (w_session w) (w_draws w + n) (w_ticks w) (w_trace w) (w_cases w).
Definition ticked (w : world) : world :=
  World (w_document w) (w_hlx w) (w_registry w) (w_console w) (w_beacons w) (w_fetches w)
    (w_defer w) (w_listeners w) (w_session w) (w_draws w) (S (w_ticks w)) (w_trace w) (w_cases w).
Definition passed (m : milestone) (w : world) : world :=
  World (w_document w) (w_hlx w) (w_registry w) (w_console w) (w_beacons w) (w_fetches w)
    (w_defer w) (w_listeners w) (w_session w) (w_draws w) (w_ticks w) (w_trace w ++ [m]) (w_cases w).
Definition set_cases (d : list (string * value)) (w : world) : world :=
  World (w_document w) (w_hlx w) (w_registry w) (w_console w) (w_beacons w) (w_fetches w)
    (w_defer w) (w_listeners w) (w_session w) (w_draws w) (w_ticks w) (w_trace w) (Some d).

(** What the platform answers. *)
Record platform := Platform {
  engine : browser;
  (** the answers to the requests for fragments and for templates *)
  fetch : string → fetched;
  fetch_template : string → fetched;
  import : string → imported;
  css_loads : string → bool;
  (** whether an image sits in the upper part of the viewport *)
  visible : path → bool;
  (** [new URL(src).pathname], [None] where the constructor throws *)
  url_pathname : string → option string;
  (** [customElements.define] accepts the name and the constructor *)
  definable : string → value → bool;
  (** [Math.random()], a double from 0 up to 1 not included, and
      [Date.now()], by the number of calls before *)
  rand : nat → Q;
  clock : nat → Z;
  loc : location
}.

Coercion engine : platform >-> browser.

Definition is_alnum (c : ascii) : bool :=
  let n := Ascii.nat_of_ascii c in
  ((48 <=? n) && (n <=? 57)) || ((65 <=? n) && (n <=? 90)) || ((97 <=? n) && (n <=? 122)).

(** The 75 characters from code 48 on, digits and letters kept. *)
Definition id_alphabet : list ascii :=
  filter (λ c, is_alnum c = true) ((λ i, Ascii.ascii_of_nat (48 + i)) <$> seq 0 75).

Definition Qlt_bool (a b : Q) : bool := negb (Qle_bool b a).

(** *** Doubles

    [Math.random()] answers a double, and the product of two doubles is the
    exact product rounded to the nearest double, a tie going to the even
    significand.  Nothing here comes near the overflow threshold. *)

(** The integer nearest to a fraction, a tie going to the even one. *)
Definition round_half_even (q : Q) : Z :=
  let n := Qnum q in
  let d := Zpos (Qden q) in
  let f := (n / d)%Z in
  let r := (n mod d)%Z in
  if (2 * r <? d)%Z then f
  else if (d <? 2 * r)%Z then (f + 1)%Z
  else if Z.even f then f else (f + 1)%Z.

(** The double nearest to a positive fraction: 53 bits from the leading one,
    and no bit below 2^-1074. *)
Definition fl_pos (q : Q) : Q :=
  let e0 := (Z.log2 (Qnum q) - Z.log2 (Zpos (Qden q)))%Z in
  let e := if Qle_bool (2 ^ e0) q then e0 else (e0 - 1)%Z in
  let e := Z.max e (-1022) in
  (inject_Z (round_half_even (q * 2 ^ (52 - e))) * 2 ^ (e - 52))%Q.

Definition fl (q : Q) : Q :=
  let q := Qred q in
  match Qnum q with
  | Z0 => 0%Q
  | Zpos _ => Qred (fl_pos q)
  | Zneg _ => Qred (- fl_pos (- q))
  end.

(** [q] is a double. *)
Definition double (q : Q) : Prop := (fl q == q)%Q.

(** [a * b] on doubles. *)
Definition times (a b : Q) : Q := fl (a * b).

(** The session identifier: a character is kept when its draw times 75
    exceeds 70. *)
Fixpoint draw_id (rand : nat → Q) (n : nat) (cs : list ascii) : string :=
  match cs with
  | [] => EmptyString
  | c :: cs' =>
      if Qlt_bool 70 (times (rand n) 75) then String c (draw_id rand (S n) cs')
      else draw_id rand (S n) cs'
  end.

(** The session state, made on the first call. *)
Definition new_rum (P : platform) (h : hlx) (w : world) : rum * world :=
  let weight :=
    if bool_decide (assoc_get "rum" (search (loc P)) = Some "on") then 1%Z else 100%Z in
  let id := draw_id (rand P) (w_draws w) id_alphabet in
  let random := rand P (w_draws w + length id_alphabet) in
  let isSelected := Qlt_bool (times random (inject_Z weight)) 1 in
  let firstReadTime := clock P (w_ticks w) in
  let r := Rum weight id random isSelected firstReadTime
             (urlSanitizers (or_else (RUM_MASK_URL h) "path")) in
  (r, ticked (drawn (length id_alphabet + 1)
        (set_hlx (Hlx (Some r) (RUM_MASK_URL h) (codeBasePath h) (lighthouse h)) w))).

Definition rum_script : string :=
  "https://rum.hlx.page/.rum/@adobe/helix-rum-enhancer@^1/src/index.js".

(** [sampleRUM.cases[checkpoint]()], for the two cases the loader installs:
    [cwv] queues a call of the deferred [sampleRUM.cwv] with the data of the
    call that made the cases, [lazy] adds the enhancer script to the head.
    What the object inherits under other names has no effect on the page. *)
Definition run_case (checkpoint : string) (w : world) : result world :=
  if String.eqb checkpoint "cwv" then Ok (deferring "cwv" (default [] (w_cases w)) w)
  else if String.eqb checkpoint "lazy" then
    match document_head (w_document w) with
    | Some h =>
        Ok (set_document
              (document (append (pristine (w_document w)) h
                           (Elem "script" [("src", rum_script)] []))) w)
    | None => Throw TypeError
    end
  else Ok w.

(** The object [sendPing] writes: field by field, the caller's data spread
    last. *)
Definition ping_base (P : platform) (r : rum) (referer : value) (checkpoint : string)
    (w : world) : list (string * value) :=
  [("weight", VNum (weight r)); ("id", VStr (id r));
   ("referer", referer); ("checkpoint", VStr checkpoint);
   ("t", VNum (clock P (w_ticks w) - firstReadTime r))].

Definition ping (P : platform) (r : rum) (referer : value) (checkpoint : string)
    (data : list (string * value)) (w : world) : list (string * value) :=
  spread (ping_base P r referer checkpoint w) data.

(** A call that returns, or throws leaving the page as given. *)
Inductive attempt : Type :=
| Done (w : world)
| Gave_up (w : world).

Definition left_by (a : attempt) : world :=
  match a with Done w | Gave_up w => w end.

(** [sendPing(data)]: the referrer is asked for before the clock is read,
    and the body is written after. *)
Definition sendPing (P : platform) (r : rum) (checkpoint : string)
    (data : list (string * value)) (w : world) : attempt :=
  match sanitizeURL r with
  | None => Gave_up w
  | Some f =>
      match sanitize (loc P) r f with
      | Throw _ => Gave_up w
      | Ok referer =>
          match stringify knownProperties "" (VObj (ping P r referer checkpoint data w)) with
          | Throw _ => Gave_up (ticked w)
          | Ok body =>
              let url := "https://rum.hlx.page/.rum/" +:+ pretty (weight r) in
              Done (log [LogDebug ("ping:" +:+ checkpoint)] (sendBeacon url body (ticked w)))
          end
      end
  end.

(** [sampleRUM(checkpoint, data)].  What the body of the [try] throws is
    caught and dropped, the effects before the throw staying.  No handler is
    registered with [sampleRUM.on] or [sampleRUM.always.on] by the loader. *)
Definition sampleRUM (P : platform) (checkpoint : string) (data : list (string * value))
    (w : world) : world :=
  let h := default empty_hlx (w_hlx w) in
  let '(r, w) :=
    match hlx_rum h with
    | Some r => (r, set_hlx h w)
    | None => new_rum P h w
    end in
  if isSelected r then
    let w := set_cases (default data (w_cases w)) w in
    match sendPing P r checkpoint data w with
    | Done w' => match run_case checkpoint w' with Ok w'' => w'' | Throw _ => w' end
    | Gave_up w' => w'
    end
  else w.

(** ** [setup], [loadEagerImages], [loadFonts] *)

Fixpoint before_first (sep s : string) : string :=
  if startsWith s sep then EmptyString
  else match s with
       | EmptyString => EmptyString
       | String c s' => String c (before_first sep s')
       end.

Fixpoint includes (s sub : string) : bool :=
  startsWith s sub ||
  match s with
  | EmptyString => false
  | String _ s' => includes s' sub
  end.

(** [script[src$="/scripts/scripts.js"]] *)
Definition scripts_js : selector := λ _ n,
  has_tag "script" n &&
  match assoc_get "src" (attrs_of n) with
  | Some src => endsWith src "/scripts/scripts.js"
  | None => false
  end.

Definition setup (P : platform) (w : world) : world :=
  let h := default empty_hlx (w_hlx w) in
  let lighthouse := bool_decide (assoc_get "lighthouse" (search (loc P)) = Some "on") in
  let h := Hlx (hlx_rum h) (Some "full") "" lighthouse in
  match querySelector scripts_js (w_document w) with
  | Some scriptEl =>
      let src := default "" (assoc_get "src" (attrs_of (cloneNode (w_document w) scriptEl))) in
      match url_pathname P src with
      | Some pathname =>
          set_hlx (Hlx (hlx_rum h) (Some "full")
                     (before_first "/scripts/scripts.js" pathname) lighthouse) w
      | None => log [LogInfo "TypeError"] (set_hlx h w)
      end
  | None => set_hlx h w
  end.

Definition img_selector : selector := λ _ n, has_tag "img" n.

Definition loadEagerImages (P : platform) (doc : node) : node :=
  document
    (foldl (λ σ img, if visible P img then setAttribute σ img "loading" "eager" else σ)
       (pristine doc) (querySelectorAll img_selector doc)).

(** [loadFonts]: the style sheet, then the session flag unless the host is
    a local one. *)
Definition loadFonts (P : platform) (w : world) : world :=
  let base := codeBasePath (default empty_hlx (w_hlx w)) in
  let '(p, doc) := loadCSS P (css_loads P) (base +:+ "/styles/fonts.css") (w_document w) in
  let w := set_document doc w in
  match p with
  | Fulfilled _ =>
      if negb (includes (hostname (loc P)) "localhost")
      then setItem "fonts-loaded" "true" w else w
  | _ => w
  end.

(** ** [initialize] *)

Inductive run : Type :=
| Completed (w : world)
(** suspended on a promise that never settles *)
| Stalled (w : world)
(** the promise of [initialize] rejects *)
| Failed (e : exn) (w : world).

(** [.fragment] *)
Definition fragment_selector : selector := λ _ n, has_class "fragment" n.

(** The fragments are preloaded side by side; each call answers for its own
    placeholder. *)
Definition preloadFragments (P : platform) (w : world) : list (promise unit) * world :=
  let doc := w_document w in
  let '(ps, σ, l) :=
    foldl (λ '(ps, σ, l) element,
             let r := preloadFragment P (fetch P) σ element in
             (ps ++ [pl_promise r], pl_dom r, l ++ pl_console r))
      ([], pristine doc, []) (querySelectorAll fragment_selector doc) in
  (ps, log l (set_document (document σ) w)).

(** The template loads of a batch all look the document up before any of
    them appends to it. *)
Definition loadTemplates (P : platform) (names : list string) (w : world)
  : list (promise unit) * world :=
  let base := codeBasePath (default empty_hlx (w_hlx w)) in
  let doc := w_document w in
  foldl (λ '(ps, w) blockName,
           let r := loadTemplate P (fetch_template P) base blockName doc in
           (ps ++ [ld_promise r],
            fetching (ld_fetches r)
              (set_document (body_append (w_document w) (ld_appended r)) w)))
    ([], w) names.

Definition loadBlocks (P : platform) (names : list string) (w : world)
  : list (promise block_def) * world :=
  let base := codeBasePath (default empty_hlx (w_hlx w)) in
  foldl (λ '(ps, w) blockName,
           let '(p, l) := loadBlock (import P) base blockName in
           (ps ++ [p], log l w))
    ([], w) names.

Definition same_class (a b : value) : bool :=
  match a, b with
  | VClass x, VClass y => String.eqb x y
  | _, _ => false
  end.

(** [customElements.define]: it throws on a name or constructor the platform
    refuses and on a constructor already registered. *)
Definition define (P : platform) (name : string) (c : value) (w : world) : result world :=
  if definable P name c && negb (existsb (λ kv, same_class kv.2 c) (w_registry w))
  then Ok (passed (Registered name) (set_registry (w_registry w ++ [(name, c)]) w))
  else Throw NotSupportedError.

(** The body of the [forEach] over the outcomes of the code loads; it is an
    async function, so what it throws goes nowhere. *)
Definition register (P : platform) (w : world) (o : settled block_def) : world :=
  match o with
  | IsFulfilled v =>
      match assoc_get (name v) (w_registry w) with
      | Some _ => w
      | None => match define P (name v) (className v) w with Ok w' => w' | Throw _ => w end
      end
  | IsRejected _ => w
  end.

Definition mark_loaded (w : world) : result world :=
  match document_body (w_document w) with
  | Some body =>
      Ok (passed PageLoaded
            (set_document
               (document (setAttribute (pristine (w_document w)) body "data-status" "loaded"))
               w))
  | None => Throw TypeError
  end.

(** From the two fetch batches on: the second half of [initialize]. *)
Definition load_and_register (P : platform) (r : resources) (w : world) : run :=
  let '(ts, w) := loadTemplates P (templates r) w in
  let '(cs, w) := loadBlocks P (components r) w in
  match allSettled2 (allSettled ts) (allSettled cs) with
  | Fulfilled (_, IsFulfilled loadedComponents) =>
      let w := passed BatchesSettled w in
      let w := foldl (register P) w loadedComponents in
      match mark_loaded w with
      | Ok w =>
          let w := loadFonts P w in
          let w := sampleRUM P "top" [] w in
          Completed
            (addEventListener "error"
               (addEventListener "unhandledrejection" (addEventListener "load" w)))
      | Throw e => Failed e w
      end
  | Fulfilled (_, IsRejected _) => Failed TypeError w
  | Pending | Rejected _ => Stalled w
  end.

Definition initialize (P : platform) (w : world) : run :=
  let w := setup P w in
  let w := set_document (loadEagerImages P (w_document w)) w in
  match buildHeroBlock (w_document w) with
  | Throw e => Failed e w
  | Ok doc =>
      let w := set_document doc w in
      let '(fs, w) := preloadFragments P w in
      match allSettled fs with
      | Pending | Rejected _ => Stalled w
      | Fulfilled _ =>
          match getBlockResources P (w_document w) with
          | Throw e => Failed e w
          | Ok (doc, r) => load_and_register P r (set_document doc w)
          end
      end
  end.

(** The page as a run leaves it. *)
Definition world_of (r : run) : world :=
  match r with Completed w | Stalled w | Failed _ w => w end.

(** ** Discovery, read off the tree

    What [getBlockResources] comes to, by recursion on the document: used to
    state and prove its properties. *)

Definition marked (n : node) : bool := in_flight (assoc_get "data-status" (attrs_of n)).

(** A container the scan transforms: selected and not yet marked. *)
Definition eligible (n : node) : bool := block_selector None n && negb (marked n).

Section Discovery.
Context (B : browser).

(** The tag name asked of [createElement] for a container. *)
Definition kind (n : node) : string :=
  "aem-" +:+ or_else (assoc_get "class" (attrs_of n))
               (toLowerCase (unicode_lower B) (tag_of n)).

(** The element that takes the place of a container: its children are what
    the markup of the container parses to. *)
Definition custom (n : node) : node :=
  Elem (ascii_lowercase (kind n)) []
    (set_slot "item" <$> reparse B (ascii_lowercase (kind n)) (kids_of n)).

(** The document after a scan: the outermost eligible containers upgraded. *)
Fixpoint upgrade (n : node) : node :=
  match n with
  | Text s => Text s
  | Elem t a ks =>
      if eligible n then custom n
      else if bool_decide (t = "template") then n
      else Elem t a (upgrade <$> ks)
  end.

(** The kinds of all eligible containers in document order, those inside
    another eligible container included. *)
Fixpoint kinds (n : node) : list string :=
  (if eligible n then [kind n] else []) ++
  match n with
  | Text _ => []
  | Elem t _ ks => if bool_decide (t = "template") then [] else ks ≫= kinds
  end.

Definition add_kind (r : resources) (k : string) : resources :=
  let tagName := toLowerCase (unicode_lower B) (ascii_lowercase k) in
  Resources (set_add tagName (components r))
    (if negb (endsWith tagName "-metadata") then set_add tagName (templates r)
     else templates r).

Definition discovered (doc : node) : result (node * resources) :=
  if forallb (valid_name B) (kinds doc)
  then Ok (upgrade doc, foldl add_kind (Resources [] []) (kinds doc))
  else Throw InvalidCharacterError.

(** The markup copied into an upgraded element holds no eligible container:
    in a tree that parses back to itself, no eligible container lies inside
    another one. *)
Fixpoint flat (n : node) : bool :=
  match n with
  | Text _ => true
  | Elem t _ ks =>
      if eligible n
      then forallb (λ k, bool_decide (kinds k = []))
             (reparse B (ascii_lowercase (kind n)) ks)
      else if bool_decide (t = "template") then true
      else forallb flat ks
  end.

(** The store holds no element whose children were replaced. *)
Definition no_inner (σ : dom) : Prop :=
  ∀ p c, cells σ !! p = Some c → c_inner c = None.

(** The cell of a container once it is upgraded. *)
Definition upgraded_cell (n : node) : cell :=
  Cell (assoc_set "data-status" "loaded" (assoc_set "data-status" "loading" (attrs_of n)))
    None [] [] (Some [custom n]).

(** [σ'] has the skeleton of [σ] and its cells outside the subtree at [here]. *)
Definition agree_outside (here : path) (σ σ' : dom) : Prop :=
  skel σ' = skel σ ∧ ∀ p, (∀ q, p ≠ here ++ q) → cells σ' !! p = cells σ !! p.

(** The loop over the static list [l] of the containers of [n], which sits
    untouched at [here]: it upgrades [n] and records its kinds, or stops at
    a name the platform refuses. *)
Definition scan_of (n : node) (here : path) (l : list path) : Prop :=
  ∀ σ r,
    subtree (skel σ) here = Some n → (∀ q, cells σ !! (here ++ q) = None) → no_inner σ →
    if forallb (valid_name B) (kinds n)
    then ∃ σ', forEach (discover B) l (σ, r) = Ok (σ', foldl add_kind r (kinds n)) ∧
               agree_outside here σ σ' ∧ no_inner σ' ∧
               view (cells σ') here n = [upgrade n]
    else forEach (discover B) l (σ, r) = Throw InvalidCharacterError.

End Discovery.

Definition no_suffix (t : string) : Prop := endsWith t "-metadata" = false.

#[global] Instance no_suffix_dec t : Decision (no_suffix t) :=
  decide (endsWith t "-metadata" = false).

(** The invariant of the scan: the templates are the components without the
    metadata suffix. *)
Definition sets_agree (r : resources) : Prop :=
  templates r = filter no_suffix (components r).

(** ** The items of a mapped-mode component, read off the tree *)

(** The label and the value of the item [x] at [p]: the text of its first
    child element and the markup of its second. *)
Definition label_value (B : browser) (p : path) (x : node) : option (string * markup) :=
  match children (kids_of x) with
  | key :: value :: _ =>
      Some (innerText B (p ++ [key_index (kids_of x)]), reparse B (tag_of x) (kids_of value))
  | _ => None
  end.

Definition entry_at (B : browser) (root : node) (p : path) : option (string * markup) :=
  subtree root p ≫= label_value B p.

Definition set_entry (es : list (string * markup)) (lv : string * markup)
  : list (string * markup) :=
  assoc_set lv.1 lv.2 es.

(** The cell of an item once it is collected. *)
Definition collected_cell (root : node) (p : path) (lv : string * markup) : cell :=
  Cell (assoc_set "slot" lv.1 (attrs_of (default (Text "") (subtree root p))))
    (Some lv.2) [] [] None.

(** The loop over the static list [l] of the items below [here], nothing
    below which was touched: every item ends with its label for slot and its
    value for content, or the loop stops at an item without the two. *)
Definition collect_of (B : browser) (here : path) (l : list path) : Prop :=
  ∀ σ es,
    (∀ q, cells σ !! (here ++ q) = None) →
    match mapM (entry_at B (skel σ)) l with
    | Some lvs =>
        ∃ σ', forEach (collect B true) l (σ, MapValues es)
              = Ok (σ', MapValues (foldl set_entry es lvs)) ∧
              agree_outside here σ σ' ∧
              ∀ p lv, p ∈ l → entry_at B (skel σ) p = Some lv →
                      cells σ' !! p = Some (collected_cell (skel σ) p lv)
    | None => forEach (collect B true) l (σ, MapValues es) = Throw TypeError
    end.

(** Document order on paths, as a relation. *)
Definition before (a b : path) : Prop := precedes a b = true.

(** ** Hero promotion, read off the tree *)

(** The tree with [f] applied to the node at [p]. *)
Fixpoint update_at (p : path) (f : node → node) (n : node) : node :=
  match p with
  | [] => f n
  | i :: q =>
      match n with
      | Elem t a ks => Elem t a (alter (update_at q f) i ks)
      | Text s => Text s
      end
  end.

(** The tree without the elements at the paths [dead]. *)
Fixpoint without (dead : list path) (here : path) (n : node) : markup :=
  match n with
  | Text s => [Text s]
  | Elem t a ks =>
      if bool_decide (here ∈ dead) then []
      else
        [Elem t a
           ((fix go (i : nat) (l : list node) : markup :=
               match l with
               | [] => []
               | k :: l' => without dead (here ++ [i]) k ++ go (S i) l'
               end) 0 ks)]
  end.

Fixpoint without_kids (dead : list path) (here : path) (i : nat) (l : list node) : markup :=
  match l with
  | [] => []
  | k :: l' => without dead (here ++ [i]) k ++ without_kids dead here (S i) l'
  end.

Definition hero_section (picture h1 : node) : node :=
  Elem "div" [("class", "hero")] [picture; h1].

(** The page after the promotion of the picture at [picture] and the heading
    at [h1] below [main]: the section comes first in [main], the paragraph
    of the picture and the heading are gone from where they were. *)
Definition promoted (doc : node) (main picture h1 : path) : node :=
  update_at main
    (λ m, Elem (tag_of m) (attrs_of m)
            (hero_section (cloneNode doc picture) (cloneNode doc h1)
             :: without_kids [removelast picture; h1] main 0 (kids_of m)))
    doc.

(** ** Eager images, read off the tree *)

(** The document in which every [img] the platform reports visible has
    [loading="eager"], everything else, the content of templates included,
    being as it was. *)
Fixpoint eager (visible : path → bool) (here : path) (n : node) : node :=
  match n with
  | Text s => Text s
  | Elem t a ks =>
      Elem t
        (if bool_decide (t = "img") && visible here
         then assoc_set "loading" "eager" a else a)
        (if bool_decide (t = "template") then ks
         else
           (fix go (i : nat) (l : list node) : markup :=
              match l with
              | [] => []
              | k :: l' => eager visible (here ++ [i]) k :: go (S i) l'
              end) 0 ks)
  end.

Fixpoint eager_kids (visible : path → bool) (here : path) (i : nat) (l : list node)
  : markup :=
  match l with
  | [] => []
  | k :: l' => eager visible (here ++ [i]) k :: eager_kids visible here (S i) l'
  end.

(** The body of the [forEach] of [loadEagerImages]. *)
Definition eager_step (visible : path → bool) (σ : dom) (img : path) : dom :=
  if visible img then setAttribute σ img "loading" "eager" else σ.

(** The loop over the static list [l] of the images of [n], which sits
    untouched at [here]. *)
Definition eager_of (visible : path → bool) (n : node) (here : path) (l : list path)
  : Prop :=
  ∀ σ,
    subtree (skel σ) here = Some n → (∀ q, cells σ !! (here ++ q) = None) →
    agree_outside here σ (foldl (eager_step visible) σ l) ∧
    view (cells (foldl (eager_step visible) σ l)) here n = [eager visible here n].

(** ** Icons, read off the tree *)

(** The name [decorateIcon] gives the image of an element: what follows
    [icon-] in the first class name that starts with it. *)
Definition icon_name (n : node) : option string :=
  substring_from 5 <$> List.find (λ c, startsWith c "icon-") (classList n).

(** Every element of class [icon], outside the content of templates, has a
    class name that starts with [icon-]. *)
Fixpoint named (n : node) : bool :=
  (if has_class "icon" n then bool_decide (is_Some (icon_name n)) else true) &&
  match n with
  | Text _ => true
  | Elem t _ ks => if bool_decide (t = "template") then true else forallb named ks
  end.

(** The node in which every element of class [icon] has its image for last
    child, the content of templates being as it was. *)
Fixpoint decorated (base : string) (n : node) : node :=
  match n with
  | Text s => Text s
  | Elem t a ks =>
      Elem t a
        ((if bool_decide (t = "template") then ks else decorated base <$> ks) ++
         (if has_class "icon" n then [icon_img base (default "" (icon_name n))] else []))
  end.

(** The same below a node, which is itself left alone. *)
Definition decorated_below (base : string) (n : node) : node :=
  match n with
  | Text s => Text s
  | Elem t a ks =>
      Elem t a (if bool_decide (t = "template") then ks else decorated base <$> ks)
  end.

(** The loop over the static list [l] of the icons of [n], which sits
    untouched at [here]: it decorates them all, or stops at one without a
    name. *)
Definition decorate_of (base : string) (n : node) (here : path) (l : list path) : Prop :=
  ∀ σ,
    subtree (skel σ) here = Some n → (∀ q, cells σ !! (here ++ q) = None) →
    if named n
    then ∃ σ', forEach (decorateIcon base) l σ = Ok σ' ∧
               agree_outside here σ σ' ∧
               view (cells σ') here n = [decorated base n]
    else forEach (decorateIcon base) l σ = Throw TypeError.

(** ** The completion signal *)

(** [document.body.dataset.status] *)
Definition body_status (doc : node) : option string :=
  body ← document_body doc; getAttribute (pristine doc) body "data-status".

(** What a step of the initialization leaves alone: the registry, the
    milestones passed, where the head and the body of the document are, and
    the status of the body. *)
Definition same_frame (w w' : world) : Prop :=
  w_registry w' = w_registry w ∧
  w_trace w' = w_trace w ∧
  (∀ ts, child_tagged ts (w_document w') = child_tagged ts (w_document w)) ∧
  body_status (w_document w') = body_status (w_document w).

(** ** The telemetry body, read off the object *)

Definition callable (v : value) : bool :=
  match v with VFun _ | VClass _ => true | _ => false end.

(** Plain data, as far as the listed names reach into it: no BigInt, no
    cycle and no [toJSON] method. *)
Fixpoint plain (names : list string) (v : value) : bool :=
  match v with
  | VBigInt _ | VCycle => false
  | VObj fields =>
      forallb (λ kv, negb (bool_decide (kv.1 = "toJSON") && callable kv.2) &&
                     (if bool_decide (kv.1 ∈ names) then plain names kv.2 else true))
        fields
  | _ => true
  end.

(** What JSON writes for plain data: of an object, at any depth, the listed
    properties in the order of the list; [None] for what it leaves out. *)
Section Written.
Context (value_written : value → option json).

(** The value written for the property [k] of an object: that of its first
    field of that name, when JSON writes it. *)
Fixpoint written_field (k : string) (fs : list (string * value)) : option json :=
  match fs with
  | [] => None
  | (k', v') :: fs' => if decide (k' = k) then value_written v' else written_field k fs'
  end.

Fixpoint written_props (fs : list (string * value)) (ks : list string)
  : list (string * json) :=
  match ks with
  | [] => []
  | k :: ks' =>
      match written_field k fs with
      | Some j => (k, j) :: written_props fs ks'
      | None => written_props fs ks'
      end
  end.

End Written.

Fixpoint written (names : list string) (v : value) : option json :=
  match v with
  | VUndefined | VClass _ | VFun _ | VBigInt _ | VCycle => None
  | VNull => Some JNull
  | VBool b => Some (JBool b)
  | VNum n => Some (JNum n)
  | VStr s => Some (JStr s)
  | VObj fields => Some (JObj (written_props (written names) fields names))
  end.

(** One of the three masks of [urlSanitizers]. *)
Definition is_mask (f : option sanitizer) : bool :=
  match f with
  | Some mask_full | Some mask_origin | Some mask_path => true
  | Some (inherited _) | None => false
  end.

(** A session made, or about to be made, under the override [rum=on]: the
    weight is 1, the page is selected, and the referrer is one of the three
    masks (the one [setup] sets, or another). *)
Definition forced_session (P : platform) (w : world) : Prop :=
  (∀ n, (0 <= rand P n)%Q ∧ (rand P n < 1)%Q ∧ double (rand P n)) ∧
  match hlx_rum (default empty_hlx (w_hlx w)) with
  | Some r => weight r = 1%Z ∧ isSelected r = true ∧ is_mask (sanitizeURL r) = true
  | None =>
      assoc_get "rum" (search (loc P)) = Some "on" ∧
      is_mask (urlSanitizers (or_else (RUM_MASK_URL (default empty_hlx (w_hlx w))) "path"))
      = true
  end.

(** The caller's data carries no field of name [k] that JSON leaves out. *)
Definition writes (k : string) (data : list (string * value)) : Prop :=
  ∀ v, (k, v) ∈ data → is_Some (written knownProperties v).

(** The value of the caller's field [k]: that of its last occurrence. *)
Definition field_of (k : string) (data : list (string * value)) : option value :=
  assoc_get k (reverse data).

(** ** Sample pages *)

(** A fragment placeholder as authored. *)
Definition footer_fragment : node :=
  Elem "div" [("class", "fragment")]
    [Elem "div" [] [Elem "div" [] [Text "/fragments/footer"]]].

(** A page whose head links the fonts and whose body caches the template of
    the hero block. *)
Definition cached_page : node :=
  Elem "html" []
    [Elem "head" [] [Elem "link" [("rel", "stylesheet"); ("href", "/styles/fonts.css")] []];
     Elem "body" []
       [Elem "main" [] [];
        Elem "template" [("id", "aem-hero")] [Elem "slot" [("name", "title")] []]]].

(** A block whose name holds a quote, and a page that caches its template. *)
Definition quoted_name : string := "a" +:+ quote +:+ "b".

Definition quoted_page : node :=
  Elem "html" [] [Elem "body" [] [Elem "template" [("id", quoted_name)] []]].

(** A block inside a block, and a metadata block. *)
Definition nested_page : node :=
  Elem "body" []
    [Elem "div" [("class", "outer")] [Elem "div" [("class", "inner")] [Text "x"]];
     Elem "div" [("class", "section-metadata")]
       [Elem "div" [] [Elem "div" [] [Text "Style"]; Elem "div" [] [Text "dark"]]]].

(** Blocks side by side. *)
Definition flat_page : node :=
  Elem "body" []
    [Elem "header" [] [];
     Elem "main" []
       [Elem "div" []
          [Elem "div" [("class", "cards")] [Elem "div" [] [Text "A"]];
           Elem "div" [("class", "section-metadata")]
             [Elem "div" [] [Elem "div" [] [Text "Style"]; Elem "div" [] [Text "dark"]]]]];
     Elem "footer" [] []].

(** The section metadata of a page as the scan leaves it, [Style] given
    twice, and a page that caches its template. *)
Definition metadata_block : node :=
  Elem "aem-section-metadata" []
    [Elem "div" [("slot", "item")]
       [Elem "div" [] [Text "Style"]; Elem "div" [] [Text "dark"]];
     Elem "div" [("slot", "item")]
       [Elem "div" [] [Text "Color"]; Elem "div" [] [Text "blue"]];
     Elem "div" [("slot", "item")]
       [Elem "div" [] [Text "Style"]; Elem "div" [] [Elem "b" [] [Text "light"]]]].

Definition metadata_page : node :=
  Elem "html" []
    [Elem "head" [] [];
     Elem "body" []
       [metadata_block;
        Elem "template" [("id", "aem-section-metadata")] [Elem "slot" [] []]]].


(** An item that lost its value. *)
Definition malformed_block : node :=
  Elem "aem-section-metadata" []
    [Elem "div" [("slot", "item")]
       [Elem "div" [] [Text "Style"]; Elem "div" [] [Text "dark"]];
     Elem "div" [("slot", "item")] [Elem "div" [] [Text "Color"]]].

(** A page that opens with a picture and a heading, and one whose picture
    wraps a paragraph with a picture of its own. *)
Definition hero_page : node :=
  Elem "html" []
    [Elem "body" []
       [Elem "main" []
          [Elem "div" []
             [Elem "p" [] [Elem "picture" [] [Elem "img" [("src", "a.png")] []]];
              Elem "h1" [] [Text "Title"];
              Elem "p" [] [Text "Body"]]]]].

Definition odd_hero_page : node :=
  Elem "main" []
    [Elem "p" [] [Elem "picture" [] [Elem "p" [] [Elem "picture" [] []]]];
     Elem "h1" [] [Text "Title"]].

(** A browser that accepts every name, parses a markup back to what it was
    and renders the text of the tree [root] as it is written; it finds a
    syntax error in every selector it is asked about. *)
Definition literal_browser (root : node) : browser :=
  Browser (λ _, true) (λ _ m, m) (λ s, s)
    (λ p, textContent (default (Text "") (subtree root p)))
    (λ _ _, Throw SyntaxError).

(** A page visited with [?rum=on], after [setup]. *)
Definition sampled_platform : platform :=
  Platform (literal_browser (Text "")) (λ _, NetworkError) (λ _, NetworkError)
    (λ _, ImportFails VUndefined) (λ _, true)
    (λ _, false) (λ s, Some s) (λ _ _, true)
    (λ n, if n mod 8 =? 3 then 31 # 32 else 1 # 2) (λ n, Z.of_nat n * 10)%Z
    (Location "https://example.com/page?rum=on" "https://example.com" "example.com"
       [("rum", "on")]).

Definition sampled_world : world :=
  World cached_page (Some (Hlx None (Some "full") "" false)) [] [] [] [] [] [] [] 0 0 [] None.

(** A page with two blocks, served by a site that has the code and the
    template of the cards and nothing for the hero. *)
Definition blocks_platform : platform :=
  Platform (literal_browser (Text "")) (λ _, NetworkError)
    (λ url, if String.eqb url "/blocks/aem-cards/aem-cards.html"
            then Response true (Some [Elem "template" [] [Elem "slot" [] []]])
            else Response false None)
    (λ url, if String.eqb url "/blocks/aem-cards/aem-cards.js"
            then Module [("default", VClass "Cards")]
            else ImportFails (VStr "TypeError"))
    (λ _, true) (λ _, false) (λ s, Some s) (λ _ _, true) (λ _, 1 # 2) (λ n, Z.of_nat n)
    (Location "https://example.com/" "https://example.com" "example.com" []).

(** The same site when the request for the template of the hero fails at
    the network level. *)
Definition offline_platform : platform :=
  Platform (literal_browser (Text "")) (λ _, NetworkError)
    (λ url, if String.eqb url "/blocks/aem-cards/aem-cards.html"
            then Response true (Some [Elem "template" [] [Elem "slot" [] []]])
            else NetworkError)
    (λ url, if String.eqb url "/blocks/aem-cards/aem-cards.js"
            then Module [("default", VClass "Cards")]
            else ImportFails (VStr "TypeError"))
    (λ _, true) (λ _, false) (λ s, Some s) (λ _ _, true) (λ _, 1 # 2) (λ n, Z.of_nat n)
    (Location "https://example.com/" "https://example.com" "example.com" []).

(** A site whose modules have no default export. *)
Definition named_exports_platform : platform :=
  Platform (literal_browser (Text "")) (λ _, NetworkError) (λ _, Response false None)
    (λ _, Module [("decorate", VClass "decorate")]) (λ _, true) (λ _, false)
    (λ s, Some s) (λ _ _, true) (λ _, 1 # 2) (λ n, Z.of_nat n)
    (Location "https://example.com/" "https://example.com" "example.com" []).

Definition blocks_page : node :=
  Elem "html" []
    [Elem "head" [] [];
     Elem "body" []
       [Elem "main" []
          [Elem "div" []
             [Elem "div" [("class", "cards")] [Elem "div" [] [Text "A"]];
              Elem "div" [("class", "hero")] [Elem "div" [] [Text "B"]]]]]].

Definition blocks_world : world :=
  World blocks_page None [] [] [] [] [] [] [] 0 0 [] None.

(** The page once scanned, and what the scan asks for. *)
Definition scanned_world : world :=
  World
    (Elem "html" []
       [Elem "head" [] [];
        Elem "body" []
          [Elem "main" []
             [Elem "div" []
                [Elem "aem-cards" [] [Elem "div" [("slot", "item")] [Text "A"]];
                 Elem "aem-hero" [] [Elem "div" [("slot", "item")] [Text "B"]]]]]])
    (Some (Hlx None (Some "full") "" false)) [] [] [] [] [] [] [] 0 0 [] None.

Definition scanned_resources : resources :=
  Resources ["aem-cards"; "aem-hero"] ["aem-cards"; "aem-hero"].

(** A viewport whose upper part shows the picture of [hero_page]. *)
Definition viewport_platform : platform :=
  Platform (literal_browser (Text "")) (λ _, NetworkError) (λ _, NetworkError)
    (λ _, ImportFails VUndefined) (λ _, true)
    (λ p, bool_decide (p = [0; 0; 0; 0; 0; 0])) (λ s, Some s) (λ _ _, true)
    (λ _, 1 # 2) (λ n, Z.of_nat n) (Location "" "" "" []).

(** A page whose session was not selected, and one whose mask is none of the
    sanitizers. *)
Definition unselected_hlx : hlx :=
  Hlx (Some (Rum 100 "3BJ" (1 # 2) false 0 (Some mask_full))) (Some "full") "" false.

Definition unselected_world : world :=
  World blocks_page (Some unselected_hlx) [] [] [] [] [] [] [] 63 1 [] None.

Definition unmasked_world : world :=
  World cached_page (Some (Hlx None (Some "none") "" false)) [] [] [] [] [] [] [] 0 0 [] None.

(** A button with a search icon. *)
Definition icon_page : node :=
  Elem "aem-header" []
    [Elem "button" []
       [Elem "span" [("class", "icon icon-search")] []; Text "Search"]].

(** * Properties *)

(** ** Trees, paths and selections *)

Lemma node_ind' (P : node → Prop) :
  (∀ s, P (Text s)) →
  (∀ t a ks, Forall P ks → P (Elem t a ks)) →
  ∀ n, P n.
Proof.
  intros HT HE. fix IH 1. intros [s | t a ks]; [apply HT | apply HE].
  induction ks as [| k ks IHks]; constructor; [apply IH | apply IHks].
Qed.

Lemma select_Elem m par here t a ks :
  select m par here (Elem t a ks) =
  (if m par (Elem t a ks) then [here] else []) ++
  select_kids m (Elem t a ks) here 0 (light_kids (Elem t a ks)).
Proof.
  simpl. f_equal. destruct (bool_decide (t = "template")); [done |].
  generalize (Elem t a ks) at 1 2 as n. intros n.
  generalize 0. induction ks as [| k ks IH]; intros i; simpl; [done |].
  by rewrite IH.
Qed.

Lemma light_kids_lookup n i k : light_kids n !! i = Some k → kids_of n !! i = Some k.
Proof.
  destruct n as [s | t a ks]; simpl; [done |]. by destruct (bool_decide (t = "template")).
Qed.

Lemma light_kids_elem n k : k ∈ light_kids n → k ∈ kids_of n.
Proof.
  destruct n as [s | t a ks]; simpl; [done |].
  destruct (bool_decide (t = "template")); [by intros ?%elem_of_nil | done].
Qed.

Lemma reach_subtree n p x : reach n p = Some x → subtree n p = Some x.
Proof.
  revert n. induction p as [| i p IH]; intros n; simpl; [done |].
  destruct (light_kids n !! i) as [k |] eqn:E; [| done].
  rewrite (light_kids_lookup _ _ _ E). apply IH.
Qed.

Lemma reach_app n p q : reach n (p ++ q) = reach n p ≫= λ k, reach k q.
Proof.
  revert n. induction p as [| i p IH]; intros n; simpl; [done |].
  destruct (light_kids n !! i); simpl; [apply IH | done].
Qed.

Lemma view_Elem cs here t a ks :
  view cs here (Elem t a ks) =
  let c := cell_of cs here a in
  match c_out c with
  | Some l => l
  | None =>
      [Elem t (c_attrs c)
         match c_inner c with
         | Some m => m
         | None => c_pre c ++ view_kids cs here 0 ks ++ c_post c
         end]
  end.
Proof.
  simpl. destruct (c_out _); [done |]. destruct (c_inner _); [done |].
  do 4 f_equal. generalize 0. induction ks as [| k ks IH]; intros i; simpl; [done |].
  by rewrite IH.
Qed.

Lemma subtree_app n p q :
  subtree n (p ++ q) = subtree n p ≫= λ k, subtree k q.
Proof.
  revert n. induction p as [| i p IH]; intros n; simpl; [done |].
  destruct (kids_of n !! i); simpl; [apply IH | done].
Qed.

Lemma parent_in_cons par t a ks j k q :
  ks !! j = Some k →
  parent_in par (Elem t a ks) (j :: q) = parent_in (Some (Elem t a ks)) k q.
Proof.
  intros Hk. destruct q as [| i q]; [done |]. unfold parent_in.
  change (removelast (j :: i :: q)) with (j :: removelast (i :: q)).
  cbn [subtree kids_of]. by rewrite Hk.
Qed.

Lemma elem_of_select_kids_1 m n here i l p :
  p ∈ select_kids m n here i l →
  ∃ j k, l !! j = Some k ∧ p ∈ select m (Some n) (here ++ [i + j]) k.
Proof.
  revert i. induction l as [| k l IH]; intros i; simpl; [by intros ?%elem_of_nil |].
  intros [H | H]%elem_of_app.
  - exists 0, k. by rewrite Nat.add_0_r.
  - destruct (IH _ H) as (j & k' & Hj & Hp). exists (S j), k'.
    split; [done |]. by replace (i + S j) with (S i + j) by lia.
Qed.

Lemma elem_of_select_kids_2 m n here i l p j k :
  l !! j = Some k → p ∈ select m (Some n) (here ++ [i + j]) k →
  p ∈ select_kids m n here i l.
Proof.
  revert i j. induction l as [| k' l IH]; intros i j; [done |].
  destruct j as [| j]; simpl; intros Hj Hp; apply elem_of_app.
  - left. simplify_eq. by rewrite Nat.add_0_r in Hp.
  - right. apply (IH (S i) j); [done |]. by replace (S i + j) with (i + S j) by lia.
Qed.

(** [select] lists exactly the paths of the nodes the selector accepts,
    template content left aside. *)
Lemma elem_of_select_reach m par here n p :
  p ∈ select m par here n ↔
  ∃ q x, p = here ++ q ∧ reach n q = Some x ∧ m (parent_in par n q) x = true.
Proof.
  revert par here p. induction n as [s | t a ks IH] using node_ind'; intros par here p.
  - simpl. rewrite app_nil_r. split.
    + destruct (m par (Text s)) eqn:E; [| by intros ?%elem_of_nil].
      intros ->%list_elem_of_singleton. exists [], (Text s). by rewrite app_nil_r.
    + intros (q & x & -> & Hq & Hm). destruct q as [| i q]; [| by destruct i].
      simpl in *. simplify_eq. rewrite Hm, app_nil_r. apply list_elem_of_singleton. done.
  - rewrite select_Elem. split.
    + intros [H | H]%elem_of_app.
      * destruct (m par (Elem t a ks)) eqn:E; [| by apply elem_of_nil in H].
        apply list_elem_of_singleton in H as ->. exists [], (Elem t a ks).
        by rewrite app_nil_r.
      * apply elem_of_select_kids_1 in H as (j & k & Hj & Hp). simpl in Hp.
        rewrite Forall_forall in IH.
        apply IH in Hp as (q & x & -> & Hq & Hm);
          [| by eapply (light_kids_elem (Elem t a ks)), list_elem_of_lookup_2].
        exists (j :: q), x. rewrite <- app_assoc. split; [done |]. split.
        -- cbn [reach]. by rewrite Hj.
        -- erewrite parent_in_cons; [done |]. by apply (light_kids_lookup (Elem t a ks)).
    + intros (q & x & -> & Hq & Hm). apply elem_of_app. destruct q as [| j q].
      * left. simpl in *. simplify_eq. rewrite Hm, app_nil_r. by apply list_elem_of_singleton.
      * right. cbn [reach] in Hq.
        destruct (light_kids (Elem t a ks) !! j) as [k |] eqn:Hj; [| done].
        apply (elem_of_select_kids_2 _ _ _ _ _ _ j k); [done |]. simpl.
        rewrite Forall_forall in IH.
        apply IH; [by eapply (light_kids_elem (Elem t a ks)), list_elem_of_lookup_2 |].
        exists q, x. rewrite <- app_assoc. split; [done |]. split; [done |].
        erewrite <- parent_in_cons; [done |]. by apply (light_kids_lookup (Elem t a ks)).
Qed.

Lemma elem_of_select m par here n p :
  p ∈ select m par here n →
  ∃ q x, p = here ++ q ∧ subtree n q = Some x ∧ m (parent_in par n q) x = true.
Proof.
  intros (q & x & -> & Hq & Hm)%elem_of_select_reach. exists q, x.
  eauto using reach_subtree.
Qed.

Lemma parent_in_snoc par n p i : parent_in par n (p ++ [i]) = subtree n p.
Proof.
  unfold parent_in. rewrite removelast_last. by destruct p.
Qed.

Lemma querySelector_found m doc p n :
  reach doc p = Some n → m (parent_in None doc p) n = true →
  is_Some (querySelector m doc).
Proof.
  intros Hp Hm. unfold querySelector, querySelectorAll.
  assert (p ∈ select m None [] doc) as Hin by (apply elem_of_select_reach; eauto).
  destruct (select m None [] doc); [by apply elem_of_nil in Hin | by eexists].
Qed.

(** ** [loadBlock] *)

(** A module with a truthy default export: the promise is fulfilled with the
    name of the block and that export, and nothing is logged. *)
Lemma loadBlock_default import base blockName exports c :
  import (base +:+ "/blocks/" +:+ blockName +:+ "/" +:+ blockName +:+ ".js") = Module exports →
  assoc_get "default" exports = Some c → truthy c = true →
  loadBlock import base blockName = (Fulfilled (BlockDef blockName c), []).
Proof. intros Hi Hd Ht. unfold loadBlock. by rewrite Hi, Hd; simpl; rewrite Ht. Qed.

(** A module that fails to load: the warning is logged and the promise
    rejects with the error of the import. *)
Lemma loadBlock_import_fails import base blockName error :
  import (base +:+ "/blocks/" +:+ blockName +:+ "/" +:+ blockName +:+ ".js") = ImportFails error →
  loadBlock import base blockName =
  (Rejected (Because error), [LogWarn ("Failed to load module for " +:+ blockName)]).
Proof. intros Hi. unfold loadBlock. by rewrite Hi. Qed.

(** A module that loads without a default export leaves the promise
    unsettled and the console untouched. *)
Lemma loadBlock_no_default import base blockName exports :
  import (base +:+ "/blocks/" +:+ blockName +:+ "/" +:+ blockName +:+ ".js") = Module exports →
  truthy (default VUndefined (assoc_get "default" exports)) = false →
  loadBlock import base blockName = (Pending, []).
Proof. intros Hi Ht. unfold loadBlock. by rewrite Hi, Ht. Qed.

(** C2, at the failing input: the module of [aem-cards] loads and exports
    only a named function.  The promise of [loadBlock] is neither fulfilled
    nor rejected, and no warning is logged. *)
Theorem loadBlock_named_export_only_stays_pending :
  loadBlock (λ _, Module [("decorate", VClass "decorate")]) "" "aem-cards" = (Pending, []).
Proof. reflexivity. Qed.

(** ** [preloadFragment] *)

(** A fetch that fails at the network level: the error is logged, the promise
    resolves and the document is as it was. *)
Lemma preloadFragment_network_failure B fetch σ element slot :
  querySelector_in div_in_div (skel σ) element = Some slot →
  fetch (innerText B slot +:+ ".plain.html") = NetworkError →
  preloadFragment B fetch σ element =
  Preloaded (Fulfilled ()) σ
    [LogError ("Loading fragment " +:+ innerText B slot +:+ " failed:")].
Proof. intros Hs Hf. unfold preloadFragment. by rewrite Hs, Hf. Qed.

Lemma childNodes_set_innerHTML σ p m : childNodes (set_innerHTML σ p m) p = m.
Proof.
  unfold childNodes, set_innerHTML, cell_at, cell_of, put_cell. simpl.
  by rewrite lookup_insert_eq.
Qed.

(** On a response that is not [ok] the failure is reported and the promise
    resolves, but the body of the response becomes the content of the slot. *)
Lemma preloadFragment_not_ok B fetch σ element slot m :
  querySelector_in div_in_div (skel σ) element = Some slot →
  fetch (innerText B slot +:+ ".plain.html") = Response false (Some m) →
  let r := preloadFragment B fetch σ element in
  pl_promise r = Fulfilled () ∧
  pl_console r = [LogWarn ("failed to preload fragment " +:+ innerText B slot)] ∧
  get_innerHTML (pl_dom r) slot = m.
Proof.
  intros Hs Hf. unfold preloadFragment. rewrite Hs, Hf. simpl.
  split; [done |]. split; [done |]. apply childNodes_set_innerHTML.
Qed.

(** C1, at the failing input: the placeholder names [/fragments/footer] and
    the fetch answers 404 with the body [Not Found].  The warning is logged
    and the promise resolves, but the slot, which held the authored path,
    now holds the body of the error page. *)
Theorem preloadFragment_404_overwrites_slot :
  querySelector_in div_in_div footer_fragment [] = Some [0] ∧
  innerText (literal_browser footer_fragment) [0] = "/fragments/footer" ∧
  get_innerHTML (pristine footer_fragment) [0] = [Elem "div" [] [Text "/fragments/footer"]] ∧
  pl_promise (preloadFragment (literal_browser footer_fragment)
                (λ _, Response false (Some [Text "Not Found"]))
                (pristine footer_fragment) []) = Fulfilled () ∧
  pl_console (preloadFragment (literal_browser footer_fragment)
                (λ _, Response false (Some [Text "Not Found"]))
                (pristine footer_fragment) []) =
    [LogWarn "failed to preload fragment /fragments/footer"] ∧
  get_innerHTML (pl_dom (preloadFragment (literal_browser footer_fragment)
                           (λ _, Response false (Some [Text "Not Found"]))
                           (pristine footer_fragment) [])) [0] = [Text "Not Found"].
Proof. by vm_compute. Qed.

(** ** [loadTemplate] and [loadCSS] *)

(** C9, as corrected: when the derived identifier holds no quote, backslash,
    line break or null character, a template already in the document under
    that identifier (and not inside the content of another template) makes
    [loadTemplate] resolve at once with nothing fetched and nothing
    appended; when the [href] holds none of these characters, a link with
    the same [href] that is a child of a [head] element makes [loadCSS]
    resolve at once with the document as it was. *)
Theorem loads_of_cached_resources_resolve_at_once
    (B : browser) (fetch : string → fetched) (loads : string → bool)
    (base blockName href : string) (doc : node) :
  (css_plain (template_id (template_href base blockName)) = true →
   (∃ p a ks, reach doc p = Some (Elem "template" a ks) ∧
              assoc_get "id" a = Some (template_id (template_href base blockName))) →
   loadTemplate B fetch base blockName doc = Loaded (Fulfilled ()) None []) ∧
  (css_plain href = true →
   (∃ p i ha hks a ks, reach doc p = Some (Elem "head" ha hks) ∧
                       hks !! i = Some (Elem "link" a ks) ∧
                       assoc_get "href" a = Some href) →
   loadCSS B loads href doc = (Fulfilled (), doc)).
Proof.
  split.
  - intros Hplain (p & a & ks & Hp & Hid). unfold loadTemplate, find_template, query. rewrite Hplain.
    destruct (querySelector_found (template_with_id (template_id (template_href base blockName)))
                doc p _ Hp) as [q ->]; [| done].
    unfold template_with_id, has_attr. simpl. rewrite Hid.
    by rewrite !bool_decide_eq_true_2.
  - intros Hplain (p & i & ha & hks & a & ks & Hp & Hi & Hh). unfold loadCSS, find_link, query.
    rewrite Hplain.
    destruct (querySelector_found (link_with_href href) doc (p ++ [i]) (Elem "link" a ks))
      as [q ->]; [| | done].
    + rewrite reach_app, Hp. simpl. by rewrite Hi.
    + rewrite parent_in_snoc, (reach_subtree _ _ _ Hp). unfold link_with_href, has_attr.
      simpl. rewrite Hh. by rewrite !bool_decide_eq_true_2.
Qed.

Lemma loads_of_cached_resources_witness :
  loadTemplate (literal_browser (Text "")) (λ _, NetworkError) "" "aem-hero" cached_page
  = Loaded (Fulfilled ()) None [] ∧
  loadCSS (literal_browser (Text "")) (λ _, false) "/styles/fonts.css" cached_page
  = (Fulfilled (), cached_page).
Proof.
  split.
  - apply (loads_of_cached_resources_resolve_at_once (literal_browser (Text ""))
             (λ _, NetworkError) (λ _, false) "" "aem-hero" "/styles/fonts.css" cached_page).
    + reflexivity.
    + exists [1; 1], [("id", "aem-hero")], [Elem "slot" [("name", "title")] []].
      split; reflexivity.
  - apply (loads_of_cached_resources_resolve_at_once (literal_browser (Text ""))
             (λ _, NetworkError) (λ _, false) "" "aem-hero" "/styles/fonts.css" cached_page).
    + reflexivity.
    + exists [0], 0, [],
        [Elem "link" [("rel", "stylesheet"); ("href", "/styles/fonts.css")] []],
        [("rel", "stylesheet"); ("href", "/styles/fonts.css")], [].
      repeat split; reflexivity.
Defined.

(** C9, the counterexample: the block name holds a quote, and the page holds
    a template under the derived identifier.  The identifier is pasted into
    the selector as it is; the browser finds a syntax error in the text, and
    the promise of [loadTemplate] rejects. *)
Lemma loadTemplate_of_quoted_name_rejects :
  template_id (template_href "" quoted_name) = quoted_name ∧
  reach quoted_page [0; 0] = Some (Elem "template" [("id", quoted_name)] []) ∧
  loadTemplate (literal_browser (Text "")) (λ _, NetworkError) "" quoted_name quoted_page
  = Loaded (Rejected (Thrown SyntaxError)) None [].
Proof. by vm_compute. Qed.

(** ** [getBlockResources]: the two sets *)

Lemma set_add_subseteq x s : s ⊆ set_add x s.
Proof. unfold set_add. case_decide; set_solver. Qed.

Lemma filter_set_add_keep x (s : list string) :
  no_suffix x → set_add x (filter no_suffix s) = filter no_suffix (set_add x s).
Proof.
  intros Hx. unfold set_add. destruct (decide (x ∈ s)) as [Hin | Hin].
  - rewrite decide_True; [done |]. by apply list_elem_of_filter.
  - rewrite decide_False; [| by intros [_ ?]%list_elem_of_filter].
    rewrite filter_app. f_equal. by rewrite filter_cons_True.
Qed.

Lemma filter_set_add_drop x (s : list string) :
  ¬ no_suffix x → filter no_suffix s = filter no_suffix (set_add x s).
Proof.
  intros Hx. unfold set_add. case_decide; [done |].
  rewrite filter_app, filter_cons_False, app_nil_r; done.
Qed.

Lemma add_kind_sets_agree B r k : sets_agree r → sets_agree (add_kind B r k).
Proof.
  unfold sets_agree, add_kind. simpl. intros ->.
  destruct (endsWith _ "-metadata") eqn:E; simpl.
  - apply filter_set_add_drop. unfold no_suffix. by rewrite E.
  - by apply filter_set_add_keep.
Qed.

Lemma discover_sets_agree B σ r block σ' r' :
  discover B (σ, r) block = Ok (σ', r') → sets_agree r → sets_agree r'.
Proof.
  unfold discover. destruct (in_flight _); [by intros [= <- <-] |].
  destruct (transformToCustomElement _ _ _) as [[customElement σ1] | e]; [| done].
  simpl. intros [= <- <-]. intros Hr.
  unfold sets_agree in *. simpl. rewrite Hr.
  destruct (endsWith _ "-metadata") eqn:E; simpl.
  - apply filter_set_add_drop. unfold no_suffix. by rewrite E.
  - by apply filter_set_add_keep.
Qed.

#[local] Arguments discover : simpl never.
#[local] Arguments collect : simpl never.

Lemma forEach_discover_sets_agree B l σ r σ' r' :
  forEach (discover B) l (σ, r) = Ok (σ', r') → sets_agree r → sets_agree r'.
Proof.
  revert σ r. induction l as [| p l IH]; intros σ r; simpl.
  - by intros [= <- <-].
  - destruct (discover B (σ, r) p) as [[σ1 r1] |] eqn:E; simpl; [| done].
    intros Hl Hr. eapply IH; [exact Hl |]. eapply discover_sets_agree; [exact E | exact Hr].
Qed.

(** C10: whatever the document, the template kinds [getBlockResources]
    returns are the component kinds it returns without those that end in
    [-metadata], in the same order; in particular every template kind is a
    component kind. *)
Theorem getBlockResources_templates_are_non_metadata_components
    (B : browser) (doc doc' : node) (r : resources) :
  getBlockResources B doc = Ok (doc', r) →
  templates r = filter (λ t, endsWith t "-metadata" = false) (components r) ∧
  templates r ⊆ components r ∧
  (∀ t, t ∈ components r → t ∈ templates r ∨ endsWith t "-metadata" = true).
Proof.
  unfold getBlockResources. intros H.
  destruct (forEach _ _ _) as [[σ r0] |] eqn:E; [| done]. simpl in H. simplify_eq.
  apply forEach_discover_sets_agree in E; [| done].
  split; [exact E |]. split.
  - rewrite E. intros t [_ ?]%list_elem_of_filter. done.
  - intros t Ht. rewrite E. destruct (endsWith t "-metadata") eqn:Et; [by right |].
    left. by apply list_elem_of_filter.
Qed.

(** ** The store *)

Lemma forEach_app {S A} (body : S → A → result S) l1 l2 s :
  forEach body (l1 ++ l2) s = forEach body l1 s ≫= forEach body l2.
Proof.
  revert s. induction l1 as [| a l1 IH]; intros s; simpl; [done |].
  destruct (body s a); simpl; [apply IH | done].
Qed.

Lemma assoc_get_set_eq {V} k (v : V) l : assoc_get k (assoc_set k v l) = Some v.
Proof.
  induction l as [| [k' v'] l IH]; simpl.
  - by rewrite decide_True.
  - destruct (decide (k' = k)) as [-> | Hne]; simpl.
    + by rewrite decide_True.
    + by rewrite decide_False.
Qed.

Lemma assoc_get_set_ne {V} k k' (v : V) l :
  k ≠ k' → assoc_get k (assoc_set k' v l) = assoc_get k l.
Proof.
  intros Hne. induction l as [| [k0 v0] l IH]; simpl.
  - rewrite decide_False; [done | by intros ->].
  - destruct (decide (k0 = k')) as [-> | Hne']; simpl.
    + rewrite !decide_False; [done | by intros -> ..].
    + destruct (decide (k0 = k)); [done | apply IH].
Qed.

Lemma view_kids_ext cs cs' here l i :
  Forall (λ k, ∀ here, (∀ q, cs !! (here ++ q) = cs' !! (here ++ q)) →
               view cs here k = view cs' here k) l →
  (∀ q, cs !! (here ++ q) = cs' !! (here ++ q)) →
  view_kids cs here i l = view_kids cs' here i l.
Proof.
  intros Hl H. revert i. induction Hl as [| k l Hk _ IH]; intros i; simpl; [done |].
  rewrite IH. f_equal. apply Hk. intros q. rewrite <- !app_assoc. apply H.
Qed.

(** The view of a subtree depends on the cells below its root only. *)
Lemma view_ext cs cs' n here :
  (∀ q, cs !! (here ++ q) = cs' !! (here ++ q)) → view cs here n = view cs' here n.
Proof.
  revert here. induction n as [s | t a ks IH] using node_ind'; intros here H; [done |].
  rewrite !view_Elem. unfold cell_of. specialize (H []) as H0. rewrite app_nil_r in H0.
  rewrite H0. cbv zeta. by rewrite (view_kids_ext cs cs' here ks 0 IH H).
Qed.

Lemma view_kids_empty here l i :
  Forall (λ k, ∀ here, view ∅ here k = [k]) l → view_kids ∅ here i l = l.
Proof.
  intros Hl. revert i. induction Hl as [| k l Hk _ IH]; intros i; simpl; [done |].
  by rewrite IH, Hk.
Qed.

Lemma view_empty n here : view ∅ here n = [n].
Proof.
  revert here. induction n as [s | t a ks IH] using node_ind'; intros here; [done |].
  rewrite view_Elem. unfold cell_of. rewrite lookup_empty. simpl.
  by rewrite view_kids_empty, app_nil_r.
Qed.

(** Where the store holds nothing below a node, the node shows as it is. *)
Lemma view_pristine cs n here :
  (∀ q, cs !! (here ++ q) = None) → view cs here n = [n].
Proof.
  intros H. rewrite <- (view_empty n here). apply view_ext. intros q.
  by rewrite H, lookup_empty.
Qed.

Lemma view_kids_pristine cs here l i :
  (∀ j q, cs !! (here ++ [j] ++ q) = None) → view_kids cs here i l = l.
Proof.
  intros H. revert i. induction l as [| k l IH]; intros i; simpl; [done |].
  rewrite IH, view_pristine; [done |]. intros q. rewrite <- app_assoc. apply H.
Qed.

Lemma document_pristine doc : document (pristine doc) = doc.
Proof. unfold document, pristine. simpl. by rewrite view_empty. Qed.

Lemma cell_at_put_eq σ p c : cell_at (put_cell σ p c) p = c.
Proof. unfold cell_at, cell_of, put_cell. simpl. by rewrite lookup_insert_eq. Qed.

Lemma cell_at_put_ne σ p q c : p ≠ q → cell_at (put_cell σ p c) q = cell_at σ q.
Proof. intros H. unfold cell_at, cell_of, put_cell, node_at. simpl. by rewrite lookup_insert_ne. Qed.

Lemma put_cell_put_cell σ p c c' : put_cell (put_cell σ p c) p c' = put_cell σ p c'.
Proof. unfold put_cell. simpl. by rewrite insert_insert_eq. Qed.

Lemma node_at_put σ p q c : node_at (put_cell σ p c) q = node_at σ q.
Proof. done. Qed.

Lemma app_cons_ne {A} (p : list A) x q : p ≠ p ++ x :: q.
Proof.
  intros H. apply (f_equal length) in H. rewrite length_app in H. simpl in H. lia.
Qed.

Lemma removelast_ne {A} (p : list A) : p ≠ [] → removelast p ≠ p.
Proof.
  intros Hp H. destruct (exists_last Hp) as (q & x & ->).
  rewrite removelast_last in H. by apply app_cons_ne in H.
Qed.

(** ** Document order *)

Lemma precedes_app p a b : precedes (p ++ a) (p ++ b) = precedes a b.
Proof.
  induction p as [| i p IH]; simpl; [done |].
  rewrite !decide_False by lia. done.
Qed.

Lemma precedes_extension p j q : precedes p (p ++ j :: q) = true.
Proof. rewrite <- (app_nil_r p) at 1. by rewrite precedes_app. Qed.

Lemma precedes_siblings p i j q q' :
  i < j → precedes (p ++ [i] ++ q) (p ++ [j] ++ q') = true.
Proof. intros H. rewrite precedes_app. simpl. by rewrite decide_True. Qed.

Lemma precedes_irrefl a : precedes a a = false.
Proof. induction a as [| i a IH]; simpl; [done |]. by rewrite !decide_False by lia. Qed.

Lemma precedes_trans a b c :
  precedes a b = true → precedes b c = true → precedes a c = true.
Proof.
  revert b c. induction a as [| i a IH]; intros [| j b] [| k c]; simpl; try done.
  repeat case_decide; try done; try lia. apply IH.
Qed.

Lemma precedes_asym a b : precedes a b = true → precedes b a = false.
Proof.
  intros H. destruct (precedes b a) eqn:E; [| done].
  pose proof (precedes_trans _ _ _ H E) as H'. by rewrite precedes_irrefl in H'.
Qed.

Lemma precedes_total a b : a = b ∨ precedes a b = true ∨ precedes b a = true.
Proof.
  revert b. induction a as [| i a IH]; intros [| j b]; simpl; auto.
  destruct (decide (i < j)); [auto |]. destruct (decide (j < i)); [auto |].
  assert (i = j) as -> by lia. destruct (IH b) as [-> | [? | ?]]; auto.
Qed.

Lemma elem_of_select_kids m n here i l p :
  p ∈ select_kids m n here i l →
  ∃ j q, i ≤ j ∧ p = here ++ [j] ++ q.
Proof.
  intros (j & k & _ & Hp)%elem_of_select_kids_1.
  apply elem_of_select in Hp as (q & _ & -> & _).
  exists (i + j), q. split; [lia |]. by rewrite <- app_assoc.
Qed.

Lemma select_kids_sorted m parent here l i :
  Forall (λ k, ∀ par here, StronglySorted before (select m par here k)) l →
  StronglySorted before (select_kids m parent here i l).
Proof.
  intros Hl. revert i. induction Hl as [| k l Hk _ IH]; intros i; simpl; [constructor |].
  apply StronglySorted_app. split; [| split; [apply Hk | apply IH]].
  intros p1 p2 (q1 & _ & -> & _)%elem_of_select (j & q2 & Hj & ->)%elem_of_select_kids.
  rewrite <- app_assoc. apply precedes_siblings. lia.
Qed.

(** [querySelectorAll] lists in document order. *)
Lemma select_sorted m n : ∀ par here, StronglySorted before (select m par here n).
Proof.
  induction n as [s | t a ks IH] using node_ind'; intros par here.
  - simpl. destruct (m par (Text s)); repeat constructor.
  - rewrite select_Elem. apply StronglySorted_app. split; [| split].
    + intros p1 p2 Hp1 (j & q & _ & ->)%elem_of_select_kids.
      destruct (m par (Elem t a ks)); [| by apply elem_of_nil in Hp1].
      apply list_elem_of_singleton in Hp1 as ->. apply precedes_extension.
    + destruct (m par (Elem t a ks)); repeat constructor.
    + apply select_kids_sorted. simpl.
      destruct (bool_decide (t = "template")); [constructor | done].
Qed.

Lemma select_NoDup m par here n : NoDup (select m par here n).
Proof.
  pose proof (select_sorted m n par here) as H.
  induction H as [| p l _ IH Hall]; constructor; [| done].
  intros Hin. rewrite Forall_forall in Hall. specialize (Hall _ Hin).
  unfold before in Hall. by rewrite precedes_irrefl in Hall.
Qed.

(** ** [getBlockResources]: one container *)

Lemma block_selector_parent par n : block_selector par n = block_selector None n.
Proof. done. Qed.

Lemma block_selector_element par n : block_selector par n = true → is_element n = true.
Proof. by destruct n. Qed.

Lemma has_parent_fresh σ p c :
  no_inner σ → c_out c = None → has_parent (put_cell σ p c) p = true.
Proof.
  intros Hσ Hc. unfold has_parent. rewrite cell_at_put_eq, Hc.
  destruct (parent_path p) as [q |] eqn:Hq; [| done].
  assert (p ≠ q) as Hne.
  { destruct p as [| i p]; [done |]. injection Hq as <-. intros H.
    by apply (removelast_ne (i :: p)). }
  rewrite cell_at_put_ne by done. unfold cell_at, cell_of.
  destruct (cells σ !! q) as [c' |] eqn:E; simpl; [| done]. by rewrite (Hσ _ _ E).
Qed.

(** What the body of the loop does to a container nothing below which was
    touched: a marked one is skipped; another one is upgraded and its kind
    recorded, unless the platform refuses the name. *)
Lemma discover_step B σ r p n :
  subtree (skel σ) p = Some n → is_element n = true →
  (∀ q, cells σ !! (p ++ q) = None) → no_inner σ →
  discover B (σ, r) p =
  if marked n then Ok (σ, r)
  else if valid_name B (kind B n) then Ok (put_cell σ p (upgraded_cell B n), add_kind B r (kind B n))
  else Throw InvalidCharacterError.
Proof.
  intros Hn He Hp Hσ. destruct n as [s | t a ks]; [done |].
  assert (cell_at σ p = Cell a None [] [] None) as Hc.
  { unfold cell_at, cell_of, node_at. specialize (Hp []). rewrite app_nil_r in Hp.
    by rewrite Hp, Hn. }
  unfold discover, getAttribute. rewrite Hc. simpl c_attrs. unfold marked. simpl attrs_of.
  destruct (in_flight _); [done |].
  unfold setAttribute. rewrite Hc. simpl.
  set (c1 := Cell (assoc_set "data-status" "loading" a) None [] [] None).
  unfold transformToCustomElement, getAttribute, tagName, get_innerHTML, childNodes.
  rewrite cell_at_put_eq, node_at_put. unfold node_at. rewrite Hn. simpl.
  rewrite assoc_get_set_ne by done.
  unfold createElement, kind. simpl attrs_of. simpl tag_of.
  destruct (valid_name B _); [| done]. simpl.
  rewrite view_kids_pristine, app_nil_r.
  2: { intros j q. rewrite lookup_insert_ne by apply app_cons_ne. apply Hp. }
  unfold replaceChild. rewrite has_parent_fresh by done. simpl.
  unfold leave, setAttribute. rewrite !cell_at_put_eq, !put_cell_put_cell. simpl.
  rewrite ?cell_at_put_eq, ?put_cell_put_cell. done.
Qed.

(** ** [getBlockResources]: the whole scan *)

Lemma sibling_paths_ne (here : path) i j q q' :
  i ≠ j → here ++ [i] ++ q ≠ here ++ [j] ++ q'.
Proof. intros Hij H. apply app_inv_head in H. by injection H. Qed.

Lemma no_inner_put σ p c : no_inner σ → c_inner c = None → no_inner (put_cell σ p c).
Proof.
  intros Hσ Hc q c'. unfold put_cell. simpl. rewrite lookup_insert.
  case_decide; [by intros [= <-] | apply Hσ].
Qed.

Lemma scan_kids B parent here l :
  Forall (λ k, ∀ par here, scan_of B k here (select block_selector par here k)) l →
  ∀ i σ r,
    (∀ j k, l !! j = Some k → subtree (skel σ) (here ++ [i + j]) = Some k) →
    (∀ j q, i ≤ j → cells σ !! (here ++ [j] ++ q) = None) →
    no_inner σ →
    if forallb (valid_name B) (l ≫= kinds B)
    then ∃ σ', forEach (discover B) (select_kids block_selector parent here i l) (σ, r)
               = Ok (σ', foldl (add_kind B) r (l ≫= kinds B)) ∧
               skel σ' = skel σ ∧
               (∀ p, (∀ j q, i ≤ j → p ≠ here ++ [j] ++ q) → cells σ' !! p = cells σ !! p) ∧
               no_inner σ' ∧
               view_kids (cells σ') here i l = upgrade B <$> l
    else forEach (discover B) (select_kids block_selector parent here i l) (σ, r)
         = Throw InvalidCharacterError.
Proof.
  induction 1 as [| k l Hk _ IH]; intros i σ r Hsub Hpri Hσ.
  - simpl. by exists σ.
  - cbn [select_kids]. rewrite forEach_app, bind_cons, forallb_app, foldl_app.
    specialize (Hk (Some parent) (here ++ [i]) σ r) as Hk'. lapply Hk'; clear Hk'.
    2: { specialize (Hsub 0 k eq_refl). by rewrite Nat.add_0_r in Hsub. }
    intros Hk'. lapply Hk'; clear Hk'.
    2: { intros q. rewrite <- app_assoc. by apply Hpri. }
    intros Hk'. specialize (Hk' Hσ).
    destruct (forallb (valid_name B) (kinds B k)); simpl; [| by rewrite Hk'].
    destruct Hk' as (σ1 & -> & [Hs1 Ho1] & Hσ1 & Hv1). simpl.
    specialize (IH (S i) σ1 (foldl (add_kind B) r (kinds B k))). lapply IH; clear IH.
    2: { intros j k' Hj. rewrite Hs1. replace (S i + j) with (i + S j) by lia.
         by apply Hsub. }
    intros IH. lapply IH; clear IH.
    2: { intros j q Hj. rewrite Ho1; [apply Hpri; lia |].
         intros q'. rewrite <- app_assoc. apply sibling_paths_ne. lia. }
    intros IH. specialize (IH Hσ1).
    destruct (forallb (valid_name B) (l ≫= kinds B)); [| done].
    destruct IH as (σ2 & -> & Hs2 & Ho2 & Hσ2 & Hv2).
    exists σ2. split; [done |]. split; [congruence |]. split; [| split; [done |]].
    + intros p Hp. rewrite Ho2, Ho1; [done | |].
      * intros q. rewrite <- app_assoc. by apply Hp.
      * intros j q Hj. apply Hp. lia.
    + simpl. rewrite Hv2. rewrite (view_ext _ (cells σ1)); [by rewrite Hv1 |].
      intros q. apply Ho2. intros j q' Hj. rewrite <- app_assoc.
      apply sibling_paths_ne. lia.
Qed.

Lemma bind_Ok {A B} (a : A) (f : A → result B) : Ok a ≫= f = f a.
Proof. done. Qed.

Lemma bind_Throw {A B} e (f : A → result B) : Throw e ≫= f = Throw e.
Proof. done. Qed.

(** The scan of a subtree comes to its recursive description. *)
Lemma scan_node B n :
  ∀ par here, scan_of B n here (select block_selector par here n).
Proof.
  induction n as [s | t a ks IH] using node_ind'; intros par here σ r Hn Hpri Hσ.
  - simpl. exists σ. repeat split; done.
  - destruct (decide (t = "template")) as [-> | Hnt].
    { change (select block_selector par here (Elem "template" a ks)) with (@nil path).
      change (kinds B (Elem "template" a ks)) with (@nil string).
      change (upgrade B (Elem "template" a ks)) with (Elem "template" a ks).
      cbn [forallb forEach foldl]. exists σ. repeat split; try done. by apply view_pristine. }
    assert (light_kids (Elem t a ks) = ks) as Hlight
      by (simpl; by rewrite bool_decide_eq_false_2).
    assert (kinds B (Elem t a ks) =
            (if eligible (Elem t a ks) then [kind B (Elem t a ks)] else []) ++ (ks ≫= kinds B))
      as Hkinds by (cbn [kinds]; by rewrite bool_decide_eq_false_2).
    assert (upgrade B (Elem t a ks) =
            if eligible (Elem t a ks) then custom B (Elem t a ks)
            else Elem t a (upgrade B <$> ks))
      as Hup by (cbn [upgrade]; by rewrite bool_decide_eq_false_2).
    rewrite select_Elem, forEach_app, Hlight, Hkinds, Hup.
    assert (∀ σ0 r0,
      subtree (skel σ0) here = Some (Elem t a ks) →
      (∀ j q, cells σ0 !! (here ++ [j] ++ q) = None) → no_inner σ0 →
      if forallb (valid_name B) (ks ≫= kinds B)
      then ∃ σ', forEach (discover B)
                   (select_kids block_selector (Elem t a ks) here 0 ks) (σ0, r0)
                 = Ok (σ', foldl (add_kind B) r0 (ks ≫= kinds B)) ∧
                 skel σ' = skel σ0 ∧
                 (∀ p, (∀ j q, p ≠ here ++ [j] ++ q) → cells σ' !! p = cells σ0 !! p) ∧
                 no_inner σ' ∧
                 view_kids (cells σ') here 0 ks = upgrade B <$> ks
      else forEach (discover B)
             (select_kids block_selector (Elem t a ks) here 0 ks) (σ0, r0)
           = Throw InvalidCharacterError) as Hkids.
    { intros σ0 r0 Hn0 Hpri0 Hσ0.
      pose proof (scan_kids B (Elem t a ks) here ks IH 0 σ0 r0) as H.
      lapply H; clear H.
      2: { intros j k Hj. rewrite subtree_app, Hn0. simpl. by rewrite Hj. }
      intros H. lapply H; clear H; [| by intros j q _].
      intros H. specialize (H Hσ0). destruct (forallb (valid_name B) (ks ≫= kinds B)); [| done].
      destruct H as (σ' & ? & ? & Ho & ? & ?). exists σ'. repeat split; try done.
      intros p Hp. apply Ho. intros j q _. apply Hp. }
    assert (∀ p, (∀ j q, p ≠ here ++ [j] ++ q) ↔ (p = here ∨ ∀ q, p ≠ here ++ q)) as Hout.
    { intros p. split.
      - intros H. destruct (decide (p = here)) as [| Hne]; [by left | right].
        intros [| j q] ->; [by rewrite app_nil_r in Hne | by apply (H j q)].
      - intros [-> | H] j q; [apply app_cons_ne | apply H]. }
    destruct (block_selector par (Elem t a ks)) eqn:Hsel.
    + rewrite (block_selector_parent par) in Hsel. cbn [forEach]. unfold eligible.
      rewrite Hsel. rewrite (discover_step B σ r here (Elem t a ks)) by done.
      destruct (marked (Elem t a ks)) eqn:Hm; cbn [negb andb app forallb].
      * specialize (Hkids σ r Hn). lapply Hkids; clear Hkids.
        2: { intros j q. apply Hpri. }
        intros Hkids. specialize (Hkids Hσ).
        destruct (forallb (valid_name B) (ks ≫= kinds B)); [| by rewrite bind_Ok].
        destruct Hkids as (σ' & HE & Hs & Ho & Hσ' & Hv). exists σ'.
        rewrite bind_Ok. split; [done |]. split; [| split; [done |]].
        -- split; [done |]. intros p Hp. apply Ho. apply Hout. by right.
        -- rewrite view_Elem. unfold cell_of. rewrite Ho by (apply Hout; by left).
           specialize (Hpri []). rewrite app_nil_r in Hpri. rewrite Hpri. simpl.
           by rewrite Hv, app_nil_r.
      * destruct (valid_name B (kind B (Elem t a ks))) eqn:Hvalid; [| done].
        cbn [andb foldl app].
        specialize (Hkids (put_cell σ here (upgraded_cell B (Elem t a ks)))
                      (add_kind B r (kind B (Elem t a ks))) Hn).
        lapply Hkids; clear Hkids.
        2: { intros j q. simpl. rewrite lookup_insert_ne by apply app_cons_ne. apply Hpri. }
        intros Hkids. lapply Hkids; clear Hkids; [| by apply no_inner_put].
        intros Hkids. destruct (forallb (valid_name B) (ks ≫= kinds B)); [| by rewrite bind_Ok].
        destruct Hkids as (σ' & HE & Hs & Ho & Hσ' & Hv). exists σ'.
        rewrite bind_Ok. split; [done |]. split; [| split; [done |]].
        -- split; [done |]. intros p Hp. rewrite Ho by (apply Hout; by right).
           simpl. apply lookup_insert_ne. intros ->. apply (Hp []). by rewrite app_nil_r.
        -- rewrite view_Elem. unfold cell_of. rewrite Ho by (apply Hout; by left).
           simpl. by rewrite lookup_insert_eq.
    + rewrite (block_selector_parent par) in Hsel. unfold eligible. rewrite Hsel.
      cbn [forEach andb app].
      specialize (Hkids σ r Hn). lapply Hkids; clear Hkids.
      2: { intros j q. apply Hpri. }
      intros Hkids. specialize (Hkids Hσ).
      destruct (forallb (valid_name B) (ks ≫= kinds B)); [| by rewrite bind_Ok].
      destruct Hkids as (σ' & HE & Hs & Ho & Hσ' & Hv). exists σ'.
      rewrite bind_Ok. split; [done |]. split; [| split; [done |]].
      * split; [done |]. intros p Hp. apply Ho. apply Hout. by right.
      * rewrite view_Elem. unfold cell_of. rewrite Ho by (apply Hout; by left).
        specialize (Hpri []). rewrite app_nil_r in Hpri. rewrite Hpri. simpl.
        by rewrite Hv, app_nil_r.
Qed.

(** [getBlockResources] comes to the recursive description [discovered]. *)
Lemma getBlockResources_discovered B doc :
  getBlockResources B doc = discovered B doc.
Proof.
  unfold getBlockResources, discovered, querySelectorAll.
  pose proof (scan_node B doc None [] (pristine doc) (Resources [] [])) as H.
  lapply H; clear H; [| done]. intros H. lapply H; clear H; [| done].
  intros H. lapply H; clear H; [| by intros p c].
  intros H. destruct (forallb (valid_name B) (kinds B doc)); [| by rewrite H].
  destruct H as (σ' & -> & [Hs _] & _ & Hv). rewrite bind_Ok. cbn beta iota.
  unfold document. rewrite Hs. simpl skel. by rewrite Hv.
Qed.

Lemma ascii_lowercase_kind B n :
  ascii_lowercase (kind B n) =
  "aem-" +:+ ascii_lowercase (or_else (assoc_get "class" (attrs_of n))
                                (toLowerCase (unicode_lower B) (tag_of n))).
Proof. done. Qed.

(** An upgraded element is not selected again. *)
Lemma custom_not_eligible B n : eligible (custom B n) = false.
Proof.
  unfold eligible, custom, block_selector, has_tag. rewrite ascii_lowercase_kind.
  rewrite !bool_decide_eq_false_2; [done | | by intros ? ..].
  simpl. by intros [? ?].
Qed.

Lemma eligible_set_slot v n : eligible (set_slot v n) = eligible n.
Proof.
  destruct n as [s | t a ks]; [done |].
  unfold eligible, block_selector, marked, has_class, classList, has_tag. simpl.
  by rewrite !assoc_get_set_ne by done.
Qed.

Lemma kinds_set_slot B v n : kinds B (set_slot v n) = kinds B n.
Proof.
  destruct n as [s | t a ks]; [done |].
  change (set_slot v (Elem t a ks)) with (Elem t (assoc_set "slot" v a) ks).
  cbn [kinds]. rewrite <- (eligible_set_slot v (Elem t a ks)). simpl set_slot.
  unfold kind. simpl. by rewrite !assoc_get_set_ne by done.
Qed.

Lemma bind_kinds_nil B (l : list node) :
  forallb (λ k, bool_decide (kinds B k = [])) l = true → l ≫= kinds B = [].
Proof.
  induction l as [| k l IH]; [done |]. cbn [forallb].
  intros [Hk Hl]%andb_prop. rewrite bind_cons, IH by done.
  apply bool_decide_eq_true_1 in Hk. by rewrite Hk.
Qed.

Lemma kinds_custom B n :
  forallb (λ k, bool_decide (kinds B k = []))
    (reparse B (ascii_lowercase (kind B n)) (kids_of n)) = true →
  kinds B (custom B n) = [].
Proof.
  intros H. unfold custom. cbn [kinds]. fold (custom B n). rewrite custom_not_eligible.
  rewrite (bool_decide_eq_false_2 (ascii_lowercase (kind B n) = "template"))
    by (rewrite ascii_lowercase_kind; simpl; discriminate).
  cbn [app]. apply bind_kinds_nil in H. revert H.
  induction (reparse B _ (kids_of n)) as [| k l IH]; [done |].
  rewrite fmap_cons, !bind_cons, kinds_set_slot.
  intros [-> Hl]%app_eq_nil. by rewrite IH.
Qed.

(** After the scan of a flat document no eligible container is left. *)
Lemma kinds_upgrade_flat B n : flat B n = true → kinds B (upgrade B n) = [].
Proof.
  induction n as [s | t a ks IH] using node_ind'; [done |].
  cbn [flat upgrade]. destruct (eligible (Elem t a ks)) eqn:He.
  - intros H. by apply kinds_custom.
  - destruct (bool_decide (t = "template")) eqn:Ht.
    + intros _. cbn [kinds]. by rewrite He, Ht.
    + intros H. cbn [kinds]. rewrite Ht.
      assert (eligible (Elem t a (upgrade B <$> ks)) = false) as -> by exact He.
      cbn [app]. revert H. induction IH as [| k l Hk _ IHl]; [done |].
      cbn [forallb]. intros [Hf Hl]%andb_prop.
      by rewrite fmap_cons, bind_cons, Hk, IHl.
Qed.

Lemma upgrade_no_kinds B n : kinds B n = [] → upgrade B n = n.
Proof.
  induction n as [s | t a ks IH] using node_ind'; [done |].
  cbn [kinds upgrade]. destruct (eligible (Elem t a ks)); [done |].
  destruct (bool_decide (t = "template")); [done |].
  cbn [app]. intros H. f_equal.
  induction IH as [| k l Hk _ IHl]; [done |].
  rewrite bind_cons in H. apply app_eq_nil in H as [Hk' Hl].
  by rewrite fmap_cons, Hk, IHl.
Qed.

(** ** [getBlockResources]: the status of a container *)

Lemma getAttribute_put_ne σ p q c name :
  p ≠ q → getAttribute (put_cell σ p c) q name = getAttribute σ q name.
Proof. intros H. unfold getAttribute. by rewrite cell_at_put_ne. Qed.

Lemma getAttribute_setAttribute σ p name v :
  getAttribute (setAttribute σ p name v) p name = Some v.
Proof.
  unfold getAttribute, setAttribute. rewrite cell_at_put_eq. simpl.
  apply assoc_get_set_eq.
Qed.

Lemma getAttribute_setAttribute_ne σ p q name name' v :
  p ≠ q → getAttribute (setAttribute σ p name' v) q name = getAttribute σ q name.
Proof. intros H. unfold setAttribute. by apply getAttribute_put_ne. Qed.

(** The element made in the place of a container leaves the attributes of
    the container, and every other element, as they were. *)
Lemma transformToCustomElement_attributes B σ block customElement σ' :
  transformToCustomElement B σ block = Ok (customElement, σ') →
  ∀ q name, getAttribute σ' q name = getAttribute σ q name.
Proof.
  unfold transformToCustomElement, createElement.
  destruct (valid_name B _); [| done]. cbn [mbind result_bind].
  unfold replaceChild. destruct (has_parent σ block); [| done]. cbn [mbind result_bind].
  intros [= _ <-] q name. unfold leave.
  destruct (decide (block = q)) as [<- | Hne].
  - unfold getAttribute. rewrite !cell_at_put_eq. done.
  - by rewrite !getAttribute_put_ne.
Qed.

(** The step of the loop at a container that is not marked: the status is
    set to [loading], the container is transformed, the status is set to
    [loaded]. *)
Lemma discover_transitions B σ r block σ' r' :
  in_flight (getAttribute σ block "data-status") = false →
  discover B (σ, r) block = Ok (σ', r') →
  ∃ customElement σ1,
    getAttribute (setAttribute σ block "data-status" "loading") block "data-status"
    = Some "loading" ∧
    transformToCustomElement B (setAttribute σ block "data-status" "loading") block
    = Ok (customElement, σ1) ∧
    getAttribute σ1 block "data-status" = Some "loading" ∧
    σ' = setAttribute σ1 block "data-status" "loaded" ∧
    getAttribute σ' block "data-status" = Some "loaded".
Proof.
  intros Hs. unfold discover. rewrite Hs.
  destruct (transformToCustomElement B _ block) as [[customElement σ1] | e] eqn:E; [| done].
  cbn [mbind result_bind]. intros [= <- <-]. exists customElement, σ1.
  split; [apply getAttribute_setAttribute |]. split; [done |]. split.
  - rewrite (transformToCustomElement_attributes _ _ _ _ _ E).
    apply getAttribute_setAttribute.
  - split; [done | apply getAttribute_setAttribute].
Qed.

(** A step of the loop leaves the status of every other element alone. *)
Lemma discover_frame B σ r block σ' r' q :
  discover B (σ, r) block = Ok (σ', r') → q ≠ block →
  getAttribute σ' q "data-status" = getAttribute σ q "data-status".
Proof.
  intros H Hq. destruct (in_flight (getAttribute σ block "data-status")) eqn:Hs.
  - unfold discover in H. rewrite Hs in H. by injection H as <- <-.
  - destruct (discover_transitions _ _ _ _ _ _ Hs H) as (c & σ1 & _ & E & _ & -> & _).
    rewrite getAttribute_setAttribute_ne by done.
    rewrite (transformToCustomElement_attributes _ _ _ _ _ E).
    by rewrite getAttribute_setAttribute_ne.
Qed.

(** The loop over a list without repetition: at the end every container of
    the list that was not marked is [loaded], and nothing else changed its
    status. *)
Lemma forEach_discover_status B l :
  NoDup l →
  ∀ σ r σ' r', forEach (discover B) l (σ, r) = Ok (σ', r') →
  ∀ q, getAttribute σ' q "data-status" =
       if bool_decide (q ∈ l) && negb (in_flight (getAttribute σ q "data-status"))
       then Some "loaded" else getAttribute σ q "data-status".
Proof.
  induction 1 as [| p l Hp Hl IH]; intros σ r σ' r'.
  - by intros [= <- <-] q.
  - cbn [forEach]. destruct (discover B (σ, r) p) as [[σ1 r1] | e] eqn:E; [| done].
    cbn [mbind result_bind]. intros H q. rewrite (IH _ _ _ _ H q).
    destruct (decide (q = p)) as [-> | Hne].
    + rewrite (bool_decide_eq_false_2 (p ∈ l)) by done.
      rewrite (bool_decide_eq_true_2 (p ∈ p :: l)) by left. cbn [andb].
      destruct (in_flight (getAttribute σ p "data-status")) eqn:Hs; cbn [negb].
      * unfold discover in E. rewrite Hs in E. by injection E as <- <-.
      * by destruct (discover_transitions _ _ _ _ _ _ Hs E) as (? & ? & _ & _ & _ & _ & ->).
    + rewrite (discover_frame _ _ _ _ _ _ _ E Hne).
      destruct (decide (q ∈ l)) as [Hin | Hin].
      * rewrite !bool_decide_eq_true_2; [done | by right | done].
      * rewrite !bool_decide_eq_false_2; [done | | done].
        by intros [? | ?]%elem_of_cons.
Qed.

(** C3, as corrected.  For a flat document (the markup copied into an
    upgraded element holds no eligible container) a second run of
    [getBlockResources] leaves the document as the first run left it and
    returns two empty sets.  In every document: the loop skips a container
    whose status is [loading] or [loaded]; it never selects an element the
    scan has upgraded; at a container that is not marked it sets the status
    to [loading], transforms the container and sets the status to [loaded];
    and in a scan that returns, every container is met once, the step of one
    container leaves the status of the others alone, and at the end every
    container that was not marked is [loaded]. *)
Theorem rescan_of_flat_document_finds_nothing
    (B : browser) (doc doc1 : node) (r1 : resources) :
  flat B doc = true →
  getBlockResources B doc = Ok (doc1, r1) →
  getBlockResources B doc1 = Ok (doc1, Resources [] []) ∧
  (∀ σ r block, in_flight (getAttribute σ block "data-status") = true →
                discover B (σ, r) block = Ok (σ, r)) ∧
  (∀ par n, block_selector par (custom B n) = false) ∧
  (∀ σ r block σ' r',
     in_flight (getAttribute σ block "data-status") = false →
     discover B (σ, r) block = Ok (σ', r') →
     ∃ customElement σ1,
       getAttribute (setAttribute σ block "data-status" "loading") block "data-status"
       = Some "loading" ∧
       transformToCustomElement B (setAttribute σ block "data-status" "loading") block
       = Ok (customElement, σ1) ∧
       getAttribute σ1 block "data-status" = Some "loading" ∧
       σ' = setAttribute σ1 block "data-status" "loaded" ∧
       getAttribute σ' block "data-status" = Some "loaded") ∧
  (∀ σ r block σ' r' other,
     discover B (σ, r) block = Ok (σ', r') → other ≠ block →
     getAttribute σ' other "data-status" = getAttribute σ other "data-status") ∧
  (∀ d σ' r',
     forEach (discover B) (querySelectorAll block_selector d) (pristine d, Resources [] [])
     = Ok (σ', r') →
     NoDup (querySelectorAll block_selector d) ∧
     ∀ block, block ∈ querySelectorAll block_selector d →
       getAttribute σ' block "data-status" =
       if in_flight (getAttribute (pristine d) block "data-status")
       then getAttribute (pristine d) block "data-status" else Some "loaded").
Proof.
  intros Hflat. rewrite !getBlockResources_discovered. unfold discovered.
  destruct (forallb (valid_name B) (kinds B doc)); [| done]. intros [= <- <-].
  split; [| split; [| split; [| split; [| split]]]].
  - rewrite kinds_upgrade_flat by done. cbn [forallb foldl].
    by rewrite upgrade_no_kinds by (by apply kinds_upgrade_flat).
  - intros σ r block H. unfold discover. by rewrite H.
  - intros par n. pose proof (custom_not_eligible B n) as H. unfold eligible in H.
    rewrite (block_selector_parent par). unfold custom in *.
    destruct (block_selector None _); [| done]. done.
  - apply discover_transitions.
  - intros σ r block σ' r' other H Hne. by eapply discover_frame.
  - intros d σ' r' H. split; [apply select_NoDup |]. intros block Hin.
    rewrite (forEach_discover_status B _ (select_NoDup _ _ _ _) _ _ _ _ H block).
    rewrite bool_decide_eq_true_2 by done. cbn [andb].
    by destruct (in_flight _).
Qed.

Lemma rescan_of_flat_document_witness :
  getBlockResources (literal_browser (Text ""))
    (upgrade (literal_browser (Text "")) flat_page)
  = Ok (upgrade (literal_browser (Text "")) flat_page, Resources [] []).
Proof.
  apply (rescan_of_flat_document_finds_nothing (literal_browser (Text "")) flat_page
           (upgrade (literal_browser (Text "")) flat_page)
           (foldl (add_kind (literal_browser (Text ""))) (Resources [] [])
              (kinds (literal_browser (Text "")) flat_page))).
  - reflexivity.
  - vm_compute. reflexivity.
Defined.

(** C3, as stated, fails on a container inside a container: the first scan
    copies the inner container, unmarked, into the element that replaces the
    outer one; the second scan finds the copy, transforms it and returns its
    kind again. *)
Lemma rescan_of_nested_containers_transforms_again :
  getBlockResources (literal_browser (Text "")) nested_page =
    Ok (Elem "body" []
          [Elem "aem-outer" [] [Elem "div" [("class", "inner"); ("slot", "item")] [Text "x"]];
           Elem "aem-section-metadata" []
             [Elem "div" [("slot", "item")]
                [Elem "div" [] [Text "Style"]; Elem "div" [] [Text "dark"]]]],
        Resources ["aem-outer"; "aem-inner"; "aem-section-metadata"]
          ["aem-outer"; "aem-inner"]) ∧
  getBlockResources (literal_browser (Text ""))
    (Elem "body" []
       [Elem "aem-outer" [] [Elem "div" [("class", "inner"); ("slot", "item")] [Text "x"]];
        Elem "aem-section-metadata" []
          [Elem "div" [("slot", "item")]
             [Elem "div" [] [Text "Style"]; Elem "div" [] [Text "dark"]]]]) =
    Ok (Elem "body" []
          [Elem "aem-outer" [] [Elem "aem-inner" [] [Text "x"]];
           Elem "aem-section-metadata" []
             [Elem "div" [("slot", "item")]
                [Elem "div" [] [Text "Style"]; Elem "div" [] [Text "dark"]]]],
        Resources ["aem-inner"] ["aem-inner"]).
Proof. split; vm_compute; reflexivity. Qed.

Lemma getBlockResources_templates_witness :
  ["aem-outer"; "aem-inner"] =
    filter (λ t, endsWith t "-metadata" = false)
      ["aem-outer"; "aem-inner"; "aem-section-metadata"] ∧
  ["aem-outer"; "aem-inner"] ⊆ ["aem-outer"; "aem-inner"; "aem-section-metadata"] ∧
  (∀ t, t ∈ ["aem-outer"; "aem-inner"; "aem-section-metadata"] →
        t ∈ ["aem-outer"; "aem-inner"] ∨ endsWith t "-metadata" = true).
Proof.
  apply (getBlockResources_templates_are_non_metadata_components
           (literal_browser (Text "")) nested_page
           (upgrade (literal_browser (Text "")) nested_page)
           (Resources ["aem-outer"; "aem-inner"; "aem-section-metadata"]
              ["aem-outer"; "aem-inner"])).
  vm_compute. reflexivity.
Defined.

(** ** The [Block] constructor *)

Lemma mapM_app {A B} (f : A → option B) l1 l2 :
  mapM f (l1 ++ l2) =
  match mapM f l1, mapM f l2 with
  | Some k1, Some k2 => Some (k1 ++ k2)
  | _, _ => None
  end.
Proof.
  induction l1 as [| a l1 IH]; simpl.
  - by destruct (mapM f l2).
  - destruct (f a); simpl; [| done]. rewrite IH.
    destruct (mapM f l1), (mapM f l2); done.
Qed.

(** What the body of the loop does to an item nothing below which was
    touched. *)
Lemma collect_step B σ es p :
  (∀ q, cells σ !! (p ++ q) = None) →
  collect B true (σ, MapValues es) p =
  match entry_at B (skel σ) p with
  | Some lv => Ok (put_cell σ p (collected_cell (skel σ) p lv), MapValues (set_entry es lv))
  | None => Throw TypeError
  end.
Proof.
  intros Hp. pose proof (Hp []) as H0. rewrite app_nil_r in H0.
  unfold collect, childNodes, tagName, cell_at, cell_of. rewrite H0. simpl.
  rewrite view_kids_pristine, app_nil_r by (intros j q; apply Hp).
  unfold entry_at, node_at. destruct (subtree (skel σ) p) as [x |] eqn:Hx; simpl; [| done].
  unfold label_value. destruct (children (kids_of x)) as [| key [| value rest]]; [done.. |].
  unfold setAttribute, set_innerHTML, collected_cell, set_entry. simpl.
  rewrite cell_at_put_eq, put_cell_put_cell. simpl.
  unfold cell_at, cell_of, node_at. by rewrite H0, Hx.
Qed.

Lemma collect_kids B parent here l :
  Forall (λ k, ∀ par here, collect_of B here (select item_selector par here k)) l →
  ∀ i σ es,
    (∀ j q, i ≤ j → cells σ !! (here ++ [j] ++ q) = None) →
    match mapM (entry_at B (skel σ)) (select_kids item_selector parent here i l) with
    | Some lvs =>
        ∃ σ', forEach (collect B true) (select_kids item_selector parent here i l)
                (σ, MapValues es)
              = Ok (σ', MapValues (foldl set_entry es lvs)) ∧
              skel σ' = skel σ ∧
              (∀ p, (∀ j q, i ≤ j → p ≠ here ++ [j] ++ q) → cells σ' !! p = cells σ !! p) ∧
              ∀ p lv, p ∈ select_kids item_selector parent here i l →
                      entry_at B (skel σ) p = Some lv →
                      cells σ' !! p = Some (collected_cell (skel σ) p lv)
    | None =>
        forEach (collect B true) (select_kids item_selector parent here i l)
          (σ, MapValues es)
        = Throw TypeError
    end.
Proof.
  induction 1 as [| k l Hk _ IH]; intros i σ es Hpri.
  - simpl. exists σ. repeat split; try done. by intros p lv ?%elem_of_nil.
  - cbn [select_kids]. rewrite forEach_app, mapM_app.
    specialize (Hk (Some parent) (here ++ [i]) σ es). lapply Hk; clear Hk.
    2: { intros q. rewrite <- app_assoc. by apply Hpri. }
    intros Hk.
    destruct (mapM (entry_at B (skel σ)) (select item_selector (Some parent) (here ++ [i]) k))
      as [lvs1 |]; [| by rewrite Hk].
    destruct Hk as (σ1 & -> & [Hs1 Ho1] & Hc1). rewrite bind_Ok.
    specialize (IH (S i) σ1 (foldl set_entry es lvs1)). lapply IH; clear IH.
    2: { intros j q Hj. rewrite Ho1; [apply Hpri; lia |].
         intros q'. rewrite <- app_assoc. apply sibling_paths_ne. lia. }
    rewrite Hs1. intros IH.
    destruct (mapM (entry_at B (skel σ)) (select_kids item_selector parent here (S i) l))
      as [lvs2 |]; [| done].
    destruct IH as (σ2 & -> & Hs2 & Ho2 & Hc2). exists σ2.
    rewrite foldl_app. split; [done |]. split; [congruence |]. split.
    + intros p Hp. rewrite Ho2, Ho1; [done | |].
      * intros q. rewrite <- app_assoc. by apply Hp.
      * intros j q Hj. apply Hp. lia.
    + intros p lv [Hin | Hin]%elem_of_app Hlv.
      * rewrite Ho2; [by apply Hc1 |].
        apply elem_of_select in Hin as (q & x & -> & _). intros j q' Hj.
        rewrite <- app_assoc. apply sibling_paths_ne. lia.
      * by apply Hc2.
Qed.

Lemma collect_node B n : ∀ par here, collect_of B here (select item_selector par here n).
Proof.
  induction n as [s | t a ks IH] using node_ind'; intros par here σ es Hpri.
  - simpl. exists σ. repeat split; try done. by intros p lv ?%elem_of_nil.
  - rewrite select_Elem, forEach_app, mapM_app.
    assert (Forall (λ k, ∀ par here, collect_of B here (select item_selector par here k))
              (light_kids (Elem t a ks))) as IH'.
    { simpl. destruct (bool_decide (t = "template")); [constructor | done]. }
    generalize dependent (light_kids (Elem t a ks)). clear IH. intros lk IH.
    assert (∀ p, (∀ j q, 0 ≤ j → p ≠ here ++ [j] ++ q) ↔ (p = here ∨ ∀ q, p ≠ here ++ q))
      as Hout.
    { intros p. split.
      - intros H. destruct (decide (p = here)) as [| Hne]; [by left | right].
        intros [| j q] ->; [by rewrite app_nil_r in Hne | apply (H j q); [lia | done]].
      - intros [-> | H] j q _; [apply app_cons_ne | apply H]. }
    destruct (item_selector par (Elem t a ks)).
    + cbn [forEach mapM]. rewrite collect_step by done.
      destruct (entry_at B (skel σ) here) as [lv |] eqn:Hlv; [| done]. cbn.
      pose proof (collect_kids B (Elem t a ks) here lk IH 0
                    (put_cell σ here (collected_cell (skel σ) here lv))
                    (set_entry es lv)) as H.
      lapply H; clear H.
      2: { intros j q _. simpl. rewrite lookup_insert_ne by apply app_cons_ne. apply Hpri. }
      simpl skel. intros H.
      destruct (mapM (entry_at B (skel σ)) (select_kids item_selector (Elem t a ks) here 0 lk))
        as [lvs |]; [| done].
      destruct H as (σ' & -> & Hs & Ho & Hc). exists σ'.
      split; [done |]. split; [| ].
      * split; [done |]. intros p Hp. rewrite Ho by (apply Hout; by right). simpl.
        apply lookup_insert_ne. intros ->. apply (Hp []). by rewrite app_nil_r.
      * intros p lv' [-> | Hin]%elem_of_cons Hlv'.
        -- rewrite Ho by (apply Hout; by left). simpl. rewrite lookup_insert_eq.
           congruence.
        -- by apply Hc.
    + cbn [forEach mapM app]. rewrite bind_Ok.
      pose proof (collect_kids B (Elem t a ks) here lk IH 0 σ es) as H.
      lapply H; clear H; [| intros j q _; apply Hpri].
      intros H.
      destruct (mapM (entry_at B (skel σ)) (select_kids item_selector (Elem t a ks) here 0 lk))
        as [lvs |]; [| done].
      destruct H as (σ' & -> & Hs & Ho & Hc). exists σ'.
      split; [done |]. split; [| done].
      split; [done |]. intros p Hp. apply Ho. apply Hout. by right.
Qed.

(** ** The [Block] constructor: the two modes *)


Lemma collect_items B this es :
  match mapM (entry_at B this) (querySelectorAll_in item_selector this []) with
  | Some lvs =>
      ∃ σ', forEach (collect B true) (querySelectorAll_in item_selector this [])
              (pristine this, MapValues es)
            = Ok (σ', MapValues (foldl set_entry es lvs)) ∧
            skel σ' = this ∧
            ∀ p lv, p ∈ querySelectorAll_in item_selector this [] →
                    entry_at B this p = Some lv →
                    cells σ' !! p = Some (collected_cell this p lv)
  | None =>
      forEach (collect B true) (querySelectorAll_in item_selector this [])
        (pristine this, MapValues es)
      = Throw TypeError
  end.
Proof.
  unfold querySelectorAll_in. simpl subtree. cbv iota beta.
  pose proof (collect_kids B this [] (light_kids this)) as H. lapply H; clear H.
  2: { apply Forall_forall. intros k _. apply collect_node. }
  intros H. specialize (H 0 (pristine this) es). lapply H; clear H; [| done].
  simpl skel. intros H. destruct (mapM _ _) as [lvs |]; [| done].
  destruct H as (σ' & ? & ? & _ & ?). by exists σ'.
Qed.

Lemma clone_template_throws doc id e : clone_template doc id = Throw e → e = TypeError.
Proof.
  unfold clone_template, template_content. destruct (querySelector _ _); [| done].
  destruct (subtree _ _); [| by intros [= <-]]. destruct (has_tag _ _); [done |].
  by intros [= <-].
Qed.

Lemma label_value_short B p x :
  length (children (kids_of x)) < 2 → label_value B p x = None.
Proof.
  unfold label_value. destruct (children (kids_of x)) as [| ? [| ? ?]]; simpl; [done.. |]. lia.
Qed.

(** C5: in mapped mode, an item with fewer than two child elements makes the
    construction throw a [TypeError]: no component and no mapping come out
    of it.  This holds of every such input, so of some. *)
Theorem Block_constructor_throws_on_malformed_item (B : browser) (doc this : node) :
  (∃ p x, p ∈ querySelectorAll_in item_selector this [] ∧ subtree this p = Some x ∧
          length (children (kids_of x)) < 2) →
  Block_constructor B doc true this = Throw TypeError.
Proof.
  intros (p & x & Hp & Hx & Hlen). unfold Block_constructor.
  destruct (clone_template doc _) as [shadow | e] eqn:Hs.
  2: { apply clone_template_throws in Hs as ->. done. }
  rewrite bind_Ok. pose proof (collect_items B this []) as H.
  destruct (mapM _ _) as [lvs |] eqn:Hm; [| by rewrite H].
  apply mk_is_Some, mapM_is_Some_1 in Hm. rewrite Forall_forall in Hm.
  destruct (Hm p Hp) as [lv Hlv]. unfold entry_at in Hlv. simpl in Hlv.
  rewrite Hx in Hlv. simpl in Hlv. by rewrite label_value_short in Hlv.
Qed.

Lemma Block_constructor_malformed_witness :
  Block_constructor (literal_browser malformed_block) metadata_page true malformed_block
  = Throw TypeError.
Proof.
  apply Block_constructor_throws_on_malformed_item.
  exists [1], (Elem "div" [("slot", "item")] [Elem "div" [] [Text "Color"]]).
  split; [| split].
  - vm_compute. apply list_elem_of_In. right. left. reflexivity.
  - reflexivity.
  - vm_compute. lia.
Defined.








(** ** [buildHeroBlock] *)

Lemma without_Elem dead here t a ks :
  without dead here (Elem t a ks) =
  if bool_decide (here ∈ dead) then [] else [Elem t a (without_kids dead here 0 ks)].
Proof.
  simpl. case_bool_decide; [done |]. do 2 f_equal.
  generalize 0. induction ks as [| k ks IH]; intros i; simpl; [done |]. by rewrite IH.
Qed.

Lemma has_parent_no_inner σ p :
  no_inner σ → c_out (cell_at σ p) = None → has_parent σ p = true.
Proof.
  intros Hσ Hc. unfold has_parent. rewrite Hc.
  destruct (parent_path p) as [q |]; [| done]. unfold cell_at, cell_of.
  destruct (cells σ !! q) as [c |] eqn:E; simpl; [| done]. by rewrite (Hσ _ _ E).
Qed.

(** Where the store only holds removed elements, the view is the tree
    without them. *)
Lemma view_without cs dead n :
  ∀ here,
    (∀ r, match cs !! (here ++ r) with
          | Some c => c_out c = Some [] ∧ here ++ r ∈ dead
          | None => here ++ r ∉ dead
          end) →
    view cs here n = without dead here n.
Proof.
  induction n as [s | t a ks IH] using node_ind'; intros here H; [done |].
  rewrite view_Elem, without_Elem. unfold cell_of.
  pose proof (H []) as H0. rewrite app_nil_r in H0.
  destruct (cs !! here) as [c |] eqn:E; simpl.
  - destruct H0 as [-> Hd]. by rewrite bool_decide_eq_true_2.
  - rewrite bool_decide_eq_false_2 by done. rewrite app_nil_r. do 2 f_equal.
    assert (∀ i, view_kids cs here i ks = without_kids dead here i ks) as Hk; [| apply Hk].
    induction IH as [| k l Hk _ IHl]; intros i; simpl; [done |].
    rewrite IHl. f_equal. apply Hk. intros r. rewrite <- app_assoc. apply H.
Qed.

Lemma view_kids_pristine_from cs here l o :
  (∀ j r, o ≤ j → cs !! (here ++ [j] ++ r) = None) → view_kids cs here o l = l.
Proof.
  revert o. induction l as [| k l IH]; intros o H; simpl; [done |].
  rewrite IH by (intros j r Hj; apply H; lia).
  rewrite view_pristine; [done |]. intros r. rewrite <- app_assoc. by apply H.
Qed.

(** The children of a node as the store shows them, when whatever it holds
    sits below the child of index [i]. *)
Lemma view_kids_alter cs here i (g : node → node) l :
  ∀ o, o ≤ i →
    (∀ j r, j ≠ i → cs !! (here ++ [j] ++ r) = None) →
    (∀ k, l !! (i - o) = Some k → view cs (here ++ [i]) k = [g k]) →
    view_kids cs here o l = alter g (i - o) l.
Proof.
  induction l as [| k l IH]; intros o Ho Hne Hi; simpl; [done |].
  destruct (decide (o = i)) as [-> | Hoi].
  - rewrite Nat.sub_diag in *. simpl. rewrite (Hi k eq_refl). simpl. f_equal.
    apply view_kids_pristine_from. intros j r Hj. apply Hne. lia.
  - destruct (i - o) as [| d] eqn:Hd; [lia |]. simpl.
    rewrite view_pristine by (intros r; rewrite <- app_assoc; by apply Hne).
    simpl. f_equal. replace d with (i - S o) by lia. apply IH; [lia | done |].
    intros k' Hk'. apply Hi. by replace (i - S o) with d in Hk' by lia.
Qed.

(** The tree as the store shows it, when whatever it holds sits at or below
    the node at [q]. *)
Lemma view_update_at cs (f : node → node) q :
  ∀ n here x,
    subtree n q = Some x →
    (∀ r, is_Some (cs !! (here ++ r)) → ∃ s, r = q ++ s) →
    view cs (here ++ q) x = [f x] →
    view cs here n = [update_at q f n].
Proof.
  induction q as [| i q IH]; intros n here x Hx Hkeys Hv.
  - simpl in *. rewrite app_nil_r in Hv. by simplify_eq.
  - destruct n as [s | t a ks]; [done |]. simpl in Hx.
    destruct (ks !! i) as [k |] eqn:Hk; [| done].
    rewrite view_Elem. unfold cell_of.
    destruct (cs !! here) as [c |] eqn:E.
    { destruct (Hkeys []) as [s Hs]; [by rewrite app_nil_r, E | done]. }
    simpl. rewrite app_nil_r. do 2 f_equal.
    rewrite (view_kids_alter cs here i (update_at q f) ks 0); [by rewrite Nat.sub_0_r | lia | |].
    + intros j r Hj. destruct (cs !! (here ++ [j] ++ r)) eqn:E'; [| done].
      destruct (Hkeys ([j] ++ r)) as [s Hs]; [by rewrite E' |]. simpl in Hs. congruence.
    + rewrite Nat.sub_0_r, Hk. intros ? [= <-]. apply (IH k (here ++ [i]) x); [done | |].
      * intros r Hr. rewrite <- app_assoc in Hr. destruct (Hkeys _ Hr) as [s Hs].
        simpl in Hs. injection Hs as ->. by exists s.
      * by rewrite <- app_assoc.
Qed.

Lemma view_kids_without cs dead here l i :
  (∀ j r, match cs !! (here ++ [j] ++ r) with
          | Some c => c_out c = Some [] ∧ here ++ [j] ++ r ∈ dead
          | None => here ++ [j] ++ r ∉ dead
          end) →
  view_kids cs here i l = without_kids dead here i l.
Proof.
  intros H. revert i. induction l as [| k l IH]; intros i; simpl; [done |].
  rewrite IH. f_equal. apply view_without. intros r. rewrite <- app_assoc. apply H.
Qed.

Lemma head_Some_elem {A} (l : list A) x : head l = Some x → x ∈ l.
Proof. destruct l; [done |]. intros [= ->]. by left. Qed.

Lemma querySelector_Some m doc p :
  querySelector m doc = Some p →
  ∃ x, subtree doc p = Some x ∧ m (parent_in None doc p) x = true.
Proof.
  intros H%head_Some_elem. apply elem_of_select in H as (q & x & -> & ? & ?). eauto.
Qed.

Lemma querySelector_in_Some m doc e p :
  querySelector_in m doc e = Some p →
  ∃ en j k q x,
    subtree doc e = Some en ∧ kids_of en !! j = Some k ∧ p = e ++ [j] ++ q ∧
    subtree k q = Some x ∧ subtree doc p = Some x ∧
    m (parent_in (Some en) k q) x = true.
Proof.
  intros H%head_Some_elem. unfold querySelectorAll_in in H.
  destruct (subtree doc e) as [en |] eqn:He; [| by apply elem_of_nil in H].
  apply elem_of_select_kids_1 in H as (j & k & Hj & Hp).
  apply elem_of_select in Hp as (q & x & -> & Hx & Hm). simpl in *.
  pose proof (light_kids_lookup _ _ _ Hj) as Hj'.
  exists en, j, k, q, x. rewrite <- app_assoc. repeat split; try done.
  rewrite subtree_app, He. simpl. by rewrite Hj'.
Qed.

Lemma no_inner_pristine doc : no_inner (pristine doc).
Proof. intros p c. unfold pristine. simpl. by rewrite lookup_empty. Qed.

Lemma cell_at_fresh σ p n :
  subtree (skel σ) p = Some n → cells σ !! p = None →
  cell_at σ p = Cell (attrs_of n) None [] [] None.
Proof. intros Hn Hp. unfold cell_at, cell_of, node_at. by rewrite Hn, Hp. Qed.

Lemma remove_fresh σ p n :
  no_inner σ → subtree (skel σ) p = Some n → cells σ !! p = None →
  remove σ p = put_cell σ p (Cell (attrs_of n) None [] [] (Some [])).
Proof.
  intros Hσ Hn Hp. unfold remove.
  rewrite has_parent_no_inner by (by rewrite ?(cell_at_fresh σ p n)).
  unfold leave. by rewrite (cell_at_fresh σ p n).
Qed.

Lemma prepend_fresh σ p n x :
  subtree (skel σ) p = Some n → cells σ !! p = None →
  prepend σ p x = put_cell σ p (Cell (attrs_of n) None [x] [] None).
Proof. intros Hn Hp. unfold prepend. by rewrite (cell_at_fresh σ p n). Qed.

Lemma has_tag_inj t t' n : has_tag t n = true → has_tag t' n = true → t = t'.
Proof.
  destruct n; [done |]. simpl. intros ?%bool_decide_eq_true_1 ?%bool_decide_eq_true_1.
  congruence.
Qed.

(** The promotion: with a picture in a paragraph before the first heading of
    [main], [buildHeroBlock] returns the page in which the hero section,
    holding copies of both, is the first child of [main], and from which the
    paragraph and the heading are gone. *)
Lemma buildHeroBlock_promotes doc main h1 picture :
  querySelector main_selector doc = Some main →
  querySelector_in h1_selector doc main = Some h1 →
  querySelector_in p_picture doc main = Some picture →
  precedes picture h1 = true →
  buildHeroBlock doc = Ok (promoted doc main picture h1).
Proof.
  intros Hmain Hh1 Hpic Hprec. unfold buildHeroBlock. rewrite Hmain, Hh1, Hpic, Hprec.
  f_equal.
  apply querySelector_Some in Hmain as (mn & Hmn & Hmt).
  apply querySelector_in_Some in Hh1 as (en & jh & kh & qh & xh & He & Hjh & -> & _ & Hxh & Hth).
  apply querySelector_in_Some in Hpic
    as (en' & jp & kp & qp & xp & He' & Hjp & -> & Hxp' & Hxp & Htp).
  assert (en' = en) as -> by congruence. assert (mn = en) as -> by congruence.
  unfold p_picture in Htp. apply andb_prop in Htp as [Htp Hpar].
  assert (qp ≠ []) as Hqp.
  { intros ->. simpl in Hpar. by pose proof (has_tag_inj _ _ _ Hpar Hmt). }
  set (pp := removelast (main ++ [jp] ++ qp)).
  assert (pp = main ++ [jp] ++ removelast qp) as Hpp.
  { unfold pp. rewrite !removelast_app; [done.. |]. by destruct qp. }
  assert (∃ pn, subtree doc pp = Some pn ∧ has_tag "p" pn = true) as (pn & Hpn & Hpt).
  { unfold parent_in in Hpar. destruct qp as [| i qp]; [done |].
    destruct (subtree kp (removelast (i :: qp))) as [pn |] eqn:E; [| done].
    exists pn. split; [| done]. rewrite Hpp, subtree_app, He. simpl. by rewrite Hjp. }
  assert (pp ≠ main ++ [jh] ++ qh) as Hne1.
  { intros H. rewrite H in Hpn. assert (pn = xh) as -> by congruence.
    by pose proof (has_tag_inj _ _ _ Hpt Hth). }
  assert (main ≠ pp) as Hne2 by (rewrite Hpp; apply app_cons_ne).
  assert (main ≠ main ++ [jh] ++ qh) as Hne3 by apply app_cons_ne.
  rewrite (remove_fresh (pristine doc) pp pn); [| apply no_inner_pristine | done | done].
  rewrite (remove_fresh _ (main ++ [jh] ++ qh) xh);
    [| apply no_inner_put; [apply no_inner_pristine | done] | done
     | by simpl; rewrite lookup_insert_ne].
  rewrite (prepend_fresh _ main en); [| done | by simpl; rewrite !lookup_insert_ne].
  unfold document. simpl.
  set (cs := <[main := _]> _).
  erewrite (view_update_at cs _ main doc [] en); [done | done | |].
  - intros r [c Hc]. simpl in Hc. unfold cs in Hc.
    rewrite !lookup_insert in Hc.
    case_decide as H1; [subst r; exists []; by rewrite app_nil_r |].
    case_decide as H2; [subst r; by eexists |].
    case_decide as H3; [subst r; rewrite Hpp; by eexists |].
    by rewrite lookup_empty in Hc.
  - simpl. destruct en as [s | t a ks]; [done |]. rewrite view_Elem. unfold cell_of.
    assert (cs !! main = Some (Cell a None
              [hero_section (cloneNode doc (main ++ [jp] ++ qp))
                 (cloneNode doc (main ++ [jh] ++ qh))] [] None)) as ->
      by apply lookup_insert_eq.
    simpl. rewrite app_nil_r. do 3 f_equal.
    apply view_kids_without. intros j r. unfold cs. rewrite lookup_insert_ne by apply app_cons_ne.
    rewrite !lookup_insert. fold pp. case_decide as H1.
    + split; [done |]. rewrite <- H1. apply elem_of_cons. right. by left.
    + case_decide as H2.
      * split; [done |]. rewrite <- H2. by left.
      * rewrite lookup_empty.
        intros [Heq | [Heq | Hnil%elem_of_nil]%elem_of_cons]%elem_of_cons; done.
Qed.

(** *** A second run *)

Lemma subtree_update_at f q :
  ∀ n x, subtree n q = Some x → subtree (update_at q f n) q = Some (f x).
Proof.
  induction q as [| i q IH]; intros n x Hx; simpl in *; [by simplify_eq |].
  destruct n as [s | t a ks]; [done |]. simpl in *.
  destruct (ks !! i) as [k |] eqn:Hk; [| done].
  rewrite list_lookup_alter_eq, Hk. simpl. by apply IH.
Qed.

Lemma select_main_parent par par' here n :
  select main_selector par here n = select main_selector par' here n.
Proof. destruct n as [s | t a ks]; [done |]. by rewrite !select_Elem. Qed.

Lemma head_app_Some {A} (l1 l2 : list A) x : head l1 = Some x → head (l1 ++ l2) = Some x.
Proof. by destruct l1. Qed.

Lemma select_kids_parent_main n n' here i l :
  select_kids main_selector n here i l = select_kids main_selector n' here i l.
Proof.
  revert i. induction l as [| k l IH]; intros i; simpl; [done |].
  by rewrite IH, (select_main_parent (Some n) (Some n')).
Qed.

Lemma first_main_kids (g : node → node) i here p parent :
  (∀ k par, head (select main_selector par (here ++ [i]) k) = Some p →
            head (select main_selector par (here ++ [i]) (g k)) = Some p) →
  (∃ r, p = here ++ [i] ++ r) →
  ∀ l o, o ≤ i →
    head (select_kids main_selector parent here o l) = Some p →
    head (select_kids main_selector parent here o (alter g (i - o) l)) = Some p.
Proof.
  intros Hg [r Hp]. induction l as [| k l IH]; intros o Ho Hhead; [done |].
  simpl in Hhead. destruct (decide (o = i)) as [-> | Hne].
  - rewrite Nat.sub_diag. simpl.
    destruct (select main_selector (Some parent) (here ++ [i]) k) as [| p0 l0] eqn:E.
    + simpl in Hhead. apply head_Some_elem, elem_of_select_kids in Hhead
        as (j & r' & Hj & Hr').
      rewrite Hp in Hr'. apply app_inv_head in Hr'. injection Hr' as ? _. lia.
    + simpl in Hhead. injection Hhead as Heq. rewrite Heq in E.
      apply head_app_Some, Hg. by rewrite E.
  - destruct (i - o) as [| d] eqn:Hd; [lia |]. simpl.
    destruct (select main_selector (Some parent) (here ++ [o]) k) as [| p0 l0] eqn:E.
    + simpl in *. replace d with (i - S o) by lia. apply IH; [lia | done].
    + simpl in Hhead. injection Hhead as Heq. rewrite Heq in E. exfalso.
      assert (p ∈ select main_selector (Some parent) (here ++ [o]) k) as Hin
        by (rewrite E; by left).
      apply elem_of_select in Hin as (q' & _ & Hq & _). rewrite Hp, <- app_assoc in Hq.
      apply app_inv_head in Hq. injection Hq as ? _. lia.
Qed.

(** The first [main] of a page stays the first when something changes below
    it. *)
Lemma first_main_update_at (f : node → node) q :
  (∀ x, is_element x = true → tag_of (f x) = tag_of x ∧ is_element (f x) = true) →
  ∀ n par here,
    head (select main_selector par here n) = Some (here ++ q) →
    head (select main_selector par here (update_at q f n)) = Some (here ++ q).
Proof.
  intros Hf. induction q as [| i q IH]; intros n par here Hhead.
  - simpl.
    assert (main_selector par n = true) as Hm.
    { destruct n as [s | t a ks].
      - simpl in Hhead. by destruct (main_selector par (Text s)).
      - rewrite select_Elem in Hhead. destruct (main_selector par (Elem t a ks)); [done |].
        simpl in Hhead. apply head_Some_elem, elem_of_select_kids in Hhead
          as (j & r & _ & Hr).
        rewrite app_nil_r in Hr. by apply app_cons_ne in Hr. }
    assert (main_selector par (f n) = true) as Hm'.
    { destruct (Hf n) as [Ht He]; [by destruct n |].
      unfold main_selector, has_tag in *.
      destruct (f n) as [s' | t' a' ks']; destruct n as [s | t a ks]; simpl in *;
        try done. by subst. }
    rewrite app_nil_r. destruct (f n) as [s | t a ks]; [done |].
    rewrite select_Elem, Hm'. done.
  - destruct n as [s | t a ks].
    { by simpl in Hhead. }
    rewrite select_Elem in Hhead. simpl update_at. rewrite select_Elem.
    change (main_selector par (Elem t a (alter (update_at q f) i ks)))
      with (main_selector par (Elem t a ks)).
    destruct (main_selector par (Elem t a ks)).
    { simpl in Hhead. injection Hhead as H. rewrite <- (app_nil_r here) in H at 1.
      by apply app_inv_head in H. }
    cbn [light_kids] in *. destruct (bool_decide (t = "template")); [done |].
    simpl in *. rewrite (select_kids_parent_main _ (Elem t a ks)).
    rewrite <- (Nat.sub_0_r i) at 1.
    apply (first_main_kids (update_at q f) i here (here ++ i :: q)); [| by eexists | lia | done].
    intros k par' Hk. specialize (IH k par' (here ++ [i])).
    rewrite <- app_assoc in IH. by apply IH.
Qed.

Lemma head_sorted_least (l : list path) h x :
  StronglySorted before l → head l = Some h → x ∈ l → h = x ∨ before h x.
Proof.
  destruct l as [| h' l]; [done |]. intros Hs [= ->] Hx.
  apply StronglySorted_cons in Hs as [Hall _]. rewrite Forall_forall in Hall.
  apply elem_of_cons in Hx as [-> | Hx]; [by left | right; by apply Hall].
Qed.

Lemma not_before_least h t p :
  h = t ∨ before h t → before t p → precedes p h = false.
Proof.
  intros [-> | Hht] Htp; apply precedes_asym; [done |]. by eapply precedes_trans.
Qed.

(** After a promotion, with no picture in a paragraph inside the promoted
    picture, [buildHeroBlock] finds no picture before the first heading. *)
Lemma buildHeroBlock_after_promotion doc main A T K :
  querySelector main_selector doc = Some main →
  has_tag "picture" A = true → has_tag "h1" T = true →
  querySelectorAll_in p_picture A [] = [] →
  buildHeroBlock
    (update_at main (λ m, Elem (tag_of m) (attrs_of m) (hero_section A T :: K)) doc) =
  Ok (update_at main (λ m, Elem (tag_of m) (attrs_of m) (hero_section A T :: K)) doc).
Proof.
  intros Hmain HA HT Hin. set (f := λ m, Elem (tag_of m) (attrs_of m) (hero_section A T :: K)).
  set (doc' := update_at main f doc).
  assert (querySelector main_selector doc' = Some main) as Hmain'.
  { unfold querySelector, querySelectorAll in *.
    apply (first_main_update_at f main); [| done]. by intros [s | t a ks]. }
  apply querySelector_Some in Hmain as (en & Hen & Hmt).
  pose proof (subtree_update_at f main doc en Hen) as Hen'. fold doc' in Hen'.
  unfold buildHeroBlock. rewrite Hmain'.
  unfold querySelector_in, querySelectorAll_in. rewrite Hen'.
  assert (light_kids (f en) = hero_section A T :: K) as ->.
  { destruct en as [s | t a ks]; [done |]. unfold main_selector in Hmt. simpl in Hmt.
    by apply bool_decide_eq_true_1 in Hmt as ->. }
  set (T' := main ++ [0] ++ [1]).
  assert (T' ∈ select_kids h1_selector (f en) main 0 (hero_section A T :: K)) as HT'.
  { apply (elem_of_select_kids_2 _ _ _ _ _ _ 0 (hero_section A T)); [done |].
    apply elem_of_select_reach. exists [1], T. unfold T'. rewrite <- app_assoc. done. }
  destruct (head (select_kids h1_selector _ _ _ _)) as [h1' |] eqn:Eh.
  2: { destruct (select_kids h1_selector _ _ _ _); [by apply elem_of_nil in HT' | done]. }
  destruct (head (select_kids p_picture _ _ _ _)) as [pic' |] eqn:Ep; [| done].
  assert (h1' = T' ∨ before h1' T') as Hleast.
  { eapply head_sorted_least; [| exact Eh | exact HT'].
    apply select_kids_sorted, Forall_forall. intros k _. apply select_sorted. }
  assert (precedes pic' h1' = false) as ->; [| done].
  apply head_Some_elem, elem_of_select_kids_1 in Ep as (j & k & Hj & Hp).
  destruct j as [| j].
  - simpl in Hj. injection Hj as <-.
    apply elem_of_select_reach in Hp as (q & x & -> & Hx & Hm).
    apply andb_prop in Hm as [Hxt Hpar].
    destruct q as [| [| [| i]] q]; simpl in Hx.
    + by simplify_eq.
    + destruct q as [| i' q].
      * simpl in Hx. simplify_eq; done.
      * exfalso. destruct A as [s | ta aa ksa]; [done |].
        assert (i' :: q ∈ querySelectorAll_in p_picture (Elem ta aa ksa) []) as Hc;
          [| by rewrite Hin in Hc; apply elem_of_nil in Hc].
        unfold querySelectorAll_in. cbn [subtree]. cbn [reach] in Hx.
        destruct (light_kids (Elem ta aa ksa) !! i') as [k' |] eqn:Hk'; [| done].
        pose proof (light_kids_lookup _ _ _ Hk') as Hk''. cbn [kids_of] in Hk''.
        apply (elem_of_select_kids_2 _ _ _ _ _ _ i' k'); [done |].
        apply elem_of_select_reach. exists q, x. split; [done |]. split; [done |].
        unfold p_picture. rewrite Hxt. simpl.
        rewrite <- (parent_in_cons (Some (hero_section (Elem ta aa ksa) T)) ta aa ksa i' k' q)
          by done.
        unfold hero_section in Hpar.
        by rewrite (parent_in_cons _ "div" _ _ 0 (Elem ta aa ksa)) in Hpar.
    + destruct q as [| i' q].
      * simpl in Hx. simplify_eq; by pose proof (has_tag_inj _ _ _ Hxt HT).
      * apply (not_before_least _ T'); [done |]. unfold T', before.
        rewrite <- !app_assoc. simpl.
        replace (main ++ 0 :: 1 :: i' :: q) with ((main ++ [0; 1]) ++ i' :: q)
          by (by rewrite <- app_assoc).
        apply precedes_extension.
    + done.
  - apply elem_of_select in Hp as (q & x & -> & _).
    apply (not_before_least _ T'); [done |]. unfold T', before.
    rewrite <- app_assoc. by apply precedes_siblings; lia.
Qed.

Lemma update_at_ext_at (f g : node → node) q :
  ∀ n x, subtree n q = Some x → f x = g x → update_at q f n = update_at q g n.
Proof.
  induction q as [| i q IH]; intros n x Hx Hfg; simpl in *; [by simplify_eq |].
  destruct n as [s | t a ks]; [done |]. simpl in Hx. f_equal.
  destruct (ks !! i) as [k |] eqn:Hk; [| done].
  apply list_eq. intros j. destruct (decide (i = j)) as [<- | Hne].
  - rewrite !list_lookup_alter_eq, Hk. simpl. f_equal. by eapply IH.
  - by rewrite !list_lookup_alter_ne.
Qed.

(** C6, with its side condition: [buildHeroBlock] transforms the page only
    when [main] holds a heading and a picture in a paragraph and the picture comes first
    in document order.  It then returns the page in which a section classed
    [hero], holding copies of the picture and the heading, is the first child
    of [main], and from which the paragraph of the picture and the heading
    are gone.  When the heading or the picture is missing, or the picture
    does not come first, the page is returned as it was.  A second run after
    a promotion changes nothing, provided the promoted picture does not
    itself hold a picture in a paragraph. *)
Theorem buildHeroBlock_promotes_once (doc : node) (main : path) :
  querySelector main_selector doc = Some main →
  (∀ h1 picture,
     querySelector_in h1_selector doc main = Some h1 →
     querySelector_in p_picture doc main = Some picture →
     precedes picture h1 = true →
     buildHeroBlock doc = Ok (promoted doc main picture h1) ∧
     (querySelectorAll_in p_picture (cloneNode doc picture) [] = [] →
      buildHeroBlock (promoted doc main picture h1) = Ok (promoted doc main picture h1))) ∧
  (querySelector_in h1_selector doc main = None ∨
   querySelector_in p_picture doc main = None ∨
   (∃ h1 picture,
      querySelector_in h1_selector doc main = Some h1 ∧
      querySelector_in p_picture doc main = Some picture ∧
      precedes picture h1 = false) →
   buildHeroBlock doc = Ok doc).
Proof.
  intros Hmain. split.
  - intros h1 picture Hh1 Hpic Hprec. split; [by apply buildHeroBlock_promotes |].
    intros Hin.
    pose proof (querySelector_Some _ _ _ Hmain) as (en & Hen & _).
    pose proof (querySelector_in_Some _ _ _ _ Hh1)
      as (e1 & j1 & k1 & q1 & xh & _ & _ & _ & _ & Hxh & Hth).
    pose proof (querySelector_in_Some _ _ _ _ Hpic)
      as (e2 & j2 & k2 & q2 & xp & _ & _ & _ & _ & Hxp & Htp).
    apply andb_prop in Htp as [Htp _].
    assert (promoted doc main picture h1 =
            update_at main
              (λ m, Elem (tag_of m) (attrs_of m)
                      (hero_section (cloneNode doc picture) (cloneNode doc h1)
                       :: without_kids [removelast picture; h1] main 0 (kids_of en)))
              doc) as ->.
    { unfold promoted. by apply (update_at_ext_at _ _ main doc en Hen). }
    apply buildHeroBlock_after_promotion; try done.
    + unfold cloneNode. by rewrite Hxp.
    + unfold cloneNode. by rewrite Hxh.
  - intros H. unfold buildHeroBlock. rewrite Hmain.
    destruct H as [-> | [H | (h1 & picture & -> & -> & ->)]]; [done | | done].
    rewrite H. by destruct (querySelector_in h1_selector doc main).
Qed.

Lemma buildHeroBlock_promotes_once_witness :
  buildHeroBlock hero_page = Ok (promoted hero_page [0; 0] [0; 0; 0; 0; 0] [0; 0; 0; 1]) ∧
  (querySelectorAll_in p_picture (cloneNode hero_page [0; 0; 0; 0; 0]) [] = [] →
   buildHeroBlock (promoted hero_page [0; 0] [0; 0; 0; 0; 0] [0; 0; 0; 1]) =
   Ok (promoted hero_page [0; 0] [0; 0; 0; 0; 0] [0; 0; 0; 1])).
Proof.
  apply (proj1 (buildHeroBlock_promotes_once hero_page [0; 0] eq_refl)); reflexivity.
Defined.

(** C6, as stated, fails on a picture that wraps a paragraph with a picture:
    the second run finds the inner picture of the copy before the heading of
    the hero section and promotes again. *)
Lemma buildHeroBlock_second_run_promotes_again :
  buildHeroBlock odd_hero_page =
    Ok (Elem "main" []
          [Elem "div" [("class", "hero")]
             [Elem "picture" [] [Elem "p" [] [Elem "picture" [] []]];
              Elem "h1" [] [Text "Title"]]]) ∧
  buildHeroBlock
    (Elem "main" []
       [Elem "div" [("class", "hero")]
          [Elem "picture" [] [Elem "p" [] [Elem "picture" [] []]];
           Elem "h1" [] [Text "Title"]]]) =
    Ok (Elem "main" []
          [Elem "div" [("class", "hero")]
             [Elem "picture" [] []; Elem "h1" [] [Text "Title"]];
           Elem "div" [("class", "hero")] [Elem "picture" [] []]]).
Proof. split; vm_compute; reflexivity. Qed.

(** ** [sampleRUM] *)

Lemma value_ind' (P : value → Prop) :
  P VUndefined → P VNull → (∀ b, P (VBool b)) → (∀ n, P (VNum n)) → (∀ n, P (VBigInt n)) →
  (∀ s, P (VStr s)) → (∀ s, P (VClass s)) → (∀ f, P (VFun f)) →
  (∀ fs, Forall (λ kv, P kv.2) fs → P (VObj fs)) → P VCycle →
  ∀ v, P v.
Proof.
  intros H1 H2 H3 H4 H5 H6 H7 H8 H9 H10. fix IH 1.
  intros [| | b | n | n | s | s | f | fs |];
    [apply H1 | apply H2 | apply H3 | apply H4 | apply H5 | apply H6 | apply H7 | apply H8 |
     | apply H10].
  apply H9. induction fs as [| [k v] fs IHfs]; constructor; [apply IH | apply IHfs].
Qed.

Lemma written_field_get w k fs : written_field w k fs = assoc_get k fs ≫= w.
Proof.
  induction fs as [| [k' v'] fs IH]; [done |]. simpl.
  by destruct (decide (k' = k)).
Qed.

Lemma written_props_names w fs ks k j : (k, j) ∈ written_props w fs ks → k ∈ ks.
Proof.
  induction ks as [| k' ks IH]; simpl; [by intros ?%elem_of_nil |].
  destruct (written_field w k' fs).
  - intros [?|?]%elem_of_cons; [simplify_eq; left | right; auto].
  - right; auto.
Qed.

(** The object written holds, under each listed name, what is written for
    the first field of that name. *)
Lemma written_props_get w fs ks k :
  assoc_get k (written_props w fs ks) = if decide (k ∈ ks) then written_field w k fs else None.
Proof.
  induction ks as [| k' ks IH]; [done |]. cbn [written_props].
  destruct (decide (k' = k)) as [-> | Hne].
  - rewrite (decide_True (P := k ∈ k :: ks)) by left.
    destruct (written_field w k fs) as [j |] eqn:E.
    + simpl. by rewrite decide_True.
    + rewrite IH. destruct (decide (k ∈ ks)); congruence.
  - assert (assoc_get k (written_props w fs ks) =
            if decide (k ∈ k' :: ks) then written_field w k fs else None) as H.
    { rewrite IH. destruct (decide (k ∈ ks)) as [Hin | Hin].
      - rewrite decide_True; [done | by right].
      - rewrite decide_False; [done |]. by intros [? | ?]%elem_of_cons. }
    destruct (written_field w k' fs); [| done]. simpl. by rewrite decide_False.
Qed.

Lemma first_field_not_callable {A} k (found : value → A) (absent : A) fs :
  (∀ v, callable v = false → found v = absent) →
  forallb (λ kv, negb (bool_decide (kv.1 = k) && callable kv.2)) fs = true →
  first_field k found absent fs = absent.
Proof.
  intros Hfound. induction fs as [| [k' v'] fs IH]; [done |]. cbn [forallb first_field fst snd].
  intros [Hkv Hfs]%andb_prop. destruct (decide (k' = k)) as [-> | Hne]; [| by apply IH].
  apply Hfound. rewrite bool_decide_eq_true_2 in Hkv by done. by destruct (callable v').
Qed.

(** On plain data [JSON.stringify] does not throw and writes what [written]
    describes. *)
Lemma stringify_plain names v :
  plain names v = true → ∀ key, stringify names key v = Ok (written names v).
Proof.
  induction v as [| | b | n | n | s | s | f | fs IH |] using value_ind'; try done.
  cbn [plain]. intros Hp key.
  assert (∀ k, k ∈ names →
               first_field k (stringify names k) (Ok None) fs =
               Ok (written_field (written names) k fs)) as Hfield.
  { intros k Hk. clear key. induction IH as [| [k' v'] fs Hv _ IHfs]; [done |].
    cbn [forallb fst snd] in Hp. apply andb_prop in Hp as [[_ Hv']%andb_prop Hfs].
    cbn [first_field written_field]. destruct (decide (k' = k)) as [-> |]; [| by apply IHfs].
    rewrite bool_decide_eq_true_2 in Hv' by done. by apply Hv. }
  assert (stringify_object (stringify names) fs names =
          Ok (Some (JObj (written_props (written names) fs names)))) as Hobject.
  { unfold stringify_object.
    enough (∀ ks, ks ⊆ names →
                  stringify_props (stringify names) fs ks =
                  Ok (written_props (written names) fs ks)) as -> by done.
    induction ks as [| k ks IHks]; intros Hks; [done |].
    cbn [stringify_props written_props].
    rewrite Hfield by (apply Hks; left).
    rewrite IHks by (intros x Hx; apply Hks; by right).
    by destruct (written_field _ k fs). }
  cbn [stringify written]. rewrite <- Hobject. apply first_field_not_callable.
  - by intros [].
  - clear -Hp. induction fs as [| kv fs IHfs]; [done |]. cbn [forallb] in *.
    apply andb_prop in Hp as [[-> _]%andb_prop Hfs]. by rewrite IHfs.
Qed.

Lemma assoc_get_Some_elem {V} k (v : V) l : assoc_get k l = Some v → (k, v) ∈ l.
Proof.
  induction l as [| [k' v'] l IH]; [done |]. simpl.
  destruct (decide (k' = k)) as [-> |]; [intros [= ->]; left | right; auto].
Qed.

Lemma assoc_get_None {V} k (l : list (string * V)) :
  (∀ v, (k, v) ∉ l) → assoc_get k l = None.
Proof.
  intros H. destruct (assoc_get k l) as [v |] eqn:E; [| done].
  by apply assoc_get_Some_elem, H in E.
Qed.

(** In [{...o, ...data}] the last field of a name in [data] wins, and the
    fields [data] does not name stay. *)
Lemma assoc_get_spread k o data :
  assoc_get k (spread o data) =
    match field_of k data with Some v => Some v | None => assoc_get k o end.
Proof.
  unfold spread, field_of. induction data as [| [k' v'] data IH] using rev_ind; [done |].
  rewrite foldl_app, reverse_app. simpl.
  destruct (decide (k' = k)) as [-> | Hne].
  - apply assoc_get_set_eq.
  - by rewrite assoc_get_set_ne.
Qed.

Lemma field_of_None k data : (∀ v, (k, v) ∉ data) → field_of k data = None.
Proof.
  intros H. apply assoc_get_None. intros v Hv. apply (H v). by apply elem_of_reverse.
Qed.

Lemma field_of_Some_elem k v data : field_of k data = Some v → (k, v) ∈ data.
Proof. intros H%assoc_get_Some_elem. by rewrite elem_of_reverse in H. Qed.

Lemma forallb_assoc_set {V} (Q : string * V → bool) k v l :
  Q (k, v) = true → forallb Q l = true → forallb Q (assoc_set k v l) = true.
Proof.
  intros Hkv. induction l as [| [k' v'] l IH]; simpl; [by rewrite Hkv |].
  intros [H1 H2]%andb_prop. destruct (decide (k' = k)); simpl.
  - by rewrite Hkv, H2.
  - by rewrite H1, IH.
Qed.

(** Plain data spread over a plain object gives a plain object. *)
Lemma plain_spread o data :
  plain knownProperties (VObj o) = true → plain knownProperties (VObj data) = true →
  plain knownProperties (VObj (spread o data)) = true.
Proof.
  cbn [plain]. unfold spread. revert o. induction data as [| [k v] data IH]; intros o; [done |].
  cbn [forallb foldl fst snd]. intros Ho [Hkv Hdata]%andb_prop.
  apply IH; [| done]. by apply forallb_assoc_set.
Qed.

(** Rounding does not see how a fraction is written. *)
Lemma fl_Qeq (a b : Q) : (a == b)%Q → fl a = fl b.
Proof. intros H. unfold fl. by rewrite (Qred_complete a b H). Qed.

(** A double times one is the double. *)
Lemma times_one (q : Q) : double q → (times q (inject_Z 1) == q)%Q.
Proof.
  intros Hq. unfold times. rewrite (fl_Qeq (q * inject_Z 1) q); [done |].
  apply Qmult_1_r.
Qed.

Lemma Qlt_bool_forced (q : Q) :
  (q < 1)%Q → double q → Qlt_bool (times q (inject_Z 1)) 1 = true.
Proof.
  intros Hq Hd. unfold Qlt_bool. destruct (Qle_bool 1 (times q (inject_Z 1))) eqn:E; [| done].
  apply Qle_bool_iff in E. exfalso. apply (Qlt_not_le _ _ Hq).
  by rewrite <- (times_one q Hd).
Qed.

Lemma run_case_keeps checkpoint w w' :
  run_case checkpoint w = Ok w' →
  w_beacons w' = w_beacons w ∧ w_hlx w' = w_hlx w.
Proof.
  unfold run_case. destruct (String.eqb checkpoint "cwv"); [by intros [= <-] |].
  destruct (String.eqb checkpoint "lazy"); [| by intros [= <-]].
  destruct (document_head (w_document w)); [by intros [= <-] | done].
Qed.

Local Ltac known := apply (bool_decide_unpack _); vm_compute; exact I.

(** The referrer under one of the three masks is a string. *)
Lemma sanitize_mask loc r f :
  is_mask (Some f) = true → ∃ s, sanitize loc r f = Ok (VStr s).
Proof. destruct f; [by eexists.. | done]. Qed.

(** With one of the three masks and plain data, [sendPing] sends one beacon:
    an object that holds, under each name of the whitelist, what JSON writes
    for the caller's field of that name, or for the loader's when the caller
    has none. *)
Lemma sendPing_body P r f checkpoint data w :
  sanitizeURL r = Some f → is_mask (Some f) = true → plain knownProperties (VObj data) = true →
  ∃ fields referer,
    sendPing P r checkpoint data w =
      Done (log [LogDebug ("ping:" +:+ checkpoint)]
              (sendBeacon ("https://rum.hlx.page/.rum/" +:+ pretty (weight r))
                 (Some (JObj fields)) (ticked w))) ∧
    (∀ k j, (k, j) ∈ fields → k ∈ knownProperties) ∧
    (∀ k, k ∈ knownProperties →
          assoc_get k fields =
          match field_of k data with
          | Some v => written knownProperties v
          | None => assoc_get k (ping_base P r (VStr referer) checkpoint w)
                    ≫= written knownProperties
          end).
Proof.
  intros Hf Hmask Hplain. unfold sendPing. rewrite Hf.
  destruct (sanitize_mask (loc P) r f Hmask) as [s ->].
  rewrite stringify_plain by (by apply plain_spread).
  cbn [written]. exists (written_props (written knownProperties)
                          (ping P r (VStr s) checkpoint data w) knownProperties), s.
  split; [done |]. split; [intros k j; apply written_props_names |].
  intros k Hk. rewrite written_props_get, decide_True by done.
  rewrite written_field_get. unfold ping. rewrite assoc_get_spread.
  by destruct (field_of k data).
Qed.

(** Once the session is there and selected: one beacon, whatever the case
    of the checkpoint then does. *)
Lemma sampleRUM_selected P r f checkpoint data w1 :
  sanitizeURL r = Some f → is_mask (Some f) = true → plain knownProperties (VObj data) = true →
  let w' := match sendPing P r checkpoint data w1 with
            | Done w' => match run_case checkpoint w' with Ok w'' => w'' | Throw _ => w' end
            | Gave_up w' => w'
            end in
  w_hlx w' = w_hlx w1 ∧
  ∃ fields referer,
    w_beacons w' =
      w_beacons w1 ++ [("https://rum.hlx.page/.rum/" +:+ pretty (weight r),
                        Some (JObj fields))] ∧
    (∀ k j, (k, j) ∈ fields → k ∈ knownProperties) ∧
    (∀ k, k ∈ knownProperties →
          assoc_get k fields =
          match field_of k data with
          | Some v => written knownProperties v
          | None => assoc_get k (ping_base P r (VStr referer) checkpoint w1)
                    ≫= written knownProperties
          end).
Proof.
  intros Hf Hmask Hplain.
  destruct (sendPing_body P r f checkpoint data w1 Hf Hmask Hplain)
    as (fields & referer & -> & Hfields).
  cbv zeta. destruct (run_case checkpoint _) as [w'' | e] eqn:E.
  - apply run_case_keeps in E as [-> ->]. split; [done |]. by exists fields, referer.
  - split; [done |]. by exists fields, referer.
Qed.

(** C8, as corrected: under the override [rum=on], with one of the three
    masks and plain data (no BigInt and no [toJSON] method), every call of
    [sampleRUM] sends exactly one beacon; its body is an object whose
    property names are all on the whitelist [knownProperties]; it has the
    properties [checkpoint], [weight] and [id], each provided the caller's
    data does not carry a field of that name with a value JSON leaves out,
    and with the loader's own values where the data does not name them; a
    field of the caller's data whose name is on the whitelist replaces the
    loader's value; and the next call finds the session forced as well. *)
Theorem sampleRUM_forced_sends_one_beacon (P : platform) (checkpoint : string)
    (data : list (string * value)) (w : world) :
  forced_session P w →
  plain knownProperties (VObj data) = true →
  ∃ r fields,
    hlx_rum (default empty_hlx (w_hlx (sampleRUM P checkpoint data w))) = Some r ∧
    w_beacons (sampleRUM P checkpoint data w) =
      w_beacons w ++ [("https://rum.hlx.page/.rum/1", Some (JObj fields))] ∧
    (∀ k j, (k, j) ∈ fields → k ∈ knownProperties) ∧
    (∀ k, k ∈ ["checkpoint"; "weight"; "id"] → writes k data →
          is_Some (assoc_get k fields)) ∧
    ((∀ v, ("checkpoint", v) ∉ data) →
     assoc_get "checkpoint" fields = Some (JStr checkpoint)) ∧
    ((∀ v, ("weight", v) ∉ data) → assoc_get "weight" fields = Some (JNum 1)) ∧
    ((∀ v, ("id", v) ∉ data) → assoc_get "id" fields = Some (JStr (id r))) ∧
    (∀ k v, k ∈ knownProperties → field_of k data = Some v →
            assoc_get k fields = written knownProperties v) ∧
    forced_session P (sampleRUM P checkpoint data w).
Proof.
  intros [Hrand Hs] Hplain.
  assert (∀ r fields referer w1,
    weight r = 1%Z →
    (∀ k, k ∈ knownProperties →
          assoc_get k fields =
          match field_of k data with
          | Some v => written knownProperties v
          | None => assoc_get k (ping_base P r (VStr referer) checkpoint w1)
                    ≫= written knownProperties
          end) →
    (∀ k, k ∈ ["checkpoint"; "weight"; "id"] → writes k data →
          is_Some (assoc_get k fields)) ∧
    ((∀ v, ("checkpoint", v) ∉ data) →
     assoc_get "checkpoint" fields = Some (JStr checkpoint)) ∧
    ((∀ v, ("weight", v) ∉ data) → assoc_get "weight" fields = Some (JNum 1)) ∧
    ((∀ v, ("id", v) ∉ data) → assoc_get "id" fields = Some (JStr (id r))) ∧
    (∀ k v, k ∈ knownProperties → field_of k data = Some v →
            assoc_get k fields = written knownProperties v)) as Hread.
  { intros r fields referer w1 Hw Hfields. split_and!.
    - intros k Hk Hdata.
      assert (k ∈ knownProperties) as Hknown.
      { repeat (apply elem_of_cons in Hk as [-> | Hk]); [known.. |].
        by apply elem_of_nil in Hk. }
      rewrite (Hfields k Hknown). destruct (field_of k data) as [v |] eqn:E.
      + by apply Hdata, field_of_Some_elem.
      + repeat (apply elem_of_cons in Hk as [-> | Hk]); [by eexists.. |].
        by apply elem_of_nil in Hk.
    - intros H. rewrite Hfields by known. by rewrite field_of_None.
    - intros H. rewrite Hfields by known. by rewrite field_of_None, <- Hw.
    - intros H. rewrite Hfields by known. by rewrite field_of_None.
    - intros k v Hk E. by rewrite (Hfields k Hk), E. }
  unfold forced_session, sampleRUM.
  destruct (hlx_rum (default empty_hlx (w_hlx w))) as [r |] eqn:Er.
  - destruct Hs as (Hw & Hsel & Hmask). rewrite Hsel.
    destruct (sanitizeURL r) as [f |] eqn:Hf; [| done]. cbv zeta.
    destruct (sampleRUM_selected P r f checkpoint data
                (set_cases (default data (w_cases (set_hlx (default empty_hlx (w_hlx w)) w)))
                   (set_hlx (default empty_hlx (w_hlx w)) w)) Hf Hmask Hplain)
      as (Hh & fields & referer & Hb & Hnames & Hfields).
    pose proof (Hread r fields referer _ Hw Hfields) as Hrd.
    cbv zeta in Hh, Hb. rewrite Hh, Hb, Hw. simpl. rewrite Er, Hf.
    exists r, fields. split_and!; try done; apply Hrd.
  - destruct Hs as (Hon & Hmask). unfold new_rum. rewrite bool_decide_true by done.
    generalize (draw_id (rand P) (w_draws w) id_alphabet) as i.
    generalize (length id_alphabet) as len. intros len i.
    destruct (urlSanitizers _) as [f |] eqn:Hf; [| done].
    cbv zeta. cbn [isSelected]. rewrite Qlt_bool_forced by apply Hrand.
    match goal with |- context [sendPing P ?r _ _ ?w1] =>
      destruct (sampleRUM_selected P r f checkpoint data w1 eq_refl Hmask Hplain)
        as (Hh & fields & referer & Hb & Hnames & Hfields);
      pose proof (Hread r fields referer w1 eq_refl Hfields) as Hrd;
      exists r, fields
    end.
    cbv zeta in Hh, Hb. rewrite Hh, Hb. simpl.
    split_and!; try done; apply Hrd.
Qed.

Lemma sampleRUM_forced_witness :
  ∃ r fields,
    hlx_rum (default empty_hlx
               (w_hlx (sampleRUM sampled_platform "top" [("source", VStr "a.js")]
                         sampled_world))) = Some r ∧
    w_beacons (sampleRUM sampled_platform "top" [("source", VStr "a.js")] sampled_world) =
      w_beacons sampled_world ++ [("https://rum.hlx.page/.rum/1", Some (JObj fields))] ∧
    (∀ k j, (k, j) ∈ fields → k ∈ knownProperties) ∧
    assoc_get "source" fields = Some (JStr "a.js").
Proof.
  destruct (sampleRUM_forced_sends_one_beacon sampled_platform "top"
              [("source", VStr "a.js")] sampled_world)
    as (r & fields & Hr & Hb & Hn & _ & _ & _ & _ & Hdata & _).
  - split.
    + intros n. cbn [rand sampled_platform].
      destruct (n mod 8 =? 3); split_and!; by vm_compute.
    + split; reflexivity.
  - reflexivity.
  - exists r, fields. split; [exact Hr |]. split; [exact Hb |]. split; [exact Hn |].
    apply (Hdata "source" (VStr "a.js")); [known | reflexivity].
Defined.

(** Against C8 as worded: the caller's data is spread last, so a field [id]
    it carries replaces the session's, and JSON leaves an undefined value
    out: the one beacon of this call has no [id]. *)
Lemma sampleRUM_undefined_id_leaves_no_id :
  assoc_get "rum" (search (loc sampled_platform)) = Some "on" ∧
  w_beacons (sampleRUM sampled_platform "top" [("id", VUndefined)] sampled_world) =
    [("https://rum.hlx.page/.rum/1",
      Some (JObj [("weight", JNum 1);
                  ("referer", JStr "https://example.com/page?rum=on");
                  ("checkpoint", JStr "top"); ("t", JNum 10)]))] ∧
  w_beacons (sampleRUM sampled_platform "top" [] sampled_world) =
    [("https://rum.hlx.page/.rum/1",
      Some (JObj [("weight", JNum 1); ("id", JStr "3BJRZhpx");
                  ("referer", JStr "https://example.com/page?rum=on");
                  ("checkpoint", JStr "top"); ("t", JNum 10)]))].
Proof. split_and!; vm_compute; reflexivity. Qed.


(** ** [sampleRUM]: what a call does to the page *)

(** A call comes to the use of a session: the one that is there, or the one
    the call makes. *)
Lemma sampleRUM_session P checkpoint data w :
  ∃ r w1,
    sampleRUM P checkpoint data w =
      (if isSelected r then
         match sendPing P r checkpoint data (set_cases (default data (w_cases w1)) w1) with
         | Done w' => match run_case checkpoint w' with Ok w'' => w'' | Throw _ => w' end
         | Gave_up w' => w'
         end
       else w1) ∧
    hlx_rum (default empty_hlx (w_hlx w1)) = Some r ∧
    RUM_MASK_URL (default empty_hlx (w_hlx w1)) = RUM_MASK_URL (default empty_hlx (w_hlx w)) ∧
    (∀ r0, hlx_rum (default empty_hlx (w_hlx w)) = Some r0 → r0 = r) ∧
    (hlx_rum (default empty_hlx (w_hlx w)) = None →
     sanitizeURL r =
       urlSanitizers (or_else (RUM_MASK_URL (default empty_hlx (w_hlx w))) "path")) ∧
    (is_Some (w_hlx w) → is_Some (hlx_rum (default empty_hlx (w_hlx w))) → w1 = w) ∧
    (hlx_rum (default empty_hlx (w_hlx w)) = None →
     weight r = (if bool_decide (assoc_get "rum" (search (loc P)) = Some "on")
                 then 1 else 100)%Z ∧
     random r = rand P (w_draws w + length id_alphabet) ∧
     isSelected r = Qlt_bool (times (random r) (inject_Z (weight r))) 1) ∧
    w_document w1 = w_document w ∧ w_registry w1 = w_registry w ∧
    w_console w1 = w_console w ∧ w_beacons w1 = w_beacons w ∧
    w_fetches w1 = w_fetches w ∧ w_defer w1 = w_defer w ∧
    w_listeners w1 = w_listeners w ∧ w_session w1 = w_session w ∧
    w_trace w1 = w_trace w ∧ w_cases w1 = w_cases w.
Proof.
  unfold sampleRUM. destruct (hlx_rum (default empty_hlx (w_hlx w))) as [r |] eqn:Er.
  - exists r, (set_hlx (default empty_hlx (w_hlx w)) w). split; [done |].
    split_and!; try done.
    + by intros r0 [= ->].
    + intros [h Hh] _. destruct w. simpl in *. by subst.
  - unfold new_rum.
    generalize (draw_id (rand P) (w_draws w) id_alphabet) as i.
    generalize (length id_alphabet) as len. intros len i. cbv zeta.
    eexists _, _. split; [reflexivity |]. by split_and!.
Qed.

(** [sendPing] sends one beacon and logs it, or gives up before it sends;
    the rest of the page is as it was. *)
Lemma sendPing_keeps P r checkpoint data w :
  w_hlx (left_by (sendPing P r checkpoint data w)) = w_hlx w ∧
  w_document (left_by (sendPing P r checkpoint data w)) = w_document w ∧
  w_registry (left_by (sendPing P r checkpoint data w)) = w_registry w ∧
  w_fetches (left_by (sendPing P r checkpoint data w)) = w_fetches w ∧
  w_defer (left_by (sendPing P r checkpoint data w)) = w_defer w ∧
  w_listeners (left_by (sendPing P r checkpoint data w)) = w_listeners w ∧
  w_session (left_by (sendPing P r checkpoint data w)) = w_session w ∧
  w_trace (left_by (sendPing P r checkpoint data w)) = w_trace w ∧
  w_cases (left_by (sendPing P r checkpoint data w)) = w_cases w ∧
  match sendPing P r checkpoint data w with
  | Done w' =>
      (∃ b, w_beacons w' = w_beacons w ++ [b]) ∧
      w_console w' = w_console w ++ [LogDebug ("ping:" +:+ checkpoint)]
  | Gave_up w' => w_beacons w' = w_beacons w ∧ w_console w' = w_console w
  end.
Proof.
  unfold sendPing. destruct (sanitizeURL r) as [f |]; [| done].
  destruct (sanitize (loc P) r f) as [referer |]; [| done].
  destruct (stringify _ _ _) as [body |]; [| done].
  simpl. split_and!; try done. by eexists.
Qed.

Lemma run_case_frame checkpoint w w' :
  run_case checkpoint w = Ok w' →
  w_beacons w' = w_beacons w ∧ w_hlx w' = w_hlx w ∧ w_registry w' = w_registry w ∧
  w_console w' = w_console w ∧ w_fetches w' = w_fetches w ∧
  w_listeners w' = w_listeners w ∧ w_session w' = w_session w ∧ w_trace w' = w_trace w ∧
  w_cases w' = w_cases w ∧
  (checkpoint ≠ "lazy" → w_document w' = w_document w) ∧
  (checkpoint ≠ "cwv" → w_defer w' = w_defer w).
Proof.
  unfold run_case. destruct (String.eqb checkpoint "cwv") eqn:E1.
  { intros [= <-]. apply String.eqb_eq in E1 as ->. by split_and!. }
  destruct (String.eqb checkpoint "lazy") eqn:E2; [| by intros [= <-]].
  apply String.eqb_eq in E2 as ->.
  destruct (document_head (w_document w)); [| done]. intros [= <-]. by split_and!.
Qed.

(** What a call can do to the page, whatever the session and the checkpoint:
    it sends at most one beacon and takes none back; it leaves the registry,
    the fetches, the listeners, the session storage and the milestones alone;
    it changes the document only at the checkpoint [lazy] and queues a
    deferred call only at [cwv]; afterwards there is a session, and a session
    that was there is the one that stays. *)
Theorem sampleRUM_effects (P : platform) (checkpoint : string)
    (data : list (string * value)) (w : world) :
  (∃ l, w_beacons (sampleRUM P checkpoint data w) = w_beacons w ++ l ∧ length l ≤ 1) ∧
  w_registry (sampleRUM P checkpoint data w) = w_registry w ∧
  w_fetches (sampleRUM P checkpoint data w) = w_fetches w ∧
  w_listeners (sampleRUM P checkpoint data w) = w_listeners w ∧
  w_session (sampleRUM P checkpoint data w) = w_session w ∧
  w_trace (sampleRUM P checkpoint data w) = w_trace w ∧
  (checkpoint ≠ "lazy" → w_document (sampleRUM P checkpoint data w) = w_document w) ∧
  (checkpoint ≠ "cwv" → w_defer (sampleRUM P checkpoint data w) = w_defer w) ∧
  is_Some (hlx_rum (default empty_hlx (w_hlx (sampleRUM P checkpoint data w)))) ∧
  (∀ r, hlx_rum (default empty_hlx (w_hlx w)) = Some r →
        hlx_rum (default empty_hlx (w_hlx (sampleRUM P checkpoint data w))) = Some r).
Proof.
  destruct (sampleRUM_session P checkpoint data w)
    as (r & w1 & -> & Hr & _ & Hold & _ & _ & _ & Hd & Hg & Hc & Hb & Hf & Hq & Hl & Hs & Ht
        & _).
  assert (∀ r0, hlx_rum (default empty_hlx (w_hlx w)) = Some r0 →
                hlx_rum (default empty_hlx (w_hlx w1)) = Some r0) as Hkeep.
  { intros r0 H0. by rewrite (Hold r0 H0). }
  destruct (isSelected r).
  2: { split_and!; try done; try (by rewrite Hr);
       exists []; split; [by rewrite app_nil_r | simpl; lia]. }
  set (w1' := set_cases (default data (w_cases w1)) w1).
  pose proof (sendPing_keeps P r checkpoint data w1')
    as (Hh2 & Hd2 & Hg2 & Hf2 & Hq2 & Hl2 & Hs2 & Ht2 & _ & Hsent).
  destruct (sendPing P r checkpoint data w1') as [w2 | w2] eqn:E2;
    cbn [left_by] in Hh2, Hd2, Hg2, Hf2, Hq2, Hl2, Hs2, Ht2.
  2: { destruct Hsent as [Hb2 _]. unfold w1' in *. cbn [set_cases w_hlx w_document
         w_registry w_fetches w_defer w_listeners w_session w_trace w_beacons] in *.
       split_and!; try congruence.
       - exists []. split; [rewrite app_nil_r; congruence | simpl; lia].
       - rewrite Hh2, Hr. by eexists.
       - intros r0 H0. rewrite Hh2. by apply Hkeep. }
  destruct Hsent as [[b Hb2] _]. unfold w1' in *.
  cbn [set_cases w_hlx w_document w_registry w_fetches w_defer w_listeners w_session w_trace
       w_beacons] in *.
  destruct (run_case checkpoint w2) as [w3 |] eqn:E3.
  - apply run_case_frame in E3
      as (Hb3 & Hh3 & Hg3 & Hc3 & Hf3 & Hl3 & Hs3 & Ht3 & _ & Hd3 & Hq3).
    split_and!; try congruence.
    + exists [b]. split; [congruence | simpl; lia].
    + intros H. rewrite Hd3 by done. congruence.
    + intros H. rewrite Hq3 by done. congruence.
    + rewrite Hh3, Hh2, Hr. by eexists.
    + intros r0 H0. rewrite Hh3, Hh2. by apply Hkeep.
  - split_and!; try congruence.
    + exists [b]. split; [congruence | simpl; lia].
    + rewrite Hh2, Hr. by eexists.
    + intros r0 H0. rewrite Hh2. by apply Hkeep.
Qed.

(** A session that is not selected: the call changes nothing at all. *)
Theorem sampleRUM_not_selected_does_nothing (P : platform) (checkpoint : string)
    (data : list (string * value)) (w : world) (h : hlx) (r : rum) :
  w_hlx w = Some h → hlx_rum h = Some r → isSelected r = false →
  sampleRUM P checkpoint data w = w.
Proof.
  intros Hh Hr Hsel.
  destruct (sampleRUM_session P checkpoint data w)
    as (r1 & w1 & -> & _ & _ & Hold & _ & Hsame & _).
  rewrite Hh in Hold, Hsame. simpl in *. rewrite <- (Hold r Hr), Hsel.
  apply Hsame; by eexists.
Qed.

Lemma sampleRUM_not_selected_witness :
  sampleRUM blocks_platform "load" [("source", VStr "a")] unselected_world =
    unselected_world.
Proof.
  exact (sampleRUM_not_selected_does_nothing blocks_platform "load" [("source", VStr "a")]
           unselected_world unselected_hlx (Rum 100 "3BJ" (1 # 2) false 0 (Some mask_full))
           eq_refl eq_refl eq_refl).
Defined.

(** A mask that names neither a sanitizer nor a property every object
    inherits silences the telemetry for good: there is nothing to call for
    the referrer, the error is swallowed, and no call ever sends a beacon or
    logs a ping. *)
Theorem sampleRUM_unknown_mask_is_silent (P : platform) (checkpoint : string)
    (data : list (string * value)) (w : world) :
  match hlx_rum (default empty_hlx (w_hlx w)) with
  | Some r => sanitizeURL r = None
  | None => urlSanitizers (or_else (RUM_MASK_URL (default empty_hlx (w_hlx w))) "path") = None
  end →
  w_beacons (sampleRUM P checkpoint data w) = w_beacons w ∧
  w_console (sampleRUM P checkpoint data w) = w_console w ∧
  w_document (sampleRUM P checkpoint data w) = w_document w ∧
  w_defer (sampleRUM P checkpoint data w) = w_defer w ∧
  ∃ r, hlx_rum (default empty_hlx (w_hlx (sampleRUM P checkpoint data w))) = Some r ∧
       sanitizeURL r = None.
Proof.
  intros Hmask.
  destruct (sampleRUM_session P checkpoint data w)
    as (r & w1 & -> & Hr & _ & Hold & Hnew & _ & _ & Hd & _ & Hc & Hb & _ & Hq & _).
  assert (sanitizeURL r = None) as Hnone.
  { destruct (hlx_rum (default empty_hlx (w_hlx w))) as [r0 |] eqn:E.
    - by rewrite <- (Hold r0 eq_refl).
    - by rewrite Hnew. }
  unfold sendPing. rewrite Hnone.
  destruct (isSelected r); split_and!; try done; by exists r.
Qed.

Lemma sampleRUM_unknown_mask_witness :
  w_beacons (sampleRUM sampled_platform "top" [] unmasked_world) = [] ∧
  w_console (sampleRUM sampled_platform "top" [] unmasked_world) = [] ∧
  w_document (sampleRUM sampled_platform "top" [] unmasked_world) = cached_page ∧
  w_defer (sampleRUM sampled_platform "top" [] unmasked_world) = [] ∧
  ∃ r, hlx_rum (default empty_hlx
                  (w_hlx (sampleRUM sampled_platform "top" [] unmasked_world))) = Some r ∧
       sanitizeURL r = None.
Proof.
  exact (sampleRUM_unknown_mask_is_silent sampled_platform "top" [] unmasked_world eq_refl).
Defined.

(** Every call on a forced session with plain data sends its beacon and
    leaves the session forced. *)
Lemma forced_session_one_beacon P checkpoint data w :
  forced_session P w → plain knownProperties (VObj data) = true →
  (∃ b, w_beacons (sampleRUM P checkpoint data w) = w_beacons w ++ [b]) ∧
  forced_session P (sampleRUM P checkpoint data w).
Proof.
  intros [Hrand Hs] Hplain.
  destruct (sampleRUM_session P checkpoint data w)
    as (r & w1 & -> & Hr & Hm & Hold & Hnew & _ & Hfresh & _ & _ & _ & Hb & _).
  assert (weight r = 1%Z ∧ isSelected r = true ∧ is_mask (sanitizeURL r) = true)
    as (Hw & Hsel & Hf).
  { destruct (hlx_rum (default empty_hlx (w_hlx w))) as [r0 |] eqn:E.
    - by rewrite <- (Hold r0 eq_refl).
    - destruct Hs as [Hon Hmask]. destruct (Hfresh eq_refl) as (Hw & Hrd & Hsel).
      rewrite bool_decide_true in Hw by done. rewrite Hnew by done.
      split_and!; [done | | done]. rewrite Hsel, Hw.
      apply Qlt_bool_forced; rewrite Hrd; apply Hrand. }
  rewrite Hsel. destruct (sanitizeURL r) as [f |] eqn:Ef; [| done].
  set (w1' := set_cases (default data (w_cases w1)) w1).
  destruct (sendPing_body P r f checkpoint data w1' Ef Hf Hplain)
    as (fields & referer & E2 & _).
  rewrite E2.
  match goal with |- context [run_case checkpoint ?x] => set (w2 := x) end.
  assert (forced_session P w2) as Hforced.
  { split; [done |]. unfold w2, w1'. cbn [w_hlx log sendBeacon ticked set_cases].
    rewrite Hr, Ef. by split_and!. }
  assert (w_beacons w2 = w_beacons w ++ [("https://rum.hlx.page/.rum/" +:+ pretty (weight r),
                                          Some (JObj fields))]) as Hb2.
  { unfold w2, w1'. cbn [w_beacons log sendBeacon ticked set_cases]. by rewrite Hb. }
  destruct (run_case checkpoint w2) as [w3 |] eqn:E3.
  - apply run_case_frame in E3 as (Hb3 & Hh3 & _). split.
    + eexists. rewrite Hb3. exact Hb2.
    + destruct Hforced as [? Hf2]. split; [done |]. by rewrite Hh3.
  - split; [eexists; exact Hb2 | done].
Qed.

(** ** [initialize] *)

(** *** The children of the root, written to *)

Lemma list_find_alter_fst {A} (Q : A → Prop) `{∀ x, Decision (Q x)} (f : A → A) l :
  ∀ i, (∀ x, l !! i = Some x → (Q (f x) ↔ Q x)) →
       fst <$> list_find Q (alter f i l) = fst <$> list_find Q l.
Proof.
  induction l as [| y l IH]; intros i Hf; [done |].
  destruct i as [| i]; simpl.
  - specialize (Hf y eq_refl). repeat case_decide; tauto || done.
  - case_decide; [done |]. specialize (IH i Hf).
    assert (∀ o : option (nat * A), fst <$> (prod_map S Datatypes.id <$> o) = S <$> (fst <$> o)) as E.
    { intros [[? ?] |]; reflexivity. }
    rewrite !E. f_equal. apply IH.
Qed.

Lemma child_tagged_Some ts doc p :
  child_tagged ts doc = Some p →
  ∃ t a ks i k, doc = Elem t a ks ∧ p = [i] ∧ ks !! i = Some k ∧ is_element k = true.
Proof.
  unfold child_tagged. destruct (has_tag "html" doc) eqn:Ht; [| done].
  destruct doc as [s | t a ks]; [done |]. simpl.
  destruct (list_find _ ks) as [[i k] |] eqn:E; [| done]. intros [= <-].
  apply list_find_Some in E as (Hk & [_ He] & _). by exists t, a, ks, i, k.
Qed.

Lemma child_tagged_alter ts t a ks i k (f : node → node) :
  ks !! i = Some k → is_element k = true →
  tag_of (f k) = tag_of k → is_element (f k) = true →
  child_tagged ts (Elem t a (alter f i ks)) = child_tagged ts (Elem t a ks).
Proof.
  intros Hk He Ht He'. unfold child_tagged.
  replace (has_tag "html" (Elem t a (alter f i ks))) with (has_tag "html" (Elem t a ks))
    by done.
  destruct (has_tag "html" (Elem t a ks)); [| done]. cbn [kids_of].
  assert (∀ o : option (nat * node),
            (λ x, [x.1]) <$> o = (λ j : nat, [j]) <$> (fst <$> o)) as E.
  { intros [[? ?] |]; reflexivity. }
  rewrite !E. f_equal. apply list_find_alter_fst.
  intros x Hx. simplify_eq. by rewrite Ht, He, He'.
Qed.

(** The document once a child of the root has been written to: its tag and
    its own children stay, attributes and the nodes put before and after are
    those of the cell. *)
Lemma document_child_cell ts doc p c :
  child_tagged ts doc = Some p → c_out c = None → c_inner c = None →
  ∃ t a ks i k,
    doc = Elem t a ks ∧ p = [i] ∧ ks !! i = Some k ∧ is_element k = true ∧
    document (put_cell (pristine doc) p c) =
      Elem t a (alter (λ x, Elem (tag_of x) (c_attrs c) (c_pre c ++ kids_of x ++ c_post c))
                  i ks).
Proof.
  intros (t & a & ks & i & k & -> & -> & Hk & He)%child_tagged_Some Hout Hin.
  exists t, a, ks, i, k. split_and!; try done.
  unfold document, put_cell, pristine. simpl skel. simpl cells.
  rewrite view_Elem. unfold cell_of. rewrite lookup_insert_ne by done.
  rewrite lookup_empty. simpl. rewrite app_nil_r. do 2 f_equal.
  rewrite <- (Nat.sub_0_r i) at 2.
  apply view_kids_alter; [lia | |].
  - intros j r Hj. simpl. rewrite lookup_insert_ne by congruence. apply lookup_empty.
  - rewrite Nat.sub_0_r. intros k' Hk'. assert (k' = k) as -> by congruence.
    destruct k as [s | t' a' ks']; [done |].
    rewrite view_Elem. unfold cell_of. simpl. rewrite lookup_insert_eq. simpl.
    rewrite Hout, Hin. do 3 f_equal.
    rewrite view_kids_pristine; [done |].
    intros j q. rewrite lookup_insert_ne; [apply lookup_empty |].
    simpl. intros Heq. apply (f_equal length) in Heq. simpl in Heq. lia.
Qed.

Lemma getAttribute_pristine_child t a ks j s :
  getAttribute (pristine (Elem t a ks)) [j] s =
    assoc_get s (attrs_of (default (Text "") (ks !! j))).
Proof.
  unfold getAttribute, cell_at, cell_of, node_at, pristine. simpl.
  rewrite lookup_empty. simpl. by destruct (ks !! j).
Qed.

Lemma cell_at_pristine_child t a ks i k :
  ks !! i = Some k →
  cell_at (pristine (Elem t a ks)) [i] = Cell (attrs_of k) None [] [] None.
Proof.
  intros Hk. apply (cell_at_fresh _ _ k); [| apply lookup_empty]. simpl. by rewrite Hk.
Qed.

(** Marking the body. *)
Lemma body_status_mark doc body v :
  document_body doc = Some body →
  body_status (document (setAttribute (pristine doc) body "data-status" v)) = Some v.
Proof.
  intros Hb. unfold setAttribute.
  destruct (document_child_cell _ doc body
              (Cell (assoc_set "data-status" v (c_attrs (cell_at (pristine doc) body)))
                 (c_inner (cell_at (pristine doc) body))
                 (c_pre (cell_at (pristine doc) body))
                 (c_post (cell_at (pristine doc) body))
                 (c_out (cell_at (pristine doc) body))) Hb)
    as (t & a & ks & i & k & -> & -> & Hk & He & ->);
    rewrite ?(cell_at_pristine_child t a ks i k Hk); try done.
  unfold body_status, document_body in *.
  rewrite (child_tagged_alter _ t a ks i k) by done. rewrite Hb. simpl.
  rewrite getAttribute_pristine_child, list_lookup_alter_eq, Hk. simpl.
  apply assoc_get_set_eq.
Qed.

(** Appending to the head or to the body leaves both where they are, and the
    status of the body as it is. *)
Lemma append_child_keeps ts doc p n :
  child_tagged ts doc = Some p →
  (∀ ts', child_tagged ts' (document (append (pristine doc) p n)) = child_tagged ts' doc) ∧
  body_status (document (append (pristine doc) p n)) = body_status doc.
Proof.
  intros Hp. unfold append.
  destruct (child_tagged_Some _ _ _ Hp) as (t & a & ks & i & k & -> & -> & Hk & He).
  rewrite (cell_at_pristine_child t a ks i k Hk). cbn [c_inner c_attrs c_pre c_post c_out].
  destruct (document_child_cell _ _ _ (Cell (attrs_of k) None [] ([] ++ [n]) None) Hp
              eq_refl eq_refl)
    as (t' & a' & ks' & i' & k' & Hdoc & Hi & Hk' & _ & ->).
  assert (i' = i) as -> by congruence.
  assert (t' = t ∧ a' = a ∧ ks' = ks) as (-> & -> & ->) by (by simplify_eq).
  clear Hdoc Hi Hk' k'. cbn [c_attrs c_pre c_post].
  assert (∀ ts', child_tagged ts'
            (Elem t a (alter (λ x, Elem (tag_of x) (attrs_of k) ([] ++ kids_of x ++ [] ++ [n]))
                         i ks)) = child_tagged ts' (Elem t a ks)) as Hts.
  { intros ts'. by apply (child_tagged_alter _ t a ks i k). }
  split; [done |]. unfold body_status, document_body. rewrite Hts.
  destruct (child_tagged ["body"; "frameset"] (Elem t a ks)) as [body |] eqn:Eb; [| done].
  simpl.
  destruct (child_tagged_Some _ _ _ Eb) as (? & ? & ? & j & kb & _ & -> & _ & _).
  rewrite !getAttribute_pristine_child. f_equal.
  destruct (decide (i = j)) as [<- | Hne].
  - by rewrite list_lookup_alter_eq, Hk.
  - by rewrite list_lookup_alter_ne.
Qed.

(** *** What the steps leave alone *)

Lemma same_frame_refl w : same_frame w w.
Proof. by repeat split. Qed.

Lemma same_frame_trans w1 w2 w3 : same_frame w1 w2 → same_frame w2 w3 → same_frame w1 w3.
Proof.
  intros (Hr1 & Ht1 & Hc1 & Hb1) (Hr2 & Ht2 & Hc2 & Hb2). repeat split; congruence.
Qed.

Lemma body_append_keeps doc html :
  (∀ ts, child_tagged ts (body_append doc html) = child_tagged ts doc) ∧
  body_status (body_append doc html) = body_status doc.
Proof.
  unfold body_append. destruct html as [n |]; [| done].
  destruct (document_body doc) as [body |] eqn:E; [| done].
  by apply (append_child_keeps _ _ _ _ E).
Qed.

Lemma loadTemplates_spec P names w :
  ∃ w1,
    loadTemplates P names w =
      ((λ t, ld_promise (loadTemplate P (fetch_template P) (codeBasePath (default empty_hlx (w_hlx w)))
                           t (w_document w))) <$> names, w1) ∧
    w_hlx w1 = w_hlx w ∧ same_frame w w1.
Proof.
  unfold loadTemplates.
  generalize (codeBasePath (default empty_hlx (w_hlx w))) as base.
  generalize (w_document w) as doc. intros doc base.
  enough (∀ ps0 w0, w_hlx w0 = w_hlx w → same_frame w w0 →
    ∃ w1,
      foldl (λ '(ps, w) blockName,
               let r := loadTemplate P (fetch_template P) base blockName doc in
               (ps ++ [ld_promise r],
                fetching (ld_fetches r)
                  (set_document (body_append (w_document w) (ld_appended r)) w)))
        (ps0, w0) names =
        (ps0 ++ ((λ t, ld_promise (loadTemplate P (fetch_template P) base t doc)) <$> names), w1) ∧
      w_hlx w1 = w_hlx w ∧ same_frame w w1) as H.
  { apply (H [] w); [done | apply same_frame_refl]. }
  induction names as [| t names IH]; intros ps0 w0 Hh Hf; simpl.
  - exists w0. by rewrite app_nil_r.
  - destruct (IH (ps0 ++ [ld_promise (loadTemplate P (fetch_template P) base t doc)])
                (fetching (ld_fetches (loadTemplate P (fetch_template P) base t doc))
                   (set_document
                      (body_append (w_document w0)
                         (ld_appended (loadTemplate P (fetch_template P) base t doc))) w0)))
      as (w1 & Heq & ? & ?); [done | |].
    + eapply same_frame_trans; [apply Hf |].
      destruct (body_append_keeps (w_document w0)
                  (ld_appended (loadTemplate P (fetch_template P) base t doc))) as [? ?].
      by repeat split.
    + exists w1. split; [| done]. rewrite <- app_assoc in Heq. exact Heq.
Qed.

Lemma loadBlocks_spec P names w :
  ∃ l,
    loadBlocks P names w =
      ((λ b, (loadBlock (import P) (codeBasePath (default empty_hlx (w_hlx w))) b).1)
         <$> names, log l w).
Proof.
  unfold loadBlocks. generalize (codeBasePath (default empty_hlx (w_hlx w))) as base.
  intros base.
  enough (∀ ps0 l0,
    ∃ l,
      foldl (λ '(ps, w) blockName,
               let '(p, l) := loadBlock (import P) base blockName in
               (ps ++ [p], log l w))
        (ps0, log l0 w) names =
        (ps0 ++ ((λ b, (loadBlock (import P) base b).1) <$> names), log l w)) as H.
  { destruct (H [] []) as [l Hl]. exists l.
    assert (log [] w = w) as Hw by (destruct w; unfold log; simpl; by rewrite app_nil_r).
    rewrite Hw in Hl. exact Hl. }
  induction names as [| b names IH]; intros ps0 l0; simpl.
  - exists l0. by rewrite app_nil_r.
  - destruct (loadBlock (import P) base b) as [p l] eqn:E.
    destruct (IH (ps0 ++ [p]) (l0 ++ l)) as [l' Hl']. exists l'.
    assert (log l (log l0 w) = log (l0 ++ l) w) as Hw
      by (unfold log; simpl; by rewrite app_assoc).
    rewrite <- app_assoc in Hl'. rewrite Hw. exact Hl'.
Qed.

Lemma allSettled_settles {A} (ps : list (promise A)) :
  (∀ p, p ∈ ps → p ≠ Pending) → ∃ os, allSettled ps = Fulfilled os.
Proof.
  intros H. unfold allSettled.
  destruct (mapM outcome ps) as [os |] eqn:E; [by exists os |].
  assert (is_Some (mapM outcome ps)) as [? ?]; [| congruence].
  apply mapM_is_Some, Forall_forall. intros p Hp. specialize (H p Hp).
  by destruct p; [| eexists..].
Qed.

Lemma sampleRUM_top_frame P w :
  same_frame w (sampleRUM P "top" [] w) ∧
  w_document (sampleRUM P "top" [] w) = w_document w.
Proof.
  destruct (sampleRUM_session P "top" [] w)
    as (r & w1 & -> & _ & _ & _ & _ & _ & _ & Hd & Hg & _ & _ & _ & _ & _ & _ & Ht & _).
  assert (∀ w', w_document w' = w_document w → w_registry w' = w_registry w →
                w_trace w' = w_trace w →
                same_frame w w' ∧ w_document w' = w_document w) as H.
  { intros w' Hd' Hg' Ht'. split; [| done]. unfold same_frame. by rewrite Hd', Hg', Ht'. }
  destruct (isSelected r); [| by apply H].
  pose proof (sendPing_keeps P r "top" [] (set_cases (default [] (w_cases w1)) w1))
    as (_ & Hd2 & Hg2 & _ & _ & _ & _ & Ht2 & _).
  destruct (sendPing P r "top" [] _) as [w2 | w2]; cbn [left_by] in *.
  - change (run_case "top" w2) with (Ok w2). cbv iota.
    apply H; [by rewrite Hd2 | by rewrite Hg2 | by rewrite Ht2].
  - apply H; [by rewrite Hd2 | by rewrite Hg2 | by rewrite Ht2].
Qed.

Lemma loadFonts_frame P w : same_frame w (loadFonts P w).
Proof.
  unfold loadFonts.
  destruct (loadCSS _ _ _) as [p doc] eqn:E.
  assert ((∀ ts, child_tagged ts doc = child_tagged ts (w_document w)) ∧
          body_status doc = body_status (w_document w)) as [? ?].
  { unfold loadCSS in E. destruct (find_link _ _ _) as [[q |] | e]; [by simplify_eq | |].
    2: { by simplify_eq. }
    destruct (document_head (w_document w)) as [h |] eqn:Eh; [| by simplify_eq].
    injection E as _ <-. by apply (append_child_keeps _ _ _ _ Eh). }
  destruct p; [done | | done].
  destruct (negb _); by repeat split.
Qed.

(** *** Registration and the completion signal *)

Lemma define_accepted P name c w :
  definable P name c = true →
  existsb (λ kv, same_class kv.2 c) (w_registry w) = false →
  define P name c w =
    Ok (passed (Registered name) (set_registry (w_registry w ++ [(name, c)]) w)).
Proof. intros Hd He. unfold define. by rewrite Hd, He. Qed.

(** Registering writes to the registry and to nothing else of the page, and
    passes one milestone for each definition. *)
Lemma register_all_trace P os :
  ∀ w, ∃ ns,
    w_trace (foldl (register P) w os) = w_trace w ++ (Registered <$> ns) ∧
    ns ⊆ (λ kv, kv.1) <$> w_registry (foldl (register P) w os) ∧
    w_document (foldl (register P) w os) = w_document w ∧
    w_hlx (foldl (register P) w os) = w_hlx w.
Proof.
  induction os as [| o os IH] using rev_ind; intros w.
  - exists []. simpl. rewrite app_nil_r. split_and!; try done. by intros x ?%elem_of_nil.
  - rewrite foldl_app. simpl. destruct (IH w) as (ns & Ht & Hns & Hd & Hh).
    set (w1 := foldl (register P) w os) in *.
    assert (register P w1 o = w1 ∨
            ∃ v, register P w1 o =
                   passed (Registered (name v))
                     (set_registry (w_registry w1 ++ [(name v, className v)]) w1))
      as [-> | [v ->]].
    { unfold register. destruct o as [v |]; [| by left].
      destruct (assoc_get _ _); [by left |]. unfold define.
      destruct (_ && _); [right; by exists v | by left]. }
    + by exists ns.
    + exists (ns ++ [name v]). simpl. rewrite Ht, fmap_app, <- app_assoc.
      split_and!; try done. rewrite fmap_app. simpl.
      intros x [Hx | ->%list_elem_of_singleton]%elem_of_app; apply elem_of_app;
        [left; by apply Hns | right; by left].
Qed.

Lemma completion P w3 :
  is_Some (document_body (w_document w3)) →
  ∃ w',
    match mark_loaded w3 with
    | Ok w =>
        Completed
          (addEventListener "error"
             (addEventListener "unhandledrejection"
                (addEventListener "load" (sampleRUM P "top" [] (loadFonts P w)))))
    | Throw e => Failed e w3
    end = Completed w' ∧
    w_registry w' = w_registry w3 ∧
    w_trace w' = w_trace w3 ++ [PageLoaded] ∧
    body_status (w_document w') = Some "loaded".
Proof.
  intros [body Hb]. unfold mark_loaded. rewrite Hb.
  eexists. split; [reflexivity |].
  match goal with |- context [loadFonts P ?w] => set (w4 := w) end.
  destruct (loadFonts_frame P w4) as (Hr & Ht & _ & Hs).
  destruct (sampleRUM_top_frame P (loadFonts P w4)) as [(Hr' & Ht' & _ & Hs') _].
  cbn [w_registry w_trace w_document addEventListener].
  rewrite Hr', Ht', Hs', Hr, Ht, Hs. split_and!; [done | done |].
  apply (body_status_mark _ _ _ Hb).
Qed.

(** Of two code modules requested, one load rejecting and the other
    fulfilling, with the template loads all settling, a body in the document
    and a definition the platform accepts for a kind not yet registered:
    [initialize], from the two fetch batches on, completes; the kind whose
    load fulfilled is registered, and it alone; the milestones passed are, in
    this order, the two batches settled, the registration, the body marked
    loaded; and the body of the final document has the status [loaded]. *)
Theorem load_and_register_isolates_failure (P : platform) (r : resources) (w : world)
    (good bad : string) (c : value) (why : reason) :
  components r = [good; bad] ∨ components r = [bad; good] →
  (loadBlock (import P) (codeBasePath (default empty_hlx (w_hlx w))) bad).1 = Rejected why →
  (loadBlock (import P) (codeBasePath (default empty_hlx (w_hlx w))) good).1 =
    Fulfilled (BlockDef good c) →
  (∀ t, t ∈ templates r →
        ld_promise (loadTemplate P (fetch_template P) (codeBasePath (default empty_hlx (w_hlx w))) t
                      (w_document w)) ≠ Pending) →
  is_Some (document_body (w_document w)) →
  assoc_get good (w_registry w) = None →
  definable P good c = true →
  existsb (λ kv, same_class kv.2 c) (w_registry w) = false →
  ∃ w',
    load_and_register P r w = Completed w' ∧
    w_registry w' = w_registry w ++ [(good, c)] ∧
    w_trace w' = w_trace w ++ [BatchesSettled; Registered good; PageLoaded] ∧
    body_status (w_document w') = Some "loaded".
Proof.
  intros Hcomp Hbad Hgood Htempl Hbody Hnew Hdef Hcls.
  unfold load_and_register.
  destruct (loadTemplates_spec P (templates r) w) as (w1 & -> & Hh1 & Hr1 & Ht1 & Hc1 & Hs1).
  destruct (loadBlocks_spec P (components r) w1) as (l & ->). rewrite Hh1.
  cbv beta iota zeta.
  destruct (allSettled_settles
              ((λ t, ld_promise
                       (loadTemplate P (fetch_template P) (codeBasePath (default empty_hlx (w_hlx w))) t
                          (w_document w))) <$> templates r)) as [os ->].
  { intros p (t & -> & Ht)%list_elem_of_fmap. by apply Htempl. }
  set (w2 := passed BatchesSettled (log l w1)).
  assert (∃ lc,
    allSettled ((λ b, (loadBlock (import P) (codeBasePath (default empty_hlx (w_hlx w))) b).1)
                  <$> components r) = Fulfilled lc ∧
    foldl (register P) w2 lc =
      passed (Registered good) (set_registry (w_registry w2 ++ [(good, c)]) w2))
    as (lc & -> & Hreg).
  { assert (register P w2 (IsFulfilled (BlockDef good c)) =
              passed (Registered good) (set_registry (w_registry w2 ++ [(good, c)]) w2))
      as Hone.
    { unfold register. cbn [name className].
      replace (w_registry w2) with (w_registry w) by (by rewrite <- Hr1).
      rewrite Hnew. rewrite define_accepted; [| done |].
      - by replace (w_registry w2) with (w_registry w) by (by rewrite <- Hr1).
      - by replace (w_registry w2) with (w_registry w) by (by rewrite <- Hr1). }
    destruct Hcomp as [-> | ->]; cbn [fmap list_fmap]; rewrite Hbad, Hgood;
      eexists; (split; [reflexivity |]); cbn [foldl]; [| cbn [register]]; exact Hone. }
  cbv beta iota zeta. cbn [allSettled2 outcome].
  destruct (completion P (foldl (register P) w2 lc)) as (w' & Hrun & Hr' & Ht' & Hs').
  { rewrite Hreg. cbn [w_document passed set_registry]. unfold w2.
    cbn [w_document passed log]. unfold document_body in *. by rewrite Hc1. }
  exists w'. split; [exact Hrun |]. rewrite Hr', Ht', Hreg.
  cbn [w_registry w_trace passed set_registry]. unfold w2.
  cbn [w_registry w_trace passed log]. rewrite Hr1, Ht1, <- !app_assoc. by split_and!.
Qed.

Lemma load_and_register_isolates_failure_witness :
  ∃ w',
    load_and_register blocks_platform scanned_resources scanned_world = Completed w' ∧
    w_registry w' = [("aem-cards", VClass "Cards")] ∧
    w_trace w' = [BatchesSettled; Registered "aem-cards"; PageLoaded] ∧
    body_status (w_document w') = Some "loaded".
Proof.
  apply (load_and_register_isolates_failure blocks_platform scanned_resources scanned_world
           "aem-cards" "aem-hero" (VClass "Cards") (Because (VStr "TypeError"))).
  - by left.
  - reflexivity.
  - reflexivity.
  - intros t Ht.
    repeat (apply elem_of_cons in Ht as [-> | Ht]); [by vm_compute.. |].
    by apply elem_of_nil in Ht.
  - by eexists.
  - reflexivity.
  - reflexivity.
  - reflexivity.
Defined.

(** A load that never settles keeps the initialization suspended: nothing is
    registered and the body is not marked.  A template fetch that fails at
    the network level is such a load ([loadTemplate] handles no rejection of
    [fetch]). *)
Theorem load_and_register_stalls_on_network_failure (P : platform) (r : resources)
    (w : world) (t : string) :
  t ∈ templates r →
  find_template P
    (template_id (template_href (codeBasePath (default empty_hlx (w_hlx w))) t))
    (w_document w) = Ok None →
  fetch_template P (template_href (codeBasePath (default empty_hlx (w_hlx w))) t)
  = NetworkError →
  ∃ w',
    load_and_register P r w = Stalled w' ∧
    w_registry w' = w_registry w ∧
    w_trace w' = w_trace w ∧
    body_status (w_document w') = body_status (w_document w).
Proof.
  intros Ht Hq Hf. unfold load_and_register.
  destruct (loadTemplates_spec P (templates r) w) as (w1 & -> & Hh1 & Hr1 & Ht1 & Hc1 & Hs1).
  destruct (loadBlocks_spec P (components r) w1) as (l & ->).
  cbv beta iota zeta.
  assert (allSettled
            ((λ t, ld_promise
                     (loadTemplate P (fetch_template P) (codeBasePath (default empty_hlx (w_hlx w))) t
                        (w_document w))) <$> templates r) = Pending) as ->.
  { unfold allSettled.
    destruct (mapM outcome _) as [os |] eqn:E; [| done].
    assert (is_Some (mapM outcome
              ((λ t, ld_promise
                       (loadTemplate P (fetch_template P) (codeBasePath (default empty_hlx (w_hlx w))) t
                          (w_document w))) <$> templates r))) as Hs by (by rewrite E).
    apply mapM_is_Some in Hs. rewrite Forall_forall in Hs.
    destruct (Hs (ld_promise
                    (loadTemplate P (fetch_template P) (codeBasePath (default empty_hlx (w_hlx w))) t
                       (w_document w)))) as [o Ho].
    - apply list_elem_of_fmap. by exists t.
    - unfold loadTemplate in Ho. by rewrite Hq, Hf in Ho. }
  exists (log l w1). by split_and!.
Qed.

Lemma load_and_register_stalls_witness :
  ∃ w',
    load_and_register sampled_platform scanned_resources scanned_world = Stalled w' ∧
    w_registry w' = [] ∧ w_trace w' = [] ∧ body_status (w_document w') = None.
Proof.
  apply (load_and_register_stalls_on_network_failure sampled_platform scanned_resources
           scanned_world "aem-cards"); [by left | reflexivity | reflexivity].
Defined.

(** C7, at the failing input: the code of the cards loads, the code of the
    hero does not, and the request for the template of the hero fails at
    the network level.  The load of that template never settles
    ([loadTemplate] handles no rejection of [fetch]), so the two batches
    never settle: [initialize] stays suspended, the cards are not
    registered and the body is not marked loaded. *)
Theorem load_and_register_stalls_with_a_fulfilled_module :
  (loadBlock (import offline_platform) "" "aem-cards").1
  = Fulfilled (BlockDef "aem-cards" (VClass "Cards")) ∧
  (loadBlock (import offline_platform) "" "aem-hero").1
  = Rejected (Because (VStr "TypeError")) ∧
  ld_promise (loadTemplate offline_platform (fetch_template offline_platform) ""
                "aem-cards" (w_document scanned_world)) = Fulfilled () ∧
  ld_promise (loadTemplate offline_platform (fetch_template offline_platform) ""
                "aem-hero" (w_document scanned_world)) = Pending ∧
  ∃ w',
    load_and_register offline_platform scanned_resources scanned_world = Stalled w' ∧
    w_registry w' = [] ∧ w_trace w' = [] ∧ body_status (w_document w') = None.
Proof. split_and!; [by vm_compute.. |]. eexists. by vm_compute. Qed.

(** Whenever the second half of [initialize] completes, the milestones it
    passed are: the two fetch batches settled, then the registrations, then
    the body marked loaded; each registration is in the registry. *)
Lemma load_and_register_order (P : platform) (r : resources) (w w' : world) :
  load_and_register P r w = Completed w' →
  ∃ ns,
    w_trace w' = w_trace w ++ [BatchesSettled] ++ (Registered <$> ns) ++ [PageLoaded] ∧
    ns ⊆ (λ kv, kv.1) <$> w_registry w' ∧
    body_status (w_document w') = Some "loaded".
Proof.
  unfold load_and_register.
  destruct (loadTemplates_spec P (templates r) w) as (w1 & -> & Hh1 & Hr1 & Ht1 & Hc1 & Hs1).
  destruct (loadBlocks_spec P (components r) w1) as (l & ->).
  cbv beta iota zeta.
  destruct (allSettled2 _ _) as [| [? [lc | ?]] | ?]; try done.
  destruct (register_all_trace P lc (passed BatchesSettled (log l w1)))
    as (ns & Ht & Hns & Hd & _).
  destruct (mark_loaded _) as [w4 |] eqn:Em; [| done].
  assert (is_Some (document_body
                     (w_document (foldl (register P) (passed BatchesSettled (log l w1)) lc))))
    as Hb.
  { unfold mark_loaded in Em. destruct (document_body _); [by eexists | done]. }
  destruct (completion P _ Hb) as (w'' & Hrun & Hr' & Ht' & Hs'). rewrite Em in Hrun.
  intros Hw'. assert (w'' = w') as -> by congruence.
  exists ns. rewrite Ht', Ht, Hr'. cbn [w_trace passed log]. rewrite Ht1, <- !app_assoc.
  by split_and!.
Qed.

(** The whole of [initialize] on a page with two blocks, the code of one of
    which fails to load: the other is registered, between the settling of the
    batches and the marking of the body, and the failure is logged. *)
Theorem initialize_two_blocks :
  ∃ w',
    initialize blocks_platform blocks_world = Completed w' ∧
    w_registry w' = [("aem-cards", VClass "Cards")] ∧
    w_console w' = [LogWarn "Failed to load module for aem-hero"] ∧
    w_trace w' = [BatchesSettled; Registered "aem-cards"; PageLoaded] ∧
    body_status (w_document w') = Some "loaded".
Proof. eexists. split; [vm_compute; reflexivity |]. by vm_compute. Qed.

(** A module that loads without a usable default export keeps the
    initialization suspended as well: its load never settles, so nothing is
    registered and the body is not marked. *)
Theorem load_and_register_stalls_on_missing_default (P : platform) (r : resources)
    (w : world) (b : string) :
  b ∈ components r →
  (loadBlock (import P) (codeBasePath (default empty_hlx (w_hlx w))) b).1 = Pending →
  ∃ w',
    load_and_register P r w = Stalled w' ∧
    w_registry w' = w_registry w ∧
    w_trace w' = w_trace w ∧
    body_status (w_document w') = body_status (w_document w).
Proof.
  intros Hb Hp. unfold load_and_register.
  destruct (loadTemplates_spec P (templates r) w) as (w1 & -> & Hh1 & Hr1 & Ht1 & Hc1 & Hs1).
  destruct (loadBlocks_spec P (components r) w1) as (l & ->). rewrite Hh1.
  cbv beta iota zeta.
  assert (allSettled
            ((λ b, (loadBlock (import P) (codeBasePath (default empty_hlx (w_hlx w))) b).1)
               <$> components r) = Pending) as ->.
  { unfold allSettled.
    destruct (mapM outcome _) as [os |] eqn:E; [| done].
    assert (is_Some (mapM outcome
              ((λ b, (loadBlock (import P) (codeBasePath (default empty_hlx (w_hlx w))) b).1)
                 <$> components r))) as Hs by (by rewrite E).
    apply mapM_is_Some in Hs. rewrite Forall_forall in Hs.
    destruct (Hs (loadBlock (import P) (codeBasePath (default empty_hlx (w_hlx w))) b).1)
      as [o Ho].
    - apply list_elem_of_fmap. by exists b.
    - by rewrite Hp in Ho. }
  exists (log l w1). split_and!; try done.
  unfold allSettled2. by destruct (outcome _).
Qed.

Lemma load_and_register_stalls_on_missing_default_witness :
  ∃ w',
    load_and_register named_exports_platform scanned_resources scanned_world = Stalled w' ∧
    w_registry w' = [] ∧ w_trace w' = [] ∧ body_status (w_document w') = None.
Proof.
  apply (load_and_register_stalls_on_missing_default named_exports_platform
           scanned_resources scanned_world "aem-hero"); [| reflexivity].
  right. by left.
Defined.

Lemma preloadFragment_settles B fetch σ element :
  pl_promise (preloadFragment B fetch σ element) ≠ Pending.
Proof.
  unfold preloadFragment. destruct (querySelector_in _ _ _); [| done].
  destruct (fetch _) as [| | ok [m |]]; done.
Qed.

(** The fragment preloads never keep [initialize] waiting: each one settles,
    whatever the network answers, so the batch does. *)
Theorem preloadFragments_settle (P : platform) (w : world) :
  ∃ os, allSettled (preloadFragments P w).1 = Fulfilled os.
Proof.
  apply allSettled_settles. unfold preloadFragments.
  enough (∀ l acc,
    Forall (λ p, p ≠ Pending) acc.1.1 →
    Forall (λ p, p ≠ Pending)
      (foldl (λ '(ps, σ, l) element,
                let r := preloadFragment P (fetch P) σ element in
                (ps ++ [pl_promise r], pl_dom r, l ++ pl_console r)) acc l).1.1) as H.
  { specialize (H (querySelectorAll fragment_selector (w_document w))
                  ([], pristine (w_document w), []) (Forall_nil_2 _)).
    destruct (foldl _ _ _) as [[ps σ] l]. simpl in *. intros p Hp.
    rewrite Forall_forall in H. by apply H. }
  induction l as [| e l IH]; intros [[ps σ] lg] Hacc; [done |].
  cbn [foldl]. apply IH. simpl. apply Forall_app. split; [done |].
  apply Forall_singleton, preloadFragment_settles.
Qed.

(** ** [loadEagerImages] *)

Lemma eager_Elem visible here t a ks :
  eager visible here (Elem t a ks) =
  Elem t (if bool_decide (t = "img") && visible here then assoc_set "loading" "eager" a else a)
    (if bool_decide (t = "template") then ks else eager_kids visible here 0 ks).
Proof.
  simpl. f_equal. destruct (bool_decide (t = "template")); [done |].
  generalize 0. induction ks as [| k ks IH]; intros i; simpl; [done |].
  by rewrite IH.
Qed.

(** A template is no image: it is left as it is, content included. *)
Lemma eager_template visible here a ks :
  eager visible here (Elem "template" a ks) = Elem "template" a ks.
Proof. by rewrite eager_Elem. Qed.

Lemma eager_kids_of visible parent here l :
  Forall (λ k, ∀ par here, eager_of visible k here (select img_selector par here k)) l →
  ∀ i σ,
    (∀ j k, l !! j = Some k → subtree (skel σ) (here ++ [i + j]) = Some k) →
    (∀ j q, i ≤ j → cells σ !! (here ++ [j] ++ q) = None) →
    skel (foldl (eager_step visible) σ (select_kids img_selector parent here i l)) = skel σ ∧
    (∀ p, (∀ j q, i ≤ j → p ≠ here ++ [j] ++ q) →
          cells (foldl (eager_step visible) σ (select_kids img_selector parent here i l)) !! p
          = cells σ !! p) ∧
    view_kids (cells (foldl (eager_step visible) σ (select_kids img_selector parent here i l)))
      here i l = eager_kids visible here i l.
Proof.
  induction 1 as [| k l Hk _ IH]; intros i σ Hsub Hpri; [done |].
  cbn [select_kids]. rewrite foldl_app.
  destruct (Hk (Some parent) (here ++ [i]) σ) as ([Hs1 Ho1] & Hv1).
  { specialize (Hsub 0 k eq_refl). by rewrite Nat.add_0_r in Hsub. }
  { intros q. rewrite <- app_assoc. by apply Hpri. }
  set (σ1 := foldl (eager_step visible) σ (select img_selector (Some parent) (here ++ [i]) k))
    in *.
  destruct (IH (S i) σ1) as (Hs2 & Ho2 & Hv2).
  { intros j k' Hj. rewrite Hs1. replace (S i + j) with (i + S j) by lia. by apply Hsub. }
  { intros j q Hj. rewrite Ho1; [apply Hpri; lia |].
    intros q'. rewrite <- app_assoc. apply sibling_paths_ne. lia. }
  split; [congruence |]. split.
  - intros p Hp. rewrite Ho2, Ho1; [done | |].
    + intros q. rewrite <- app_assoc. by apply Hp.
    + intros j q Hj. apply Hp. lia.
  - cbn [view_kids eager_kids]. rewrite Hv2.
    rewrite (view_ext _ (cells σ1)); [by rewrite Hv1 |].
    intros q. apply Ho2. intros j q' Hj. rewrite <- app_assoc.
    apply sibling_paths_ne. lia.
Qed.

(** The loop over the images of a subtree comes to its recursive
    description. *)
Lemma eager_node visible n :
  ∀ par here, eager_of visible n here (select img_selector par here n).
Proof.
  induction n as [s | t a ks IH] using node_ind'; intros par here σ Hn Hpri.
  - simpl. repeat split; done.
  - destruct (decide (t = "template")) as [-> | Hnt].
    { change (select img_selector par here (Elem "template" a ks)) with (@nil path).
      cbn [foldl]. rewrite eager_template. split; [done |]. by apply view_pristine. }
    assert (light_kids (Elem t a ks) = ks) as Hlight
      by (simpl; by rewrite bool_decide_eq_false_2).
    rewrite select_Elem, foldl_app, Hlight.
    assert (∀ p, (∀ j q, p ≠ here ++ [j] ++ q) ↔ (p = here ∨ ∀ q, p ≠ here ++ q)) as Hout.
    { intros p. split.
      - intros H. destruct (decide (p = here)) as [| Hne]; [by left | right].
        intros [| j q] ->; [by rewrite app_nil_r in Hne | by apply (H j q)].
      - intros [-> | H] j q; [apply app_cons_ne | apply H]. }
    set (σ0 := foldl (eager_step visible) σ
                 (if img_selector par (Elem t a ks) then [here] else [])).
    assert (skel σ0 = skel σ ∧
            (∀ p, p ≠ here → cells σ0 !! p = cells σ !! p) ∧
            cell_of (cells σ0) here a =
              Cell (if bool_decide (t = "img") && visible here
                    then assoc_set "loading" "eager" a else a) None [] [] None)
      as (Hs0 & Ho0 & Hc0).
    { unfold σ0, img_selector. cbn [has_tag].
      pose proof (Hpri []) as Hh. rewrite app_nil_r in Hh.
      destruct (bool_decide (t = "img")); cbn [foldl andb].
      - unfold eager_step. destruct (visible here).
        + unfold setAttribute. rewrite (cell_at_fresh σ here (Elem t a ks)) by done.
          unfold put_cell, cell_of. simpl. rewrite lookup_insert_eq.
          split_and!; [done | | done]. intros p Hp. by rewrite lookup_insert_ne.
        + unfold cell_of. by rewrite Hh.
      - unfold cell_of. by rewrite Hh. }
    destruct (eager_kids_of visible (Elem t a ks) here ks IH 0 σ0) as (Hs & Ho & Hv).
    { intros j k Hj. rewrite Hs0, subtree_app, Hn. simpl. by rewrite Hj. }
    { intros j q _. rewrite Ho0 by apply not_eq_sym, app_cons_ne. apply Hpri. }
    split; [split |].
    + congruence.
    + intros p Hp. rewrite Ho by (intros j q _; apply Hout; by right).
      apply Ho0. intros ->. apply (Hp []). by rewrite app_nil_r.
    + rewrite view_Elem, eager_Elem. unfold cell_of in *.
      rewrite Ho by (intros j q _; apply Hout; by left).
      rewrite Hc0. rewrite (bool_decide_eq_false_2 (t = "template")) by done.
      simpl. by rewrite Hv, app_nil_r.
Qed.

(** [loadEagerImages] touches the [loading] attribute of the visible images
    and nothing else. *)
Lemma loadEagerImages_eager (P : platform) (doc : node) :
  loadEagerImages P doc = eager (visible P) [] doc.
Proof.
  unfold loadEagerImages, querySelectorAll.
  destruct (eager_node (visible P) doc None [] (pristine doc)) as ([Hs _] & Hv); [done.. |].
  unfold document. fold (eager_step (visible P)). rewrite Hs.
  change (skel (pristine doc)) with doc. by rewrite Hv.
Qed.

Lemma eager_kids_lookup visible here l :
  ∀ i j, eager_kids visible here i l !! j = eager visible (here ++ [i + j]) <$> l !! j.
Proof.
  induction l as [| k l IH]; intros i j; [done |].
  destruct j as [| j]; simpl.
  - by rewrite Nat.add_0_r.
  - rewrite IH. by replace (S i + j) with (i + S j) by lia.
Qed.

(** The nodes of the new document: those selectors reach are the old ones
    made eager, the content of templates is as it was. *)
Lemma subtree_eager visible p :
  ∀ n here x, subtree n p = Some x →
    subtree (eager visible here n) p =
    Some (if bool_decide (is_Some (reach n p)) then eager visible (here ++ p) x else x).
Proof.
  induction p as [| j p IH]; intros n here x Hx.
  - simpl in *. simplify_eq. by rewrite app_nil_r.
  - destruct n as [s | t a ks]; [done |]. cbn [subtree kids_of] in Hx.
    destruct (ks !! j) as [k |] eqn:Hk; [| done].
    rewrite eager_Elem. cbn [subtree kids_of reach light_kids].
    destruct (bool_decide (t = "template")).
    + rewrite Hk. cbn [lookup]. rewrite Hx.
      rewrite bool_decide_eq_false_2; [done |]. by intros [? ?].
    + rewrite eager_kids_lookup, Hk. simpl. rewrite (IH k _ x Hx), <- app_assoc. done.
Qed.

Lemma assoc_set_idemp {V} k (v : V) l : assoc_set k v (assoc_set k v l) = assoc_set k v l.
Proof.
  induction l as [| [k' v'] l IH]; simpl.
  - by rewrite decide_True.
  - destruct (decide (k' = k)) as [-> | Hne]; simpl.
    + by rewrite decide_True.
    + by rewrite decide_False, IH.
Qed.

(** Two runs in a row make eager what either of them sees. *)
Lemma eager_eager v1 v2 n :
  ∀ here, eager v2 here (eager v1 here n) = eager (λ p, v1 p || v2 p) here n.
Proof.
  induction n as [s | t a ks IH] using node_ind'; intros here; [done |].
  rewrite !eager_Elem. f_equal.
  - destruct (bool_decide (t = "img")); [| done]. cbn [andb].
    destruct (v1 here), (v2 here); try done. apply assoc_set_idemp.
  - destruct (bool_decide (t = "template")); [done |].
    generalize 0. induction IH as [| k l Hk _ IHl]; intros i; [done |].
    cbn [eager_kids]. by rewrite Hk, IHl.
Qed.

Lemma eager_ext v1 v2 n :
  (∀ p, v1 p = v2 p) → ∀ here, eager v1 here n = eager v2 here n.
Proof.
  intros Hv. induction n as [s | t a ks IH] using node_ind'; intros here; [done |].
  rewrite !eager_Elem, Hv. f_equal.
  destruct (bool_decide (t = "template")); [done |].
  generalize 0. induction IH as [| k l Hk _ IHl]; intros i; [done |].
  cbn [eager_kids]. by rewrite Hk, IHl.
Qed.

(** Tag selectors see the same elements before and after. *)
Lemma select_eager_tag visible t0 n :
  ∀ par par' here,
    select (λ _ x, has_tag t0 x) par here (eager visible here n) =
    select (λ _ x, has_tag t0 x) par' here n.
Proof.
  induction n as [s | t a ks IH] using node_ind'; intros par par' here; [done |].
  rewrite eager_Elem, !select_Elem. f_equal. cbn [light_kids].
  destruct (bool_decide (t = "template")); [done |].
  generalize (Elem t
                (if bool_decide (t = "img") && visible here
                 then assoc_set "loading" "eager" a else a) (eager_kids visible here 0 ks)).
  generalize (Elem t a ks). intros x y. generalize 0.
  induction IH as [| k l Hk _ IHl]; intros i; [done |].
  cbn [eager_kids select_kids]. by rewrite (Hk (Some y) (Some x)), IHl.
Qed.

(** [loadEagerImages] leaves every node where it was, with its tag and the
    number of its children; the attributes of an [img] the platform reports
    visible get [loading="eager"], unless the image lies in the content of a
    template; all other attributes and all text stay. *)
Theorem loadEagerImages_pointwise (P : platform) (doc : node) (p : path) (n : node) :
  subtree doc p = Some n →
  ∃ n',
    subtree (loadEagerImages P doc) p = Some n' ∧
    tag_of n' = tag_of n ∧
    is_element n' = is_element n ∧
    length (kids_of n') = length (kids_of n) ∧
    textContent n' = textContent n ∧
    attrs_of n' =
      (if has_tag "img" n && visible P p && bool_decide (is_Some (reach doc p))
       then assoc_set "loading" "eager" (attrs_of n) else attrs_of n).
Proof.
  intros Hn. rewrite loadEagerImages_eager, (subtree_eager _ _ _ _ _ Hn). simpl.
  eexists. split; [done |].
  assert (∀ x here, textContent (eager (visible P) here x) = textContent x) as Htext.
  { clear. induction x as [s | t a ks IH] using node_ind'; intros here; [done |].
    rewrite eager_Elem. simpl. destruct (bool_decide (t = "template")); [done |].
    generalize 0.
    induction IH as [| k l Hk _ IHl]; intros i; [done |].
    cbn [eager_kids foldr]. by rewrite Hk, IHl. }
  destruct (bool_decide (is_Some (reach doc p))); [| by rewrite andb_false_r].
  rewrite andb_true_r.
  split_and!; try apply Htext; destruct n as [s | t a ks]; try done.
  rewrite eager_Elem. simpl. destruct (bool_decide (t = "template")); [done |].
  clear. generalize 0.
  induction ks as [| k ks IH]; intros i; [done |]. simpl. by rewrite IH.
Qed.

Lemma loadEagerImages_pointwise_witness :
  ∃ n',
    subtree (loadEagerImages viewport_platform hero_page) [0; 0; 0; 0; 0; 0] = Some n' ∧
    tag_of n' = "img" ∧
    is_element n' = true ∧
    length (kids_of n') = 0 ∧
    textContent n' = "" ∧
    attrs_of n' = [("src", "a.png"); ("loading", "eager")].
Proof.
  exact (loadEagerImages_pointwise viewport_platform hero_page [0; 0; 0; 0; 0; 0]
           (Elem "img" [("src", "a.png")] []) eq_refl).
Defined.

(** A second run, which measures again, makes eager the images it sees and
    leaves eager those the first run saw; when it sees what the first run
    saw, it changes nothing. *)
Theorem loadEagerImages_twice (P1 P2 : platform) (doc : node) :
  loadEagerImages P2 (loadEagerImages P1 doc) =
    eager (λ p, visible P1 p || visible P2 p) [] doc ∧
  ((∀ p, visible P2 p = visible P1 p) →
   loadEagerImages P2 (loadEagerImages P1 doc) = loadEagerImages P1 doc).
Proof.
  rewrite !loadEagerImages_eager, eager_eager. split; [done |].
  intros H. apply eager_ext. intros p. rewrite H. by destruct (visible P1 p).
Qed.

(** ** [initialize], the whole of it *)

Lemma setup_keeps P w :
  w_document (setup P w) = w_document w ∧
  w_registry (setup P w) = w_registry w ∧
  w_trace (setup P w) = w_trace w ∧
  w_fetches (setup P w) = w_fetches w ∧
  w_beacons (setup P w) = w_beacons w.
Proof.
  unfold setup. destruct (querySelector scripts_js (w_document w)); [| done].
  by destruct (url_pathname P _).
Qed.

Lemma preloadFragments_keeps P w :
  w_registry (preloadFragments P w).2 = w_registry w ∧
  w_trace (preloadFragments P w).2 = w_trace w ∧
  w_fetches (preloadFragments P w).2 = w_fetches w ∧
  w_beacons (preloadFragments P w).2 = w_beacons w ∧
  w_hlx (preloadFragments P w).2 = w_hlx w.
Proof. unfold preloadFragments. by destruct (foldl _ _ _) as [[ps σ] l]. Qed.

Lemma assoc_get_None_fst {V} k (l : list (string * V)) :
  assoc_get k l = None → k ∉ l.*1.
Proof.
  induction l as [| [k' v] l IH]; simpl; [by intros _ ?%elem_of_nil |].
  destruct (decide (k' = k)); [done |]. intros H [? | ?]%elem_of_cons; [done |].
  by apply IH.
Qed.

(** Registering only adds to the registry, and only names it does not
    hold. *)
Lemma register_all_registry P os :
  ∀ w,
    w_registry w `prefix_of` w_registry (foldl (register P) w os) ∧
    (NoDup (w_registry w).*1 → NoDup (w_registry (foldl (register P) w os)).*1).
Proof.
  induction os as [| o os IH] using rev_ind; intros w; [done |].
  rewrite foldl_app. simpl. destruct (IH w) as [Hp Hn].
  set (w1 := foldl (register P) w os) in *.
  unfold register. destruct o as [v |]; [| done].
  destruct (assoc_get (name v) (w_registry w1)) eqn:E; [done |].
  unfold define. destruct (_ && _); [| done]. simpl. split.
  - etransitivity; [apply Hp |]. by apply prefix_app_r.
  - intros Hw. rewrite fmap_app. apply NoDup_app. split_and!; [by apply Hn | |].
    + intros x Hx ->%list_elem_of_singleton. by apply assoc_get_None_fst in E.
    + apply NoDup_singleton.
Qed.

Lemma mark_loaded_keeps w w' :
  mark_loaded w = Ok w' → w_registry w' = w_registry w ∧ w_fetches w' = w_fetches w.
Proof.
  unfold mark_loaded. destruct (document_body _); [| done]. by intros [= <-].
Qed.

Lemma load_and_register_registry_eq P r w :
  ∃ w2 lc,
    w_registry w2 = w_registry w ∧
    w_registry (world_of (load_and_register P r w)) = w_registry (foldl (register P) w2 lc).
Proof.
  unfold load_and_register.
  destruct (loadTemplates_spec P (templates r) w) as (w1 & -> & Hh1 & Hr1 & Ht1 & Hc1 & Hs1).
  destruct (loadBlocks_spec P (components r) w1) as (l & ->).
  cbv beta iota zeta.
  destruct (allSettled2 _ _) as [| [? [lc | ?]] | ?];
    try (exists w, []; split; [done |]; simpl; by rewrite Hr1).
  exists (passed BatchesSettled (log l w1)), lc. split; [done |].
  destruct (mark_loaded _) as [w4 | e] eqn:Em; [| done].
  apply mark_loaded_keeps in Em as [Hr4 _]. simpl.
  destruct (sampleRUM_top_frame P (loadFonts P w4)) as [(-> & _) _].
  destruct (loadFonts_frame P w4) as (-> & _). done.
Qed.

Lemma initialize_registry_eq P w :
  ∃ w2 lc,
    w_registry w2 = w_registry w ∧
    w_registry (world_of (initialize P w)) = w_registry (foldl (register P) w2 lc).
Proof.
  unfold initialize.
  destruct (setup_keeps P w) as (Hd & Hr & Ht & Hf & Hb).
  destruct (buildHeroBlock _) as [d1 | e]; [| exists w, []; by split].
  match goal with |- context [preloadFragments P ?w0] =>
    destruct (preloadFragments_keeps P w0) as (Hr2 & _);
    destruct (preloadFragments P w0) as [fs w2] end.
  simpl in Hr2. cbv beta iota zeta.
  destruct (allSettled fs); try (exists w, []; split; [done |]; simpl; congruence).
  destruct (getBlockResources _ _) as [[doc r] | e];
    [| exists w, []; split; [done |]; simpl; congruence].
  destruct (load_and_register_registry_eq P r (set_document doc w2)) as (w3 & lc & H3 & ->).
  exists w3, lc. split; [| done]. rewrite H3. simpl. congruence.
Qed.

(** Whatever becomes of [initialize], the registry only grows, and it never
    gets a name twice: a kind already defined is not defined again. *)
Theorem initialize_registry_grows (P : platform) (w : world) :
  w_registry w `prefix_of` w_registry (world_of (initialize P w)) ∧
  (NoDup (w_registry w).*1 → NoDup (w_registry (world_of (initialize P w))).*1).
Proof.
  destruct (initialize_registry_eq P w) as (w2 & lc & H2 & ->).
  destruct (register_all_registry P lc w2) as [Hp Hn]. by rewrite H2 in Hp, Hn.
Qed.

Lemma initialize_registry_grows_witness :
  [] `prefix_of` w_registry (world_of (initialize blocks_platform blocks_world)) ∧
  NoDup (w_registry (world_of (initialize blocks_platform blocks_world))).*1.
Proof.
  destruct (initialize_registry_grows blocks_platform blocks_world) as [Hp Hn].
  split; [exact Hp | apply Hn; constructor].
Defined.

(** Whenever [initialize] completes, the milestones it passed are: the two
    fetch batches settled, then the registrations, then the body marked
    loaded; each registration is in the registry, and the body of the final
    document has the status [loaded]. *)
Theorem initialize_order (P : platform) (w w' : world) :
  initialize P w = Completed w' →
  ∃ ns,
    w_trace w' = w_trace w ++ [BatchesSettled] ++ (Registered <$> ns) ++ [PageLoaded] ∧
    ns ⊆ (λ kv, kv.1) <$> w_registry w' ∧
    body_status (w_document w') = Some "loaded".
Proof.
  unfold initialize.
  destruct (setup_keeps P w) as (Hd & Hr & Ht & Hf & Hb).
  destruct (buildHeroBlock _) as [d1 | e]; [| done].
  match goal with |- context [preloadFragments P ?w0] =>
    destruct (preloadFragments_keeps P w0) as (_ & Ht2 & _);
    destruct (preloadFragments P w0) as [fs w2] end.
  simpl in Ht2. cbv beta iota zeta.
  destruct (allSettled fs); try done.
  destruct (getBlockResources _ _) as [[doc r] | e]; [| done].
  intros (ns & Hns & ? & ?)%load_and_register_order. exists ns.
  split_and!; try done. rewrite Hns. simpl. congruence.
Qed.

Lemma initialize_order_witness :
  ∃ ns,
    [BatchesSettled; Registered "aem-cards"; PageLoaded] =
      [] ++ [BatchesSettled] ++ (Registered <$> ns) ++ [PageLoaded] ∧
    ns ⊆ (λ kv, kv.1) <$> [("aem-cards", VClass "Cards")] ∧
    body_status
      (Elem "html" []
         [Elem "head" []
            [Elem "link" [("rel", "stylesheet"); ("href", "/styles/fonts.css")] []];
          Elem "body" [("data-status", "loaded")]
            [Elem "main" []
               [Elem "div" []
                  [Elem "aem-cards" [] [Elem "div" [("slot", "item")] [Text "A"]];
                   Elem "aem-hero" [] [Elem "div" [("slot", "item")] [Text "B"]]]];
             Elem "template" [("id", "aem-cards")] [Elem "slot" [] []]]]) = Some "loaded".
Proof.
  apply (initialize_order blocks_platform blocks_world
           (World
              (Elem "html" []
                 [Elem "head" []
                    [Elem "link" [("rel", "stylesheet"); ("href", "/styles/fonts.css")] []];
                  Elem "body" [("data-status", "loaded")]
                    [Elem "main" []
                       [Elem "div" []
                          [Elem "aem-cards" [] [Elem "div" [("slot", "item")] [Text "A"]];
                           Elem "aem-hero" [] [Elem "div" [("slot", "item")] [Text "B"]]]];
                     Elem "template" [("id", "aem-cards")] [Elem "slot" [] []]]])
              (Some (Hlx (Some (Rum 100 "" (1 # 2) false 0 (Some mask_full)))
                       (Some "full") "" false))
              [("aem-cards", VClass "Cards")]
              [LogWarn "Failed to load module for aem-hero"] []
              ["/blocks/aem-cards/aem-cards.html"; "/blocks/aem-hero/aem-hero.html"]
              [] ["load"; "unhandledrejection"; "error"] [("fonts-loaded", "true")]
              63 1 [BatchesSettled; Registered "aem-cards"; PageLoaded] None)).
  vm_compute. reflexivity.
Defined.

(** A page without a [main] element: [buildHeroBlock] throws on the null it
    gets, and [initialize] rejects with that error after [setup] and
    [loadEagerImages]; nothing is fetched, registered or sent, and the body
    is not marked. *)
Theorem initialize_without_main_fails (P : platform) (w : world) :
  querySelector main_selector (w_document w) = None →
  ∃ w',
    initialize P w = Failed TypeError w' ∧
    w_document w' = loadEagerImages P (w_document w) ∧
    w_registry w' = w_registry w ∧
    w_fetches w' = w_fetches w ∧
    w_beacons w' = w_beacons w ∧
    w_trace w' = w_trace w.
Proof.
  intros Hmain. unfold initialize.
  destruct (setup_keeps P w) as (Hd & Hr & Ht & Hf & Hb).
  cbv zeta. cbn [w_document set_document].
  assert (buildHeroBlock (loadEagerImages P (w_document (setup P w))) = Throw TypeError)
    as ->.
  { unfold buildHeroBlock. rewrite Hd, loadEagerImages_eager.
    unfold querySelector, querySelectorAll in *.
    change main_selector with (λ (_ : option node) x, has_tag "main" x) in *.
    by rewrite (select_eager_tag _ _ _ None None), Hmain. }
  eexists. split; [reflexivity |]. simpl. by rewrite Hd.
Qed.

Lemma initialize_without_main_fails_witness :
  ∃ w',
    initialize sampled_platform
      (World nested_page None [] [] [] [] [] [] [] 0 0 [] None) = Failed TypeError w' ∧
    w_document w' = loadEagerImages sampled_platform nested_page ∧
    w_registry w' = [] ∧ w_fetches w' = [] ∧ w_beacons w' = [] ∧ w_trace w' = [].
Proof.
  exact (initialize_without_main_fails sampled_platform
           (World nested_page None [] [] [] [] [] [] [] 0 0 [] None) eq_refl).
Defined.

(** ** [getBlockResources], the whole of it *)

Lemma set_add_NoDup x s : NoDup s → NoDup (set_add x s).
Proof.
  intros H. unfold set_add. case_decide; [done |].
  apply NoDup_app. split_and!; [done | | apply NoDup_singleton].
  by intros y Hy ->%list_elem_of_singleton.
Qed.

Lemma elem_of_set_add y x s : y ∈ set_add x s ↔ y = x ∨ y ∈ s.
Proof.
  unfold set_add. case_decide.
  - split; [by right | by intros [-> | ?]].
  - rewrite elem_of_app, list_elem_of_singleton. tauto.
Qed.

Lemma components_foldl_add_kind B ks :
  ∀ r,
    (NoDup (components r) → NoDup (components (foldl (add_kind B) r ks))) ∧
    ∀ x, x ∈ components (foldl (add_kind B) r ks) ↔
         x ∈ components r ∨
         x ∈ (λ k, toLowerCase (unicode_lower B) (ascii_lowercase k)) <$> ks.
Proof.
  induction ks as [| k ks IH]; intros r.
  - split; [done |]. intros x. simpl. split; [by left | intros [? | ?%elem_of_nil]; done].
  - cbn [foldl]. destruct (IH (add_kind B r k)) as [Hn He]. split.
    + intros H. apply Hn. by apply set_add_NoDup.
    + intros x. rewrite He. cbn [add_kind components].
      rewrite elem_of_set_add, fmap_cons, elem_of_cons. tauto.
Qed.

Lemma startsWith_app pre s : startsWith (pre +:+ s) pre = true.
Proof. induction pre as [| c pre IH]; [by destruct s |]. simpl. by rewrite decide_True. Qed.

Lemma textContent_set_slot v n : textContent (set_slot v n) = textContent n.
Proof. by destruct n. Qed.

(** Where markup parses back to itself, an upgrade keeps the text. *)
Lemma textContent_upgrade B n :
  (∀ t m, reparse B t m = m) → textContent (upgrade B n) = textContent n.
Proof.
  intros Hre. induction n as [s | t a ks IH] using node_ind'; [done |].
  cbn [upgrade]. destruct (eligible (Elem t a ks)).
  - unfold custom. rewrite Hre. cbn [textContent kids_of]. clear IH.
    induction ks as [| k ks IHks]; [done |]. rewrite fmap_cons. cbn [foldr].
    by rewrite textContent_set_slot, IHks.
  - destruct (bool_decide (t = "template")); [done |].
    cbn [textContent]. induction IH as [| k l Hk _ IHl]; [done |].
    rewrite fmap_cons. cbn [foldr]. by rewrite Hk, IHl.
Qed.

Lemma kinds_are_kinds B n k : k ∈ kinds B n → ∃ x, k = kind B x.
Proof.
  revert k. induction n as [s | t a ks IH] using node_ind'; intros k; cbn [kinds].
  - destruct (eligible (Text s)); [| by intros ?%elem_of_nil].
    intros ->%list_elem_of_singleton. by eexists.
  - intros [Hk | Hk]%elem_of_app.
    + destruct (eligible (Elem t a ks)); [| by apply elem_of_nil in Hk].
      apply list_elem_of_singleton in Hk as ->. by eexists.
    + destruct (bool_decide (t = "template")); [by apply elem_of_nil in Hk |].
      apply list_elem_of_bind in Hk as (x & Hk & Hx).
      rewrite Forall_forall in IH. by apply (IH x Hx).
Qed.

(** The scan returns exactly when every kind it meets is a name the browser
    accepts for an element, and throws [InvalidCharacterError] otherwise (a
    class attribute with a space in it is enough).  The kinds are those of
    the containers outside the content of templates, and each begins with
    [aem-].  When the scan returns, the document is the one in which the
    outermost containers are upgraded, and the components are the lower-cased
    tag names of the elements created for the kinds, each once; where markup
    parses back to itself the text of the document is unchanged. *)
Theorem getBlockResources_returns_or_refuses (B : browser) (doc : node) :
  (∀ k, k ∈ kinds B doc → startsWith k "aem-" = true) ∧
  match getBlockResources B doc with
  | Ok (doc', r) =>
      (∀ k, k ∈ kinds B doc → valid_name B k = true) ∧
      doc' = upgrade B doc ∧
      ((∀ t m, reparse B t m = m) → textContent doc' = textContent doc) ∧
      NoDup (components r) ∧
      (∀ x, x ∈ components r ↔
            x ∈ (λ k, toLowerCase (unicode_lower B) (ascii_lowercase k)) <$> kinds B doc)
  | Throw e =>
      e = InvalidCharacterError ∧ ∃ k, k ∈ kinds B doc ∧ valid_name B k = false
  end.
Proof.
  split.
  { intros k [x ->]%kinds_are_kinds. apply startsWith_app. }
  rewrite getBlockResources_discovered. unfold discovered.
  destruct (forallb (valid_name B) (kinds B doc)) eqn:E.
  - rewrite forallb_forall in E.
    destruct (components_foldl_add_kind B (kinds B doc) (Resources [] [])) as [Hn He].
    split_and!; try done.
    + intros k Hk. apply E. by apply list_elem_of_In.
    + apply textContent_upgrade.
    + apply Hn. constructor.
    + intros x. rewrite He. simpl. rewrite elem_of_nil. tauto.
  - split; [done |].
    assert (¬ Forall (λ k, valid_name B k = true) (kinds B doc)) as Hnot.
    { intros H. rewrite Forall_forall in H. rewrite <- not_true_iff_false in E. apply E.
      apply forallb_forall. intros k Hk. apply H. by apply list_elem_of_In. }
    apply not_Forall_Exists in Hnot; [| intros k; apply _].
    apply Exists_exists in Hnot as (k & Hk & Hv). exists k. split; [done |].
    simpl in Hv. by destruct (valid_name B k).
Qed.

(** ** [setup] *)

Lemma startsWith_spec s pre : startsWith s pre = true ↔ ∃ rest, s = pre +:+ rest.
Proof.
  revert s. induction pre as [| a pre IH]; intros s.
  - split; [intros _; by exists s | by destruct s].
  - destruct s as [| b s]; simpl.
    + split; [done | by intros [? ?]].
    + destruct (decide (a = b)) as [-> | Hne].
      * rewrite IH. split; intros [rest H]; exists rest; [by rewrite H | by injection H].
      * split; [done |]. intros [rest H]. by injection H.
Qed.

(** [s.split(sep)[0]]: what comes before the first occurrence of [sep], and
    all of [s] when [sep] does not occur. *)
Lemma before_first_spec sep s :
  if includes s sep
  then (∃ rest, s = before_first sep s +:+ sep +:+ rest) ∧
       ∀ b rest, s = b +:+ sep +:+ rest →
         String.length (before_first sep s) ≤ String.length b
  else before_first sep s = s.
Proof.
  induction s as [| c s IH].
  - cbn [includes before_first]. destruct (startsWith "" sep) eqn:E; cbn [orb]; [| done].
    split; [| simpl; lia]. by apply startsWith_spec in E.
  - cbn [includes before_first]. destruct (startsWith (String c s) sep) eqn:E.
    + cbn [orb]. split; [| simpl; lia]. by apply startsWith_spec in E.
    + cbn [orb]. destruct (includes s sep).
      * destruct IH as [[rest Hrest] Hfirst]. split.
        -- exists rest. change (String c (before_first sep s) +:+ sep +:+ rest)
             with (String c (before_first sep s +:+ sep +:+ rest)). by rewrite <- Hrest.
        -- intros b rest' Hb. destruct b as [| c' b].
           ++ assert (startsWith (String c s) sep = true) as E'
                by (apply startsWith_spec; by exists rest').
              congruence.
           ++ injection Hb as -> Hb. simpl. specialize (Hfirst _ _ Hb). lia.
      * by rewrite IH.
Qed.

(** The base path [setup] derives.  Without a script whose [src] ends in
    [/scripts/scripts.js] it is empty; when the address of the script cannot
    be parsed it is empty and the error is logged; otherwise it is what comes
    before the first [/scripts/scripts.js] of the path of the script (no
    occurrence starts earlier), and the whole path when the path does not
    hold it.  In every case the mask is [full] and the session, if there is
    one, is kept. *)
Theorem setup_codeBasePath (P : platform) (w : world) :
  RUM_MASK_URL (default empty_hlx (w_hlx (setup P w))) = Some "full" ∧
  hlx_rum (default empty_hlx (w_hlx (setup P w))) = hlx_rum (default empty_hlx (w_hlx w)) ∧
  match querySelector scripts_js (w_document w) with
  | None =>
      codeBasePath (default empty_hlx (w_hlx (setup P w))) = "" ∧
      w_console (setup P w) = w_console w
  | Some scriptEl =>
      match url_pathname P
              (default "" (assoc_get "src" (attrs_of (cloneNode (w_document w) scriptEl))))
      with
      | None =>
          codeBasePath (default empty_hlx (w_hlx (setup P w))) = "" ∧
          w_console (setup P w) = w_console w ++ [LogInfo "TypeError"]
      | Some pathname =>
          w_console (setup P w) = w_console w ∧
          let base := codeBasePath (default empty_hlx (w_hlx (setup P w))) in
          if includes pathname "/scripts/scripts.js"
          then (∃ rest, pathname = base +:+ "/scripts/scripts.js" +:+ rest) ∧
               ∀ b rest, pathname = b +:+ "/scripts/scripts.js" +:+ rest →
                 String.length base ≤ String.length b
          else base = pathname
      end
  end.
Proof.
  unfold setup. destruct (querySelector scripts_js (w_document w)) as [el |]; [| done].
  destruct (url_pathname P _) as [pathname |]; [| done].
  split_and!; try done. cbn [w_hlx set_hlx default codeBasePath].
  apply before_first_spec.
Qed.

(** ** [setup], then [sampleRUM] *)

Lemma setup_mask P w :
  RUM_MASK_URL (default empty_hlx (w_hlx (setup P w))) = Some "full" ∧
  hlx_rum (default empty_hlx (w_hlx (setup P w))) = hlx_rum (default empty_hlx (w_hlx w)).
Proof.
  unfold setup. destruct (querySelector scripts_js (w_document w)); [| done].
  by destruct (url_pathname P _).
Qed.

(** After [setup] on a page visited with [?rum=on] that has no session yet,
    every call of [sampleRUM] whose data is plain (no BigInt, no [toJSON]
    method, nothing callable where an object is expected) sends its beacon: a
    sequence of such calls sends as many beacons as there are calls. *)
Theorem setup_then_sampleRUM_forced (P : platform) (w : world)
    (calls : list (string * list (string * value))) :
  assoc_get "rum" (search (loc P)) = Some "on" →
  (∀ n, (0 <= rand P n)%Q ∧ (rand P n < 1)%Q ∧ double (rand P n)) →
  hlx_rum (default empty_hlx (w_hlx w)) = None →
  Forall (λ cd, plain knownProperties (VObj cd.2) = true) calls →
  length (w_beacons (foldl (λ w cd, sampleRUM P cd.1 cd.2 w) (setup P w) calls)) =
    length (w_beacons w) + length calls.
Proof.
  intros Hon Hrand Hnone Hplain.
  assert (forced_session P (setup P w)) as Hf.
  { split; [done |]. destruct (setup_mask P w) as (Hm & Hr).
    rewrite Hr, Hnone, Hm. split; [done | reflexivity]. }
  destruct (setup_keeps P w) as (_ & _ & _ & _ & <-).
  revert Hf. generalize (setup P w) as w0. clear Hnone w.
  induction Hplain as [| [c d] calls Hd _ IH]; intros w0 Hf; simpl; [lia |].
  destruct (forced_session_one_beacon P c d w0 Hf Hd) as [[b Hb] Hf'].
  rewrite (IH _ Hf'), Hb, length_app. simpl. lia.
Qed.

Lemma setup_then_sampleRUM_forced_witness :
  length (w_beacons
            (foldl (λ w cd, sampleRUM sampled_platform cd.1 cd.2 w)
               (setup sampled_platform blocks_world)
               [("top", []); ("lazy", []); ("cwv", [("cwv", VNum 1)])])) = 0 + 3.
Proof.
  apply (setup_then_sampleRUM_forced sampled_platform blocks_world
           [("top", []); ("lazy", []); ("cwv", [("cwv", VNum 1)])]).
  - reflexivity.
  - intros n. cbn [rand sampled_platform].
    destruct (n mod 8 =? 3); split_and!; by vm_compute.
  - reflexivity.
  - repeat constructor.
Defined.

(** ** [loadCSS] and [loadTemplate], called again *)

Lemma child_tagged_tag ts doc i :
  child_tagged ts doc = Some [i] →
  ∃ k, kids_of doc !! i = Some k ∧ tag_of k ∈ ts ∧ is_element k = true.
Proof.
  unfold child_tagged. destruct (has_tag "html" doc); [| done].
  destruct (list_find _ (kids_of doc)) as [[j k] |] eqn:E; [| done]. intros [= <-].
  apply list_find_Some in E as (Hk & [Ht He] & _). by exists k.
Qed.

(** Where a node appended to a child of the root ends up, and under what. *)
Lemma appended_child ts doc p n :
  "template" ∉ ts →
  child_tagged ts doc = Some p →
  ∃ q x,
    reach (document (append (pristine doc) p n)) q = Some n ∧
    parent_in None (document (append (pristine doc) p n)) q = Some x ∧
    tag_of x ∈ ts ∧ is_element x = true.
Proof.
  intros Hts Hp. unfold append.
  assert (has_tag "html" doc = true) as Hhtml
    by (unfold child_tagged in Hp; by destruct (has_tag "html" doc)).
  destruct (child_tagged_Some _ _ _ Hp) as (t & a & ks & i & k & -> & -> & Hk & He).
  destruct (child_tagged_tag _ _ _ Hp) as (k' & Hk' & Ht & _).
  simpl in Hk'. assert (k' = k) as -> by congruence.
  rewrite (cell_at_pristine_child t a ks i k Hk). cbn [c_inner c_attrs c_pre c_post c_out].
  destruct (document_child_cell _ _ _ (Cell (attrs_of k) None [] ([] ++ [n]) None) Hp
              eq_refl eq_refl)
    as (t' & a' & ks' & i' & k'' & Hdoc & Hi & Hk'' & _ & ->).
  assert (i' = i) as -> by congruence.
  assert (t' = t ∧ a' = a ∧ ks' = ks) as (-> & -> & ->) by (by simplify_eq).
  clear Hdoc Hi Hk'' k''. cbn [c_attrs c_pre c_post].
  exists [i; length (kids_of k)], (Elem (tag_of k) (attrs_of k) (kids_of k ++ [n])).
  split_and!; [| | done | done].
  - unfold has_tag in Hhtml. simpl in Hhtml. apply bool_decide_eq_true in Hhtml.
    subst t. cbn [reach light_kids bool_decide decide_rel].
    change (bool_decide ("html" = "template")) with false. cbv iota.
    rewrite list_lookup_alter_eq, Hk. cbn [fmap option_fmap option_map light_kids].
    rewrite bool_decide_eq_false_2 by (intros Heq; by rewrite Heq in Ht).
    simpl. by rewrite lookup_app_r, Nat.sub_diag by lia.
  - unfold parent_in. cbn [removelast subtree kids_of].
    by rewrite list_lookup_alter_eq, Hk.
Qed.

(** Once [loadCSS] has run on a document with a head, a second call for the
    same address resolves at once and leaves the document as it is, whether
    the style sheet of the first call loaded or failed: for an address that
    reads in the selector as it is written (no quote, backslash, line break
    or null in it). *)
Theorem loadCSS_again_resolves (B : browser) (loads : string → bool) (href : string)
    (doc : node) :
  css_plain href = true →
  is_Some (document_head doc) →
  loadCSS B loads href (loadCSS B loads href doc).2 =
  (Fulfilled (), (loadCSS B loads href doc).2).
Proof.
  intros Hplain [h Hh]. unfold loadCSS, find_link, query. rewrite Hplain.
  destruct (querySelector (link_with_href href) doc) as [l |] eqn:E.
  - simpl. by rewrite E.
  - rewrite Hh. cbn [snd].
    assert ("template" ∉ ["head"]) as Hts by (by intros ?%list_elem_of_singleton).
    destruct (appended_child _ _ _ (Elem "link" [("rel", "stylesheet"); ("href", href)] [])
                Hts Hh)
      as (q & x & Hq & Hx & Ht & He).
    destruct (querySelector_found (link_with_href href) _ q _ Hq) as [l Hl].
    + rewrite Hx. unfold link_with_href, has_attr, child_of. simpl.
      rewrite bool_decide_true by done. simpl.
      apply list_elem_of_singleton in Ht. destruct x; [done |]. simpl in *.
      by rewrite bool_decide_true.
    + by rewrite Hl.
Qed.

Lemma loadCSS_again_resolves_witness :
  loadCSS blocks_platform (λ _, false) "/styles/fonts.css"
    (loadCSS blocks_platform (λ _, false) "/styles/fonts.css" blocks_page).2 =
  (Fulfilled (), (loadCSS blocks_platform (λ _, false) "/styles/fonts.css" blocks_page).2).
Proof.
  apply (loadCSS_again_resolves blocks_platform (λ _, false) "/styles/fonts.css" blocks_page).
  - reflexivity.
  - by eexists.
Defined.

(** A template that was fetched and appended is found by the next load of
    the same block, which resolves without a fetch: provided the document has
    a body, the first node of the fetched markup is a [template] element,
    and the identifier reads in the selector as it is written. *)
Theorem loadTemplate_again_is_cached (B : browser) (fetch : string → fetched)
    (base blockName : string) (doc : node) (text : markup) (n : node) :
  css_plain (template_id (template_href base blockName)) = true →
  is_Some (document_body doc) →
  querySelector (template_with_id (template_id (template_href base blockName))) doc = None →
  fetch (template_href base blockName) = Response true (Some text) →
  head text = Some n →
  has_tag "template" n = true →
  loadTemplate B fetch base blockName
    (body_append doc (ld_appended (loadTemplate B fetch base blockName doc))) =
  Loaded (Fulfilled ()) None [].
Proof.
  intros Hplain [body Hb] Hq Hf Hn Ht. unfold loadTemplate, find_template, query.
  rewrite Hplain, Hq, Hf, Hn. simpl.
  unfold body_append. rewrite Hb.
  assert ("template" ∉ ["body"; "frameset"]) as Hts
    by (rewrite !elem_of_cons, elem_of_nil; by intros [? | [? | ?]]).
  destruct (appended_child _ _ _
              (set_id (template_id (template_href base blockName)) n) Hts Hb)
    as (q & x & Hsub & _).
  destruct (querySelector_found
              (template_with_id (template_id (template_href base blockName))) _ q _ Hsub)
    as [l Hl].
  - destruct n as [s | t a ks]; [done |].
    unfold template_with_id, has_attr. simpl in *. rewrite Ht. simpl.
    by rewrite assoc_get_set_eq, bool_decide_true.
  - by rewrite Hl.
Qed.

Lemma loadTemplate_again_is_cached_witness :
  loadTemplate blocks_platform (fetch_template blocks_platform) "" "aem-cards"
    (body_append blocks_page
       (ld_appended
          (loadTemplate blocks_platform (fetch_template blocks_platform) "" "aem-cards"
             blocks_page))) =
  Loaded (Fulfilled ()) None [].
Proof.
  apply (loadTemplate_again_is_cached blocks_platform (fetch_template blocks_platform) ""
           "aem-cards" blocks_page
           [Elem "template" [] [Elem "slot" [] []]]
           (Elem "template" [] [Elem "slot" [] []])); try reflexivity.
  by eexists.
Defined.

(** ** The identifier of a template *)

Lemma string_app_cons c s t : String c s +:+ t = String c (s +:+ t).
Proof. done. Qed.

Lemma string_app_nil_r s : s +:+ "" = s.
Proof. induction s as [| c s IH]; [done |]. by rewrite string_app_cons, IH. Qed.

Lemma string_app_assoc a b c : (a +:+ b) +:+ c = a +:+ b +:+ c.
Proof. induction a as [| x a IH]; [done |]. by rewrite !string_app_cons, IH. Qed.

Lemma rev_app_rev_app s : ∀ cur t,
  String.rev_app (String.rev_app s cur) t = String.rev_app cur (s +:+ t).
Proof.
  induction s as [| c s IH]; intros cur t; [done |].
  rewrite string_app_cons. cbn [String.rev_app]. by rewrite IH.
Qed.

Lemma string_rev_rev_app s cur :
  String.rev (String.rev_app s cur) = String.rev_app cur s.
Proof. unfold String.rev. by rewrite rev_app_rev_app, string_app_nil_r. Qed.

(** A string without the separator is one piece. *)
Lemma split_go_one sep s :
  includes s (String sep "") = false →
  ∀ cur, split_go sep cur s = [String.rev (String.rev_app s cur)].
Proof.
  induction s as [| c s IH]; intros Hs cur; [done |].
  cbn [includes startsWith] in Hs. cbn [split_go String.rev_app].
  destruct (decide (c = sep)) as [-> | Hne].
  - rewrite decide_True in Hs by done. by destruct s.
  - rewrite decide_False in Hs by done. by apply IH.
Qed.

(** The first piece is what comes before the first separator. *)
Lemma head_split_go sep s :
  ∀ cur, head (split_go sep cur s) =
         Some (String.rev (String.rev_app (before_char sep s) cur)).
Proof.
  induction s as [| c s IH]; intros cur; [done |].
  cbn [split_go before_char]. destruct (decide (c = sep)); [done |]. apply IH.
Qed.

(** The last piece is the last piece of what follows a separator. *)
Lemma last_split_go sep a b :
  ∀ cur, last (split_go sep cur (a +:+ String sep b)) = last (split_go sep "" b).
Proof.
  assert (∀ x cur s, last (x :: split_go sep cur s) = last (split_go sep cur s)) as Hlast.
  { intros x cur s.
    assert (∃ y l, split_go sep cur s = y :: l) as (y & l & ->); [| done].
    revert cur. induction s as [| c s IHs]; intros cur; cbn [split_go]; [by eexists _, _ |].
    destruct (decide (c = sep)); [by eexists _, _ | apply IHs]. }
  induction a as [| c a IH]; intros cur; [change ("" +:+ String sep b) with (String sep b) |
    rewrite string_app_cons]; cbn [split_go].
  - rewrite decide_True by done. apply Hlast.
  - destruct (decide (c = sep)); [rewrite Hlast |]; apply IH.
Qed.

Lemma before_char_app c a b : before_char c (a +:+ String c b) = before_char c a.
Proof.
  induction a as [| x a IH]; [change ("" +:+ String c b) with (String c b) |
    rewrite string_app_cons]; cbn [before_char].
  - by rewrite decide_True.
  - destruct (decide (x = c)); [done |]. by rewrite IH.
Qed.

Lemma before_char_none c s : includes s (String c "") = false → before_char c s = s.
Proof.
  induction s as [| x s IH]; [done |]. cbn [includes startsWith before_char].
  destruct (decide (c = x)) as [-> | Hne].
  - by destruct s.
  - intros H. rewrite decide_False by done. by rewrite IH.
Qed.

(** The identifier under which the template of a block is looked up and
    stored is the name of the block up to its first dot: the name itself
    when it has no dot.  (The name is taken to hold no slash; a name with one
    is no element name.) *)
Theorem template_id_of_block (base blockName : string) :
  includes blockName "/" = false →
  template_id (template_href base blockName) = before_char "." blockName ∧
  (includes blockName "." = false →
   template_id (template_href base blockName) = blockName).
Proof.
  intros Hslash.
  assert (template_id (template_href base blockName) = before_char "." blockName) as H.
  { unfold template_id, template_href, split.
    replace (base +:+ "/blocks/" +:+ blockName +:+ "/" +:+ blockName +:+ ".html")
      with ((base +:+ "/blocks/" +:+ blockName) +:+ String "/" (blockName +:+ ".html"))
      by (by rewrite !string_app_assoc).
    rewrite last_split_go, (split_go_one "/" (blockName +:+ ".html")).
    - cbn [last default]. rewrite string_rev_rev_app. cbn [String.rev_app].
      rewrite head_split_go. cbn [default].
      rewrite string_rev_rev_app. cbn [String.rev_app].
      apply (before_char_app "." blockName "html").
    - clear -Hslash. induction blockName as [| c s IH]; [done |].
      cbn [includes startsWith] in *. simpl.
      destruct (decide ("/"%char = c)); [by destruct s |]. by apply IH. }
  split; [done |]. intros Hdot. rewrite H. by apply before_char_none.
Qed.

Lemma template_id_of_block_witness :
  template_id (template_href "/site" "aem-cards.v2") = "aem-cards" ∧
  (includes "aem-cards.v2" "." = false →
   template_id (template_href "/site" "aem-cards.v2") = "aem-cards.v2").
Proof. apply (template_id_of_block "/site" "aem-cards.v2"). reflexivity. Defined.

(** ** [decorateIcon] and the observer *)

(** The document once a node was appended to one of its elements. *)
Lemma document_append_at doc p x n :
  subtree doc p = Some x → is_element x = true →
  document (append (pristine doc) p n) =
    update_at p (λ x, Elem (tag_of x) (attrs_of x) (kids_of x ++ [n])) doc.
Proof.
  intros Hx He. unfold append.
  rewrite (cell_at_fresh (pristine doc) p x) by (done || apply lookup_empty).
  cbn [c_inner c_attrs c_pre c_post c_out]. unfold document, put_cell, pristine.
  cbn [skel cells].
  rewrite (view_update_at _ (λ x, Elem (tag_of x) (attrs_of x) (kids_of x ++ [n])) p doc [] x);
    [done | done | |].
  - intros r [c Hc]. exists []. rewrite app_nil_r. simpl in Hc.
    destruct (decide (p = r)) as [-> | Hne]; [done |].
    by rewrite lookup_insert_ne, lookup_empty in Hc.
  - destruct x as [s | t a ks]; [done |]. cbn [app]. rewrite view_Elem. unfold cell_of.
    rewrite lookup_insert_eq. simpl. do 2 f_equal. rewrite view_kids_pristine; [done |].
    intros j q. rewrite lookup_insert_ne by apply app_cons_ne. apply lookup_empty.
Qed.

(** [decorateIcon] on an element of the document: it throws when no class
    name of the element starts with [icon-] (the class [icon] alone is not
    enough); otherwise the document gets one more [img], the last child of
    the element, named after the first such class name, and nothing else
    changes. *)
Theorem decorateIcon_appends_one_image (base : string) (doc : node) (elem : path)
    (x : node) :
  subtree doc elem = Some x → is_element x = true →
  match List.find (λ c, startsWith c "icon-") (classList x) with
  | Some c =>
      ∃ σ, decorateIcon base (pristine doc) elem = Ok σ ∧
           document σ =
             update_at elem
               (λ x, Elem (tag_of x) (attrs_of x)
                       (kids_of x ++ [icon_img base (substring_from 5 c)])) doc
  | None => decorateIcon base (pristine doc) elem = Throw TypeError
  end.
Proof.
  intros Hx He. unfold decorateIcon, classList_at, getAttribute.
  rewrite (cell_at_fresh (pristine doc) elem x) by (done || apply lookup_empty).
  cbn [c_attrs]. fold (classList x).
  destruct (List.find _ (classList x)) as [c |]; [| done].
  eexists. split; [done |]. by apply (document_append_at doc elem x).
Qed.

Lemma decorateIcon_appends_one_image_witness :
  ∃ σ, decorateIcon "/site" (pristine icon_page) [0; 0] = Ok σ ∧
       document σ =
         update_at [0; 0]
           (λ x, Elem (tag_of x) (attrs_of x)
                   (kids_of x ++ [icon_img "/site" (substring_from 5 "icon-search")]))
           icon_page.
Proof.
  exact (decorateIcon_appends_one_image "/site" icon_page [0; 0]
           (Elem "span" [("class", "icon icon-search")] []) eq_refl eq_refl).
Defined.

Lemma decorate_kids base parent here l :
  Forall (λ k, ∀ par here, decorate_of base k here (select icon_selector par here k)) l →
  ∀ i σ,
    (∀ j k, l !! j = Some k → subtree (skel σ) (here ++ [i + j]) = Some k) →
    (∀ j q, i ≤ j → cells σ !! (here ++ [j] ++ q) = None) →
    if forallb named l
    then ∃ σ', forEach (decorateIcon base) (select_kids icon_selector parent here i l) σ
               = Ok σ' ∧
               skel σ' = skel σ ∧
               (∀ p, (∀ j q, i ≤ j → p ≠ here ++ [j] ++ q) → cells σ' !! p = cells σ !! p) ∧
               view_kids (cells σ') here i l = decorated base <$> l
    else forEach (decorateIcon base) (select_kids icon_selector parent here i l) σ
         = Throw TypeError.
Proof.
  induction 1 as [| k l Hk _ IH]; intros i σ Hsub Hpri.
  - simpl. by exists σ.
  - cbn [select_kids forallb]. rewrite forEach_app.
    specialize (Hk (Some parent) (here ++ [i]) σ) as Hk'. lapply Hk'; clear Hk'.
    2: { specialize (Hsub 0 k eq_refl). by rewrite Nat.add_0_r in Hsub. }
    intros Hk'. lapply Hk'; clear Hk'.
    2: { intros q. rewrite <- app_assoc. by apply Hpri. }
    intros Hk'. destruct (named k); cbn [andb]; [| by rewrite Hk'].
    destruct Hk' as (σ1 & -> & [Hs1 Ho1] & Hv1). rewrite bind_Ok.
    specialize (IH (S i) σ1). lapply IH; clear IH.
    2: { intros j k' Hj. rewrite Hs1. replace (S i + j) with (i + S j) by lia.
         by apply Hsub. }
    intros IH. lapply IH; clear IH.
    2: { intros j q Hj. rewrite Ho1; [apply Hpri; lia |].
         intros q'. rewrite <- app_assoc. apply sibling_paths_ne. lia. }
    intros IH. destruct (forallb named l); [| done].
    destruct IH as (σ2 & -> & Hs2 & Ho2 & Hv2).
    exists σ2. split; [done |]. split; [congruence |]. split.
    + intros p Hp. rewrite Ho2, Ho1; [done | |].
      * intros q. rewrite <- app_assoc. by apply Hp.
      * intros j q Hj. apply Hp. lia.
    + cbn [view_kids fmap list_fmap]. rewrite Hv2.
      rewrite (view_ext _ (cells σ1)); [by rewrite Hv1 |].
      intros q. apply Ho2. intros j q' Hj. rewrite <- app_assoc.
      apply sibling_paths_ne. lia.
Qed.

(** The loop over the icons of a subtree comes to its recursive
    description. *)
Lemma decorate_node base n :
  ∀ par here, decorate_of base n here (select icon_selector par here n).
Proof.
  induction n as [s | t a ks IH] using node_ind'; intros par here σ Hn Hpri.
  - simpl. exists σ. repeat split; done.
  - rewrite select_Elem, forEach_app.
    set (n := Elem t a ks) in *.
    assert (∀ p, (∀ j q, p ≠ here ++ [j] ++ q) ↔ (p = here ∨ ∀ q, p ≠ here ++ q)) as Hout.
    { intros p. split.
      - intros H. destruct (decide (p = here)) as [| Hne]; [by left | right].
        intros [| j q] ->; [by rewrite app_nil_r in Hne | by apply (H j q)].
      - intros [-> | H] j q; [apply app_cons_ne | apply H]. }
    assert (∀ σ0,
      subtree (skel σ0) here = Some n →
      (∀ j q, cells σ0 !! (here ++ [j] ++ q) = None) →
      if (if bool_decide (t = "template") then true else forallb named ks)
      then ∃ σ', forEach (decorateIcon base)
                   (select_kids icon_selector n here 0 (light_kids n)) σ0 = Ok σ' ∧
                 skel σ' = skel σ0 ∧
                 (∀ p, (∀ j q, p ≠ here ++ [j] ++ q) → cells σ' !! p = cells σ0 !! p) ∧
                 view_kids (cells σ') here 0 ks =
                   (if bool_decide (t = "template") then ks else decorated base <$> ks)
      else forEach (decorateIcon base)
             (select_kids icon_selector n here 0 (light_kids n)) σ0 = Throw TypeError)
      as Hkids.
    { intros σ0 Hn0 Hpri0. unfold n. cbn [light_kids].
      destruct (bool_decide (t = "template")).
      - exists σ0. split_and!; try done. by apply view_kids_pristine.
      - pose proof (decorate_kids base n here ks IH 0 σ0) as H.
        lapply H; clear H.
        2: { intros j k Hj. rewrite subtree_app, Hn0. simpl. by rewrite Hj. }
        intros H. lapply H; clear H; [| by intros j q _].
        intros H. destruct (forallb named ks); [| done].
        destruct H as (σ' & ? & ? & Ho & ?). exists σ'. split_and!; try done.
        intros p Hp. apply Ho. intros j q _. apply Hp. }
    pose proof (Hpri []) as Hh. rewrite app_nil_r in Hh.
    assert (named n =
            (if has_class "icon" n then bool_decide (is_Some (icon_name n)) else true) &&
            (if bool_decide (t = "template") then true else forallb named ks)) as -> by done.
    assert (decorated base n =
            Elem t a ((if bool_decide (t = "template") then ks else decorated base <$> ks) ++
                      (if has_class "icon" n
                       then [icon_img base (default "" (icon_name n))] else [])))
      as -> by done.
    change (icon_selector par n) with (has_class "icon" n).
    destruct (has_class "icon" n) eqn:Hicon.
    + cbn [forEach].
      assert (decorateIcon base σ here =
              match icon_name n with
              | Some name =>
                  Ok (put_cell σ here (Cell (attrs_of n) None [] [icon_img base name] None))
              | None => Throw TypeError
              end) as ->.
      { unfold decorateIcon, classList_at, getAttribute, append, icon_name.
        rewrite (cell_at_fresh σ here n) by done. cbn [c_attrs c_inner c_pre c_post c_out].
        change (match assoc_get "class" (attrs_of n) with
                | Some c => tokens c | None => [] end) with (classList n).
        by destruct (List.find _ (classList n)). }
      destruct (icon_name n) as [name |]; [| done].
      rewrite bool_decide_eq_true_2 by (by eexists). cbn [andb default]. rewrite !bind_Ok.
      set (c0 := Cell (attrs_of n) None [] [icon_img base name] None).
      specialize (Hkids (put_cell σ here c0) Hn). lapply Hkids; clear Hkids.
      2: { intros j q. simpl. rewrite lookup_insert_ne by apply app_cons_ne. apply Hpri. }
      intros Hkids. destruct (if bool_decide (t = "template") then _ else _); [| done].
      destruct Hkids as (σ' & -> & Hs & Ho & Hv). exists σ'. split; [done |]. split.
      * split; [done |]. intros p Hp. rewrite Ho by (apply Hout; by right).
        simpl. apply lookup_insert_ne. intros ->. apply (Hp []). by rewrite app_nil_r.
      * unfold n. rewrite view_Elem. unfold cell_of.
        rewrite Ho by (apply Hout; by left). simpl. rewrite lookup_insert_eq. simpl.
        by rewrite Hv.
    + cbn [forEach andb]. rewrite bind_Ok.
      specialize (Hkids σ Hn). lapply Hkids; clear Hkids; [| intros j q; apply Hpri].
      intros Hkids. destruct (if bool_decide (t = "template") then _ else _); [| done].
      destruct Hkids as (σ' & -> & Hs & Ho & Hv). exists σ'. split; [done |]. split.
      * split; [done |]. intros p Hp. apply Ho. apply Hout. by right.
      * unfold n. rewrite view_Elem. unfold cell_of.
        rewrite Ho by (apply Hout; by left). rewrite Hh. simpl.
        by rewrite Hv, app_nil_r.
Qed.

(** The observer decorates the icons below an added element, never the
    added element itself, whatever its class: when each of them has a class
    name that starts with [icon-], each gets its image for last child, in
    one pass over the list made before the first image is appended, and
    nothing else in the document changes; when one of them has no such class
    name the callback throws.  Icons in the content of a template are not
    reached. *)
Theorem observer_callback_decorates_icons (base : string) (doc : node) (added : path)
    (x : node) :
  subtree doc added = Some x → is_element x = true →
  observer_callback base doc [[added]] =
    if forallb named (light_kids x)
    then Ok (update_at added (λ _, decorated_below base x) doc)
    else Throw TypeError.
Proof.
  intros Hx He. unfold observer_callback. cbn [forEach].
  unfold decorate_added. rewrite Hx. destruct x as [s | t a ks]; [done |].
  unfold querySelectorAll_in. rewrite Hx. unfold decorated_below. cbn [light_kids].
  destruct (decide (t = "template")) as [-> | Hnt].
  { change (bool_decide ("template" = "template")) with true. cbv iota.
    cbn [select_kids forEach forallb]. rewrite !bind_Ok.
    rewrite document_pristine. f_equal. clear He. revert doc Hx.
    induction added as [| i q IH]; intros doc Hx; simpl in *; [by simplify_eq |].
    destruct doc as [s | t' a' ks']; [done |]. simpl in Hx. f_equal.
    destruct (ks' !! i) as [k |] eqn:Hk; [| done].
    apply list_eq. intros j. destruct (decide (i = j)) as [<- | Hne].
    - rewrite list_lookup_alter_eq, Hk. simpl. f_equal. by apply IH.
    - by rewrite list_lookup_alter_ne. }
  rewrite !(bool_decide_eq_false_2 (t = "template")) by done.
  set (x := Elem t a ks) in *.
  assert (Forall (λ k, ∀ par here,
                    decorate_of base k here (select icon_selector par here k)) ks) as Hall.
  { apply Forall_forall. intros k _ par here. apply decorate_node. }
  pose proof (decorate_kids base x added ks Hall 0 (pristine doc)) as H.
  lapply H; clear H.
  2: { intros j k Hj. cbn [skel pristine]. rewrite subtree_app, Hx. simpl. by rewrite Hj. }
  intros H. lapply H; clear H; [| intros j q _; apply lookup_empty].
  intros H. destruct (forallb named ks); [| by rewrite H].
  destruct H as (σ' & -> & Hs & Ho & Hv). rewrite !bind_Ok. f_equal.
  unfold document. rewrite Hs. cbn [skel pristine].
  rewrite (view_update_at _ (λ _, Elem t a (decorated base <$> ks)) added doc [] x);
    [done | done | |].
  - intros r [c Hc]. destruct (decide (added `prefix_of` r)) as [[q ->] | Hn].
    + by eexists.
    + simpl in Hc. rewrite Ho in Hc; [done |].
      intros j q _ ->. apply Hn. by eexists.
  - cbn [app]. unfold x. rewrite view_Elem. unfold cell_of.
    rewrite Ho by (intros j q _; apply app_cons_ne). cbn [cells pristine].
    rewrite lookup_empty. cbn [default c_out c_attrs c_inner c_pre c_post app].
    by rewrite app_nil_r, Hv.
Qed.

Lemma observer_callback_decorates_icons_witness :
  observer_callback "/site" icon_page [[[0]]] =
  Ok (Elem "aem-header" []
        [Elem "button" []
           [Elem "span" [("class", "icon icon-search")]
              [Elem "img"
                 [("data-icon-name", "search"); ("src", "/site/icons/search.svg");
                  ("loading", "lazy")] []];
            Text "Search"]]).
Proof.
  exact (observer_callback_decorates_icons "/site" icon_page [0]
           (Elem "button" []
              [Elem "span" [("class", "icon icon-search")] []; Text "Search"])
           eq_refl eq_refl).
Defined.

(** ** [transformToCustomElement] and [preloadFragment] on the document *)

(** The document once one of its elements gave its place to a node, and once
    the children of one of its elements were replaced. *)
Lemma document_leave_at doc p x a i pre post n :
  subtree doc p = Some x → is_element x = true →
  document (put_cell (pristine doc) p (Cell a i pre post (Some [n]))) =
    update_at p (λ _, n) doc.
Proof.
  intros Hx He. unfold document, put_cell, pristine. cbn [skel cells].
  rewrite (view_update_at _ (λ _, n) p doc [] x); [done | done | |].
  - intros r [c Hc]. exists []. rewrite app_nil_r.
    destruct (decide (p = r)) as [-> | Hne]; [done |].
    by rewrite lookup_insert_ne, lookup_empty in Hc.
  - destruct x as [s | t a' ks]; [done |]. cbn [app]. rewrite view_Elem. unfold cell_of.
    by rewrite lookup_insert_eq.
Qed.

Lemma document_inner_at doc p x a m post pre :
  subtree doc p = Some x → is_element x = true →
  document (put_cell (pristine doc) p (Cell a (Some m) pre post None)) =
    update_at p (λ x, Elem (tag_of x) a m) doc.
Proof.
  intros Hx He. unfold document, put_cell, pristine. cbn [skel cells].
  rewrite (view_update_at _ (λ x, Elem (tag_of x) a m) p doc [] x); [done | done | |].
  - intros r [c Hc]. exists []. rewrite app_nil_r.
    destruct (decide (p = r)) as [-> | Hne]; [done |].
    by rewrite lookup_insert_ne, lookup_empty in Hc.
  - destruct x as [s | t a' ks]; [done |]. cbn [app]. rewrite view_Elem. unfold cell_of.
    by rewrite lookup_insert_eq.
Qed.

(** [transformToCustomElement] on an element of the document: when the
    browser refuses the name [aem-] followed by the class attribute (the tag
    name, lower-cased, when the class is missing or empty) it throws
    [InvalidCharacterError] and nothing changes; otherwise the element it
    returns stands in the document where the block was: it has the
    lower-cased name for tag, no attribute, and for children what the markup
    of the block parses to inside it, each element among them with
    [slot="item"]. *)
Theorem transformToCustomElement_replaces (B : browser) (doc : node)
    (block : path) (x : node) :
  subtree doc block = Some x → is_element x = true →
  if valid_name B (kind B x)
  then ∃ σ,
         transformToCustomElement B (pristine doc) block = Ok (custom B x, σ) ∧
         custom B x =
           Elem (ascii_lowercase (kind B x)) []
             (set_slot "item" <$> reparse B (ascii_lowercase (kind B x)) (kids_of x)) ∧
         document σ = update_at block (λ _, custom B x) doc
  else transformToCustomElement B (pristine doc) block = Throw InvalidCharacterError.
Proof.
  intros Hx He. destruct x as [s | t a ks]; [done |].
  assert (cell_at (pristine doc) block = Cell a None [] [] None) as Hc
    by (by apply (cell_at_fresh _ _ (Elem t a ks)); [| apply lookup_empty]).
  unfold transformToCustomElement, getAttribute, tagName, get_innerHTML, childNodes.
  rewrite Hc. unfold node_at. cbn [skel pristine]. rewrite Hx. cbn [default c_attrs tag_of].
  unfold createElement. fold (kind B (Elem t a ks)).
  destruct (valid_name B _); [| done]. rewrite bind_Ok.
  cbn [c_inner c_pre c_post kids_of cells].
  rewrite view_kids_pristine by (intros j q; apply lookup_empty). rewrite app_nil_r.
  unfold replaceChild.
  rewrite has_parent_no_inner by (by apply no_inner_pristine || by rewrite Hc).
  rewrite bind_Ok. unfold leave. rewrite Hc, cell_at_put_eq, put_cell_put_cell.
  cbn [c_attrs c_inner c_pre c_post with_kids kids_of tag_of].
  eexists. split; [reflexivity |]. split; [done |].
  by apply (document_leave_at doc block (Elem t a ks)).
Qed.

Lemma transformToCustomElement_replaces_witness :
  ∃ σ,
    transformToCustomElement (literal_browser flat_page) (pristine flat_page) [1; 0; 0] =
      Ok (custom (literal_browser flat_page)
            (Elem "div" [("class", "cards")] [Elem "div" [] [Text "A"]]), σ) ∧
    custom (literal_browser flat_page)
      (Elem "div" [("class", "cards")] [Elem "div" [] [Text "A"]]) =
      Elem "aem-cards" [] [Elem "div" [("slot", "item")] [Text "A"]] ∧
    document σ =
      update_at [1; 0; 0]
        (λ _, custom (literal_browser flat_page)
                (Elem "div" [("class", "cards")] [Elem "div" [] [Text "A"]])) flat_page.
Proof.
  exact (transformToCustomElement_replaces (literal_browser flat_page) flat_page [1; 0; 0]
           (Elem "div" [("class", "cards")] [Elem "div" [] [Text "A"]]) eq_refl eq_refl).
Defined.

(** [preloadFragment] on a placeholder of the document.  The address is made
    of the rendered text of the slot before the [try]: when it cannot be
    made, the promise rejects and the document stays as it is.  Otherwise
    the promise resolves; when the body of the response can be read, the
    children of the slot become that body, whether the response is [ok] or
    not, and nothing else in the document changes; when the fetch fails or
    the body cannot be read, the document stays as it is. *)
Theorem preloadFragment_replaces_the_slot_only (B : browser) (fetch : string → fetched)
    (doc : node) (element slot : path) :
  querySelector_in div_in_div doc element = Some slot →
  match fetch (innerText B slot +:+ ".plain.html") with
  | BadAddress =>
      pl_promise (preloadFragment B fetch (pristine doc) element) =
        Rejected (Thrown TypeError) ∧
      document (pl_dom (preloadFragment B fetch (pristine doc) element)) = doc
  | Response _ (Some m) =>
      pl_promise (preloadFragment B fetch (pristine doc) element) = Fulfilled () ∧
      document (pl_dom (preloadFragment B fetch (pristine doc) element)) =
        update_at slot (λ x, Elem (tag_of x) (attrs_of x) m) doc
  | _ =>
      pl_promise (preloadFragment B fetch (pristine doc) element) = Fulfilled () ∧
      document (pl_dom (preloadFragment B fetch (pristine doc) element)) = doc
  end.
Proof.
  intros Hs. unfold preloadFragment. cbn [skel pristine]. rewrite Hs.
  destruct (querySelector_in_Some _ _ _ _ Hs) as (en & j & k & q & x & _ & _ & _ & _ & Hx & Hm).
  assert (is_element x = true) as He.
  { unfold div_in_div in Hm. by destruct x. }
  destruct (fetch _) as [| | ok [m |]]; cbn [pl_promise pl_dom]; rewrite ?document_pristine;
    try done.
  split; [done |]. unfold set_innerHTML.
  rewrite (cell_at_fresh (pristine doc) slot x) by (done || apply lookup_empty).
  cbn [c_attrs c_out]. rewrite (document_inner_at doc slot x) by done.
  by apply (update_at_ext_at _ _ slot doc x).
Qed.

Lemma preloadFragment_replaces_the_slot_only_witness :
  pl_promise (preloadFragment (literal_browser footer_fragment)
                (λ _, Response false (Some [Text "Not Found"]))
                (pristine footer_fragment) []) = Fulfilled () ∧
  document (pl_dom (preloadFragment (literal_browser footer_fragment)
                      (λ _, Response false (Some [Text "Not Found"]))
                      (pristine footer_fragment) [])) =
    update_at [0] (λ x, Elem (tag_of x) (attrs_of x) [Text "Not Found"]) footer_fragment.
Proof.
  exact (preloadFragment_replaces_the_slot_only (literal_browser footer_fragment)
           (λ _, Response false (Some [Text "Not Found"])) footer_fragment [] [0] eq_refl).
Defined.

(** ** [loadTemplate]: what is appended *)

(** Of the markup a template file holds, [loadTemplate] appends the first
    node only, be it an element or text: an element gets the identifier, and
    what follows the node in the file is dropped.  The node becomes the last
    child of the body, and nothing else in the document changes. *)
Theorem loadTemplate_appends_first_node_only (B : browser) (fetch : string → fetched)
    (base blockName : string) (doc : node) (n : node) (rest : markup) :
  find_template B (template_id (template_href base blockName)) doc = Ok None →
  fetch (template_href base blockName) = Response true (Some (n :: rest)) →
  loadTemplate B fetch base blockName doc =
    Loaded (Fulfilled ()) (Some (set_id (template_id (template_href base blockName)) n))
      [template_href base blockName] ∧
  tag_of (set_id (template_id (template_href base blockName)) n) = tag_of n ∧
  kids_of (set_id (template_id (template_href base blockName)) n) = kids_of n ∧
  attrs_of (set_id (template_id (template_href base blockName)) n) =
    (if is_element n
     then assoc_set "id" (template_id (template_href base blockName)) (attrs_of n)
     else []) ∧
  ∀ body, document_body doc = Some body →
    body_append doc (ld_appended (loadTemplate B fetch base blockName doc)) =
    update_at body
      (λ x, Elem (tag_of x) (attrs_of x)
              (kids_of x ++ [set_id (template_id (template_href base blockName)) n])) doc.
Proof.
  intros Hq Hf. unfold loadTemplate. rewrite Hq, Hf.
  split_and!; try by destruct n.
  intros body Hb. cbn [ld_appended fmap option_fmap option_map head]. unfold body_append.
  rewrite Hb.
  destruct (child_tagged_Some _ _ _ Hb) as (t & a & ks & i & k & -> & -> & Hk & He).
  apply (document_append_at _ [i] k); [| done]. simpl. by rewrite Hk.
Qed.

Lemma loadTemplate_appends_first_node_only_witness :
  loadTemplate blocks_platform
    (λ _, Response true
            (Some [Elem "template" [] [Elem "slot" [] []]; Elem "p" [] [Text "y"]]))
    "" "aem-cards" blocks_page =
  Loaded (Fulfilled ())
    (Some (set_id (template_id (template_href "" "aem-cards"))
             (Elem "template" [] [Elem "slot" [] []])))
    [template_href "" "aem-cards"] ∧
  tag_of (set_id (template_id (template_href "" "aem-cards"))
            (Elem "template" [] [Elem "slot" [] []])) = "template" ∧
  kids_of (set_id (template_id (template_href "" "aem-cards"))
             (Elem "template" [] [Elem "slot" [] []])) = [Elem "slot" [] []] ∧
  attrs_of (set_id (template_id (template_href "" "aem-cards"))
              (Elem "template" [] [Elem "slot" [] []])) = [("id", "aem-cards")] ∧
  ∀ body, document_body blocks_page = Some body →
    body_append blocks_page
      (ld_appended
         (loadTemplate blocks_platform
            (λ _, Response true
                    (Some [Elem "template" [] [Elem "slot" [] []]; Elem "p" [] [Text "y"]]))
            "" "aem-cards" blocks_page)) =
    update_at body
      (λ x, Elem (tag_of x) (attrs_of x)
              (kids_of x ++ [set_id (template_id (template_href "" "aem-cards"))
                               (Elem "template" [] [Elem "slot" [] []])])) blocks_page.
Proof.
  exact (loadTemplate_appends_first_node_only blocks_platform
           (λ _, Response true
                   (Some [Elem "template" [] [Elem "slot" [] []]; Elem "p" [] [Text "y"]]))
           "" "aem-cards" blocks_page
           (Elem "template" [] [Elem "slot" [] []]) [Elem "p" [] [Text "y"]]
           eq_refl eq_refl).
Defined.

(** ** The [Block] constructor and identifiers *)

(** When the first element of the document that carries the identifier of
    the component is not a [template], the constructor throws, in either
    mode and whatever the items: [content] is undefined on such an
    element. *)
Theorem Block_constructor_throws_on_id_clash (B : browser) (doc : node) (mapValues : bool)
    (this : node) (p : path) (n : node) :
  querySelector (with_id (toLowerCase (unicode_lower B) (tag_of this))) doc = Some p →
  subtree doc p = Some n →
  has_tag "template" n = false →
  Block_constructor B doc mapValues this = Throw TypeError.
Proof.
  intros Hq Hn Ht. unfold Block_constructor, clone_template, template_content.
  by rewrite Hq, Hn, Ht.
Qed.

Lemma Block_constructor_throws_on_id_clash_witness :
  Block_constructor (literal_browser metadata_block)
    (Elem "html" []
       [Elem "body" []
          [Elem "h2" [("id", "aem-section-metadata")] [Text "Metadata"];
           Elem "template" [("id", "aem-section-metadata")] [Elem "slot" [] []]]])
    true metadata_block = Throw TypeError.
Proof.
  exact (Block_constructor_throws_on_id_clash (literal_browser metadata_block)
           (Elem "html" []
              [Elem "body" []
                 [Elem "h2" [("id", "aem-section-metadata")] [Text "Metadata"];
                  Elem "template" [("id", "aem-section-metadata")] [Elem "slot" [] []]]])
           true metadata_block [0; 0]
           (Elem "h2" [("id", "aem-section-metadata")] [Text "Metadata"])
           eq_refl eq_refl eq_refl).
Defined.
